(** * MERN-Backend: posts service, GridFS upload pipeline and image routes

    A shallow embedding of [src/services/postService.js],
    [src/utils/fileUpload.js], [src/config/gridfs.js], the post model and the
    image download handlers of the posts router, together with the
    properties of the binary-object layer that the specification states.

    Conventions:
    - a JS string is a [string]; every character stands for one UTF-16 code
      unit in the range U+0000..U+00FF, so [String.length] is [.length];
    - a [Buffer] is a [list byte];
    - asynchronous code is run to completion: every [await] is a
      sequencing point of the state-and-exception monad [M]; promises
      started together and handed to [Promise.all] settle in an order the
      world chooses;
    - the document store, the GridFS bucket, the clock, the random source,
      the console and the choices the store and the scheduler are free to
      make are fields of [World];
    - [mongoose.Types.ObjectId] is a parameter, the class [ObjectIdDriver];
    - a store operation fails only where the code or the driver says so:
      [getGridFS] before [initGridFS], the delete of a file that is not
      there, a cast or [required] validator of the post schema, and an
      upload stream that the world scripts to end in 'error'. *)

From Stdlib Require Import ZArith Lia Ascii Strings.Byte.
From stdpp Require Import base option list sorting gmap strings.

Local Open Scope Z_scope.

(** ** JavaScript strings *)

Module JsString.

(** WhiteSpace and LineTerminator code units below U+0100, the ones
    [String.prototype.trim] strips: TAB, LF, VT, FF, CR, SP and NBSP. *)
Definition is_whitespace (c : ascii) : bool :=
  let n := N_of_ascii c in
  ((9 <=? n) && (n <=? 13) || (n =? 32) || (n =? 160))%N.

Fixpoint trimStart (s : string) : string :=
  match s with
  | EmptyString => EmptyString
  | String c rest => if is_whitespace c then trimStart rest else s
  end.

Fixpoint rev_append (s acc : string) : string :=
  match s with
  | EmptyString => acc
  | String c rest => rev_append rest (String c acc)
  end.

Definition reverse (s : string) : string := rev_append s EmptyString.

Definition trimEnd (s : string) : string := reverse (trimStart (reverse s)).

(** [s.trim()] *)
Definition trim (s : string) : string := trimEnd (trimStart s).

(** [s.startsWith(p)] *)
Definition startsWith (s p : string) : bool := String.prefix p s.

(** [s.slice(from, to)] for [0 <= from <= to]. *)
Definition slice (s : string) (from to : Z) : string :=
  String.substring (Z.to_nat from) (Z.to_nat (to - from)) s.

(** [s1] occurs in [s2] as a contiguous run of characters. *)
Definition occurs_in (s1 s2 : string) : Prop :=
  exists pre post, s2 = pre +:+ s1 +:+ post.

End JsString.

(** ** Node's [Buffer] and [path] *)

Module Node.

Definition hex_digit (n : N) : ascii :=
  if (n <? 10)%N then ascii_of_N (48 + n) else ascii_of_N (87 + n).

Definition hex_of_byte (b : byte) : string :=
  let n := Byte.to_N b in
  String (hex_digit (n / 16)) (String (hex_digit (n mod 16)) EmptyString).

(** [buf.toString('hex')] *)
Fixpoint toString_hex (buf : list byte) : string :=
  match buf with
  | [] => EmptyString
  | b :: rest => hex_of_byte b +:+ toString_hex rest
  end.

Definition is_hex_char (c : ascii) : bool :=
  let n := N_of_ascii c in
  ((48 <=? n) && (n <=? 57) || (97 <=? n) && (n <=? 102))%N.

Fixpoint all_chars (p : ascii -> bool) (s : string) : bool :=
  match s with
  | EmptyString => true
  | String c rest => p c && all_chars p rest
  end.

(** The loop variables of [path.posix.extname]. *)
Record ExtScan := mkExtScan {
  startDot : Z;
  startPart : Z;
  endPos : Z;
  matchedSlash : bool;
  preDotState : Z
}.

Definition CHAR_FORWARD_SLASH : ascii := ascii_of_N 47.
Definition CHAR_DOT : ascii := ascii_of_N 46.

(** One iteration of the scan at index [i] holding character [code];
    the boolean says whether the loop goes on ([false] is [break]). *)
Definition extname_step (i : Z) (code : ascii) (st : ExtScan) : ExtScan * bool :=
  if Ascii.eqb code CHAR_FORWARD_SLASH then
    if negb (matchedSlash st)
    then (mkExtScan (startDot st) (i + 1) (endPos st) (matchedSlash st) (preDotState st), false)
    else (st, true)
  else
    let st1 :=
      if endPos st =? -1
      then mkExtScan (startDot st) (startPart st) (i + 1) false (preDotState st)
      else st in
    let st2 :=
      if Ascii.eqb code CHAR_DOT then
        if startDot st1 =? -1
        then mkExtScan i (startPart st1) (endPos st1) (matchedSlash st1) (preDotState st1)
        else if negb (preDotState st1 =? 1)
             then mkExtScan (startDot st1) (startPart st1) (endPos st1) (matchedSlash st1) 1
             else st1
      else if negb (startDot st1 =? -1)
           then mkExtScan (startDot st1) (startPart st1) (endPos st1) (matchedSlash st1) (-1)
           else st1 in
    (st2, true).

(** [for (let i = path.length - 1; i >= 0; --i)]: [n] is [i + 1]. *)
Fixpoint extname_scan (path : string) (n : nat) (st : ExtScan) : ExtScan :=
  match n with
  | O => st
  | S i =>
      match String.get i path with
      | None => st
      | Some code =>
          let (st', continue) := extname_step (Z.of_nat i) code st in
          if continue then extname_scan path i st' else st'
      end
  end.

(** [path.extname(p)] on a POSIX host. *)
Definition extname (path : string) : string :=
  let st := extname_scan path (String.length path) (mkExtScan (-1) 0 (-1) true 0) in
  if (startDot st =? -1) || (endPos st =? -1) || (preDotState st =? 0)
     || ((preDotState st =? 1) && (startDot st =? endPos st - 1)
         && (startDot st =? startPart st + 1))
  then EmptyString
  else JsString.slice path (startDot st) (endPos st).

End Node.

(** ** Values, errors and documents *)

(** A JSON-shaped JavaScript value, as [req.body] holds them. *)
Inductive value :=
| VUndefined
| VNull
| VBool (b : bool)
| VNumber (n : Z)
| VString (s : string)
| VObject.

(** An argument that JavaScript lets the caller omit or pass as [null]. *)
Inductive optional (A : Type) :=
| Undefined
| Null
| Defined (a : A).
Arguments Undefined {A}.
Arguments Null {A}.
Arguments Defined {A} a.

(** ToBoolean *)
Definition truthy (v : value) : bool :=
  match v with
  | VUndefined | VNull => false
  | VBool b => b
  | VNumber n => negb (n =? 0)
  | VString s => negb (String.eqb s "")
  | VObject => true
  end.

(** Property read [o.k] / [o[k]] on a plain object. *)
Definition prop (o : gmap string value) (k : string) : value :=
  default VUndefined (o !! k).

(** [v !== undefined] *)
Definition is_defined (v : value) : bool :=
  match v with VUndefined => false | _ => true end.

(** Modelled from the spec: [utils/errors] is not among the sources; its
    classes [ValidationError], [NotFoundError] and [AuthorizationError] are
    the typed failures of the spec's error taxonomy (client errors 400, 404
    and 403), told apart by class and carrying the constructor's argument.
    The other constructors are what the runtime ([TypeError], [Error]),
    Mongoose and the MongoDB driver raise. *)
Inductive Error :=
| ValidationError (message : string)
| NotFoundError (resource : string)
| AuthorizationError (message : string)
| TypeError (message : string)
| GenericError (message : string)
| MongooseValidationError (path : string)
| MongooseCastError (path : string)
| BSONError (message : string)
| MongoError (message : string).

(** A BSON ObjectId, held as its canonical text; [toString] gives it back. *)
Record ObjectId := mkObjectId { oid_hex : string }.

Definition toString (o : ObjectId) : string := oid_hex o.

#[global] Instance ObjectId_eq_dec : EqDecision ObjectId.
Proof. solve_decision. Defined.

(** What the code asks of [mongoose.Types.ObjectId]: the validity test on
    a string and the constructor it guards. *)
Class ObjectIdDriver := {
  ObjectId_isValid : string -> bool;
  ObjectId_new : string -> ObjectId
}.

(** models/postModel.js: one embedded image reference. *)
Record PostImageRef := mkPostImageRef {
  img_fileId : ObjectId;
  img_filename : string;
  img_contentType : string;
  img_size : Z
}.

(** models/postModel.js: a post document, [timestamps: true]. *)
Record Post := mkPost {
  post_id : ObjectId;
  post_title : string;
  post_content : string;
  post_user_id : ObjectId;
  post_images : list PostImageRef;
  post_createdAt : Z;
  post_updatedAt : Z
}.

(** The part of a user document that the authentication middleware reads. *)
Record User := mkUser {
  user_id : ObjectId;
  user_email : string
}.

(** The [metadata] document [uploadToGridFS] writes; every entry may be
    absent on a file that came from elsewhere. *)
Record FileMetadata := mkFileMetadata {
  meta_originalName : option string;
  meta_uploadedBy : option ObjectId;
  meta_uploadedAt : option Z;
  meta_contentType : option string
}.

(** A file of the [uploads] bucket: its files-collection document and the
    concatenation of its chunks. *)
Record StoredFile := mkStoredFile {
  file_id : ObjectId;
  file_filename : string;
  file_length : Z;
  file_contentType : option string;
  file_metadata : option FileMetadata;
  file_data : list byte
}.

(** A file as multer's memory storage hands it over. *)
Record MulterFile := mkMulterFile {
  originalname : string;
  mimetype : string;
  buffer : list byte
}.

(** What [uploadToGridFS] resolves to. *)
Record UploadedFile := mkUploadedFile {
  up_id : ObjectId;
  up_filename : string;
  up_contentType : string;
  up_size : Z
}.

(** A schema path of an update document with its value after casting. *)
Inductive PathValue :=
| PString (s : string)
| PObjectId (o : ObjectId)
| PImages (l : list PostImageRef)
| PDate (t : Z).

(** ** The world *)

(** Store operations issued and console lines written, oldest first. *)
Inductive Event :=
| EvPostFind (filter : option ObjectId) (skip limit : Z)
| EvPostCount (filter : option ObjectId)
| EvPostFindById (id : ObjectId)
| EvPostCreate (id : ObjectId)
| EvPostUpdate (id : ObjectId)
| EvPostDelete (id : ObjectId)
| EvBucketFindByName (name : string)
| EvBucketFindById (id : ObjectId)
| EvBucketUpload (name : string)
| EvBucketDownloadByName (name : string)
| EvBucketDownloadById (id : ObjectId)
| EvBucketDelete (id : ObjectId)
| EvConsoleLog (line : string)
| EvConsoleError (line : string).

Record World := mkWorld {
  (** the posts collection, in natural order *)
  w_posts : list Post;
  (** config/gridfs.js: [gfs] and [gridfsBucket] are set *)
  w_gridfs_ready : bool;
  (** the files of the [uploads] bucket, oldest upload first *)
  w_files : list StoredFile;
  (** the clock *)
  w_now : Z;
  (** the bytes [crypto.randomBytes] will produce, and how many were drawn *)
  w_entropy : nat -> byte;
  w_entropy_pos : nat;
  (** the ids the driver will generate, and how many were drawn *)
  w_fresh : nat -> ObjectId;
  w_fresh_pos : nat;
  (** whether the next upload streams, in the order they are opened, end
      in an 'error' event *)
  w_faults : list bool;
  w_trace : list Event;
  (** what the code leaves to the environment, by the number of events
      issued so far: the order in which promises that were started
      together settle, and the order in which the store hands the matching
      documents to a sort (see [arrange]) *)
  w_orders : nat -> list nat
}.

Definition set_posts (ps : list Post) (w : World) : World :=
  mkWorld ps (w_gridfs_ready w) (w_files w) (w_now w)
          (w_entropy w) (w_entropy_pos w) (w_fresh w) (w_fresh_pos w)
          (w_faults w) (w_trace w) (w_orders w).

Definition set_files (fs : list StoredFile) (w : World) : World :=
  mkWorld (w_posts w) (w_gridfs_ready w) fs (w_now w)
          (w_entropy w) (w_entropy_pos w) (w_fresh w) (w_fresh_pos w)
          (w_faults w) (w_trace w) (w_orders w).

Definition set_entropy_pos (n : nat) (w : World) : World :=
  mkWorld (w_posts w) (w_gridfs_ready w) (w_files w) (w_now w)
          (w_entropy w) n (w_fresh w) (w_fresh_pos w)
          (w_faults w) (w_trace w) (w_orders w).

Definition set_fresh_pos (n : nat) (w : World) : World :=
  mkWorld (w_posts w) (w_gridfs_ready w) (w_files w) (w_now w)
          (w_entropy w) (w_entropy_pos w) (w_fresh w) n
          (w_faults w) (w_trace w) (w_orders w).

Definition set_faults (fl : list bool) (w : World) : World :=
  mkWorld (w_posts w) (w_gridfs_ready w) (w_files w) (w_now w)
          (w_entropy w) (w_entropy_pos w) (w_fresh w) (w_fresh_pos w)
          fl (w_trace w) (w_orders w).

Definition set_trace (tr : list Event) (w : World) : World :=
  mkWorld (w_posts w) (w_gridfs_ready w) (w_files w) (w_now w)
          (w_entropy w) (w_entropy_pos w) (w_fresh w) (w_fresh_pos w)
          (w_faults w) tr (w_orders w).

(** Projections of a world out of the setters, and [fst]/[snd] of a run. *)
Ltac world_simpl :=
  cbn [fst snd w_posts w_gridfs_ready w_files w_now w_entropy w_entropy_pos
       w_fresh w_fresh_pos w_faults w_trace w_orders
       set_posts set_files set_entropy_pos set_fresh_pos set_faults set_trace] in *.

(** ** Computations: state with exceptions *)

Inductive Outcome (A : Type) :=
| Return (a : A)
| Throw (e : Error).
Arguments Return {A} a.
Arguments Throw {A} e.

(** A computation runs on a world and leaves a world behind, also when it
    throws: what was written before the exception stays written. *)
Definition M (A : Type) : Type := World -> Outcome A * World.

Definition ret {A} (a : A) : M A := fun w => (Return a, w).

Definition throw {A} (e : Error) : M A := fun w => (Throw e, w).

Definition bind {A B} (m : M A) (k : A -> M B) : M B :=
  fun w =>
    match m w with
    | (Return a, w') => k a w'
    | (Throw e, w') => (Throw e, w')
    end.

(** [try { m } catch (error) { handler(error) }] *)
Definition try_catch {A} (m : M A) (handler : Error -> M A) : M A :=
  fun w =>
    match m w with
    | (Return a, w') => (Return a, w')
    | (Throw e, w') => handler e w'
    end.

Declare Scope js_scope.
Delimit Scope js_scope with js.
Notation "x <- c1 ;; c2" := (bind c1 (fun x => c2))
  (at level 100, c1 at next level, right associativity) : js_scope.
Notation "c1 ;; c2" := (bind c1 (fun _ => c2))
  (at level 100, right associativity) : js_scope.
Local Open Scope js_scope.

Definition emit (e : Event) : M unit :=
  fun w => (Return tt, set_trace (w_trace w ++ [e]) w).

(** [for (const x of xs) { await body(x) }] *)
Fixpoint for_of {A} (xs : list A) (body : A -> M unit) : M unit :=
  match xs with
  | [] => ret tt
  | x :: rest => body x ;; for_of rest body
  end.

(** [xs.map(f)] for an [f] with effects: [f] runs on the elements in order. *)
Fixpoint js_map {A B} (f : A -> M B) (xs : list A) : M (list B) :=
  match xs with
  | [] => ret []
  | x :: rest => y <- f x ;; ys <- js_map f rest ;; ret (y :: ys)
  end.

(** The elements of [l] in the order [choices] takes them: each choice is
    a position among the elements still left (a position past the end
    takes nothing), and what is left in the end follows in its own order.
    Every order of [l] is the work of some [choices]. *)
Fixpoint arrange {A} (choices : list nat) (l : list A) : list A :=
  match choices with
  | [] => l
  | i :: rest =>
      match l !! i with
      | Some x => x :: arrange rest (delete i l)
      | None => arrange rest l
      end
  end.

(** The promises [promises] settling one after the other, in the order
    [turns] of their positions: what each settled with. *)
Fixpoint settle {A} (promises : list (M A)) (turns : list nat) (w : World)
  : list (nat * Outcome A) * World :=
  match turns with
  | [] => ([], w)
  | i :: rest =>
      match (promises !! i : option (M A)) with
      | Some promise =>
          let (o, w1) := promise w in
          let (settled, w2) := settle promises rest w1 in
          ((i, o) :: settled, w2)
      | None => settle promises rest w
      end
  end.

(** The first rejection among promises that settled in this order. *)
Definition rejection {A} (settled : list (nat * Outcome A)) : option Error :=
  head (omap (fun s => match snd s with Throw e => Some e | Return _ => None end) settled).

(** The value the promise at position [i] was fulfilled with. *)
Definition value_at {A} (settled : list (nat * Outcome A)) (i : nat) : option A :=
  match List.find (fun s => Nat.eqb (fst s) i) settled with
  | Some (_, Return a) => Some a
  | _ => None
  end.

(** [Promise.all(promises)] over promises that were all started: they
    settle in an order that the code does not fix and the world chooses,
    every one of them settles, and the result is the first rejection in
    that order or, when none rejects, the values in the order of
    [promises]. *)
Definition Promise_all {A} (promises : list (M A)) : M (list A) :=
  fun w =>
    let turns := arrange (w_orders w (length (w_trace w))) (seq 0 (length promises)) in
    let (settled, w') := settle promises turns w in
    match rejection settled with
    | Some e => (Throw e, w')
    | None => (Return (omap (value_at settled) (seq 0 (length promises))), w')
    end.

Definition console_log (line : string) : M unit := emit (EvConsoleLog line).
Definition console_error (line : string) : M unit := emit (EvConsoleError line).

(** [v.trim()] *)
Definition js_trim (v : value) : M string :=
  match v with
  | VString s => ret (JsString.trim s)
  | VUndefined => throw (TypeError "Cannot read properties of undefined (reading 'trim')")
  | VNull => throw (TypeError "Cannot read properties of null (reading 'trim')")
  | _ => throw (TypeError "trim is not a function")
  end.

Definition get_world : M World := fun w => (Return w, w).

(** [Promise.all([m1, m2])]: both were started, both run. *)
Definition Promise_all2 {A B} (m1 : M A) (m2 : M B) : M (A * B) :=
  fun w =>
    match m1 w with
    | (Return a, w1) =>
        match m2 w1 with
        | (Return b, w2) => (Return (a, b), w2)
        | (Throw e, w2) => (Throw e, w2)
        end
    | (Throw e, w1) => (Throw e, snd (m2 w1))
    end.

(** ** The collaborators: Mongoose models, the GridFS bucket, crypto *)

Section Backend.
Context `{ObjectIdDriver}.

(** Mongoose's cast of a string to an ObjectId at schema path [path]. *)
Definition ObjectId_cast (path s : string) : M ObjectId :=
  if ObjectId_isValid s then ret (ObjectId_new s) else throw (MongooseCastError path).

Definition has_id (id : ObjectId) (p : Post) : bool := bool_decide (post_id p = id).

Definition find_post (id : ObjectId) (ps : list Post) : option Post :=
  List.find (has_id id) ps.

(** [Post.findById(postId)] *)
Definition Post_findById (postId : string) : M (option Post) :=
  id <- ObjectId_cast "_id" postId ;;
  emit (EvPostFindById id) ;;
  w <- get_world ;;
  ret (find_post id (w_posts w)).

(** The document handed to [Post.create]. *)
Record PostPayload := mkPostPayload {
  pl_title : string;
  pl_content : string;
  pl_user_id : ObjectId;
  pl_images : option (list PostImageRef)
}.

(** [Post.create(payload)]: [required] rejects an empty string, an array
    path left out defaults to the empty array, the timestamps are set. *)
Definition Post_create (pl : PostPayload) : M Post :=
  if String.eqb (pl_title pl) "" then throw (MongooseValidationError "title")
  else if String.eqb (pl_content pl) "" then throw (MongooseValidationError "content")
  else fun w =>
    let id := w_fresh w (w_fresh_pos w) in
    let p := mkPost id (pl_title pl) (pl_content pl) (pl_user_id pl)
                    (default [] (pl_images pl)) (w_now w) (w_now w) in
    (Return p,
     set_trace (w_trace w ++ [EvPostCreate id])
       (set_fresh_pos (S (w_fresh_pos w)) (set_posts (w_posts w ++ [p]) w))).

(** The type each schema path of the post model casts to. *)
Definition path_casts (path : string) (v : PathValue) : bool :=
  if String.eqb path "title" || String.eqb path "content"
  then match v with PString _ => true | _ => false end
  else if String.eqb path "user_id"
  then match v with PObjectId _ => true | _ => false end
  else if String.eqb path "images"
  then match v with PImages _ => true | _ => false end
  else if String.eqb path "createdAt"
  then match v with PDate _ => true | _ => false end
  else true.

Definition schema_paths : list string :=
  ["title"; "content"; "user_id"; "images"; "createdAt"].

(** The first schema path of the update whose value does not cast. *)
Definition cast_failure (updates : gmap string PathValue) : option string :=
  List.find (fun path => match updates !! path with
                         | Some v => negb (path_casts path v)
                         | None => false
                         end) schema_paths.

(** [runValidators: true]: the [required] validator of every string path
    the update sets. *)
Definition required_failure (updates : gmap string PathValue) : option string :=
  List.find (fun path => match updates !! path with
                         | Some (PString s) => String.eqb s ""
                         | _ => false
                         end) ["title"; "content"].

(** [$set] of the update on one document; [updatedAt] is refreshed. *)
Definition apply_update (updates : gmap string PathValue) (now : Z) (p : Post) : Post :=
  mkPost (post_id p)
    (match updates !! "title" with Some (PString s) => s | _ => post_title p end)
    (match updates !! "content" with Some (PString s) => s | _ => post_content p end)
    (match updates !! "user_id" with Some (PObjectId o) => o | _ => post_user_id p end)
    (match updates !! "images" with Some (PImages l) => l | _ => post_images p end)
    (match updates !! "createdAt" with Some (PDate t) => t | _ => post_createdAt p end)
    now.

Fixpoint update_first (id : ObjectId) (f : Post -> Post) (ps : list Post) : list Post :=
  match ps with
  | [] => []
  | p :: rest => if has_id id p then f p :: rest else p :: update_first id f rest
  end.

Fixpoint remove_first (id : ObjectId) (ps : list Post) : list Post :=
  match ps with
  | [] => []
  | p :: rest => if has_id id p then rest else p :: remove_first id rest
  end.

(** [Post.findByIdAndUpdate(postId, updates, { new: true, runValidators: true })] *)
Definition Post_findByIdAndUpdate (postId : string) (updates : gmap string PathValue)
  : M (option Post) :=
  id <- ObjectId_cast "_id" postId ;;
  match cast_failure updates with
  | Some path => throw (MongooseCastError path)
  | None =>
      match required_failure updates with
      | Some path => throw (MongooseValidationError path)
      | None =>
          emit (EvPostUpdate id) ;;
          fun w =>
            let ps := update_first id (apply_update updates (w_now w)) (w_posts w) in
            (Return (find_post id ps), set_posts ps w)
      end
  end.

(** [Post.findByIdAndDelete(postId)] *)
Definition Post_findByIdAndDelete (postId : string) : M (option Post) :=
  id <- ObjectId_cast "_id" postId ;;
  emit (EvPostDelete id) ;;
  fun w => (Return (find_post id (w_posts w)), set_posts (remove_first id (w_posts w)) w).

(** [{}] or [{ user_id: userId }] *)
Definition matches (filter : option ObjectId) (p : Post) : bool :=
  match filter with
  | None => true
  | Some u => bool_decide (post_user_id p = u)
  end.

(** [sort({ createdAt: -1 })]: the later post first. *)
Definition created_desc (a b : Post) : Prop := post_createdAt b <= post_createdAt a.

#[global] Instance created_desc_dec : RelDecision created_desc.
Proof. intros a b. unfold created_desc. apply _. Defined.

#[global] Instance created_desc_total : Total created_desc.
Proof. intros a b. unfold created_desc. lia. Qed.

#[global] Instance created_desc_trans : Transitive created_desc.
Proof. intros a b c. unfold created_desc. lia. Qed.

(** [Post.find(filter).sort({ createdAt: -1 }).skip(skip).limit(limit)];
    a limit of 0 is no limit. The sort is on [createdAt] alone: the
    matching documents reach it in an order the store chooses, so the
    order among posts of equal [createdAt] is open, and need not be the
    same from one query to the next. *)
Definition Post_find (filter : option ObjectId) (skip limit : Z) : M (list Post) :=
  emit (EvPostFind filter skip limit) ;;
  if skip <? 0 then throw (MongoError "Skip value must be non-negative")
  else
    w <- get_world ;;
    let found := arrange (w_orders w (length (w_trace w)))
                   (List.filter (matches filter) (w_posts w)) in
    let sorted := merge_sort created_desc found in
    let skipped := drop (Z.to_nat skip) sorted in
    ret (if limit =? 0 then skipped else take (Z.abs_nat limit) skipped).

(** [Post.countDocuments(filter)] *)
Definition Post_countDocuments (filter : option ObjectId) : M Z :=
  emit (EvPostCount filter) ;;
  w <- get_world ;;
  ret (Z.of_nat (length (List.filter (matches filter) (w_posts w)))).

(** [.populate('user_id', 'email')]: the schema of the post model declares
    [user_id] as an ObjectId without a [ref], so Mongoose has no model to
    read the users from; it issues no query and leaves [user_id] the id it
    was. *)
Definition populate (docs : list Post) : M (list Post) := ret docs.

(** config/gridfs.js [getGridFS] *)
Definition getGridFS : M unit :=
  w <- get_world ;;
  if w_gridfs_ready w then ret tt
  else throw (GenericError "GridFS not initialized. Call initGridFS() first.").

Definition file_has_id (id : ObjectId) (f : StoredFile) : bool :=
  bool_decide (file_id f = id).

Definition file_has_name (name : string) (f : StoredFile) : bool :=
  String.eqb (file_filename f) name.

Fixpoint remove_file (id : ObjectId) (fs : list StoredFile) : list StoredFile :=
  match fs with
  | [] => []
  | f :: rest => if file_has_id id f then rest else f :: remove_file id rest
  end.

(** [gridfsBucket.find({ filename }).toArray()] *)
Definition bucket_find_by_name (name : string) : M (list StoredFile) :=
  emit (EvBucketFindByName name) ;;
  w <- get_world ;;
  ret (List.filter (file_has_name name) (w_files w)).

(** [gridfsBucket.find({ _id }).toArray()] *)
Definition bucket_find_by_id (id : ObjectId) : M (list StoredFile) :=
  emit (EvBucketFindById id) ;;
  w <- get_world ;;
  ret (List.filter (file_has_id id) (w_files w)).

(** [gridfsBucket.delete(id)]: an error when no file has this id. *)
Definition bucket_delete (id : ObjectId) : M unit :=
  emit (EvBucketDelete id) ;;
  fun w =>
    if existsb (file_has_id id) (w_files w)
    then (Return tt, set_files (remove_file id (w_files w)) w)
    else (Throw (MongoError "File not found for id"), w).

(** An upload stream of the bucket, once opened. *)
Record UploadStream := mkUploadStream {
  us_id : ObjectId;
  us_filename : string;
  us_metadata : FileMetadata;
  (** it will end in 'error' *)
  us_fails : bool
}.

(** [gridfsBucket.openUploadStream(filename, { metadata })]: the stream
    gets its id when it is opened. *)
Definition bucket_openUploadStream (name : string) (metadata : FileMetadata)
  : M UploadStream :=
  emit (EvBucketUpload name) ;;
  fun w =>
    (Return (mkUploadStream (w_fresh w (w_fresh_pos w)) name metadata
               (hd false (w_faults w))),
     set_faults (tail (w_faults w)) (set_fresh_pos (S (w_fresh_pos w)) w)).

(** The end of a stream that [data] was piped into: on 'finish' the file
    is in the bucket, after the files that were there by then; on 'error'
    nothing is stored. *)
Definition bucket_stream_end (stream : UploadStream) (data : list byte) : M unit :=
  fun w =>
    if us_fails stream then (Throw (MongoError "upload stream error"), w)
    else
      (Return tt,
       set_files (w_files w ++
                    [mkStoredFile (us_id stream) (us_filename stream)
                       (Z.of_nat (length data)) None (Some (us_metadata stream)) data])
         w).

(** [gridfsBucket.openDownloadStreamByName(name)] read to its end: the
    newest file of that name. *)
Definition bucket_download_by_name (name : string) : M (list byte) :=
  emit (EvBucketDownloadByName name) ;;
  w <- get_world ;;
  match last (List.filter (file_has_name name) (w_files w)) with
  | Some f => ret (file_data f)
  | None => throw (MongoError "FileNotFound")
  end.

(** [gridfsBucket.openDownloadStream(id)] read to its end. *)
Definition bucket_download_by_id (id : ObjectId) : M (list byte) :=
  emit (EvBucketDownloadById id) ;;
  w <- get_world ;;
  match List.find (file_has_id id) (w_files w) with
  | Some f => ret (file_data f)
  | None => throw (MongoError "FileNotFound")
  end.

(** [new mongoose.Types.ObjectId(s)] *)
Definition ObjectId_construct (s : string) : M ObjectId :=
  if ObjectId_isValid s then ret (ObjectId_new s)
  else throw (BSONError "input must be a 24 character hex string").

(** [crypto.randomBytes(n)] *)
Definition crypto_randomBytes (n : nat) : M (list byte) :=
  fun w =>
    (Return (map (w_entropy w) (seq (w_entropy_pos w) n)),
     set_entropy_pos (w_entropy_pos w + n)%nat w).

(** [new Date()] *)
Definition Date_now : M Z := w <- get_world ;; ret (w_now w).

End Backend.

(** ** utils/fileUpload.js *)

Section FileUpload.
Context `{ObjectIdDriver}.

(** The promise [uploadToGridFS] returns. Its executor runs at once, up to
    [readableStream.pipe(uploadStream)]: it draws the storage name, opens
    the upload stream and leaves the promise, which settles when the
    stream ends ('finish' resolves it, 'error' rejects it); an exception
    in the executor leaves a promise that is rejected with it. *)
Definition uploadToGridFS_promise (buffer : list byte) (fileInfo : MulterFile)
    (userId : ObjectId) : M (M UploadedFile) :=
  try_catch
    (getGridFS ;;
     random <- crypto_randomBytes 16 ;;
     let filename := Node.toString_hex random +:+ Node.extname (originalname fileInfo) in
     uploadedAt <- Date_now ;;
     uploadStream <- bucket_openUploadStream filename
                       (mkFileMetadata (Some (originalname fileInfo)) (Some userId)
                                       (Some uploadedAt) (Some (mimetype fileInfo))) ;;
     ret (bucket_stream_end uploadStream buffer ;;
          ret (mkUploadedFile (us_id uploadStream) filename (mimetype fileInfo)
                              (Z.of_nat (length buffer)))))
    (fun error => ret (throw error)).

(** [await uploadToGridFS(buffer, fileInfo, userId)] *)
Definition uploadToGridFS (buffer : list byte) (fileInfo : MulterFile) (userId : ObjectId)
  : M UploadedFile :=
  promise <- uploadToGridFS_promise buffer fileInfo userId ;;
  promise.

(** [files.map(...)] starts every upload, in the order of the files, before
    [Promise.all] waits for them. *)
Definition uploadMultipleToGridFS (files : optional (list MulterFile)) (userId : ObjectId)
  : M (list UploadedFile) :=
  match files with
  | Undefined | Null => ret []
  | Defined files =>
      if (length files =? 0)%nat then ret []
      else
        uploadPromises <-
          js_map (fun file => uploadToGridFS_promise (buffer file) file userId) files ;;
        Promise_all uploadPromises
  end.

End FileUpload.

(** ** services/postService.js *)

Record Pagination := mkPagination {
  pg_page : Z;
  pg_limit : Z;
  pg_total : Z;
  pg_pages : Z
}.

Record PostsPage (A : Type) := mkPostsPage {
  page_posts : list A;
  page_pagination : Pagination
}.
Arguments mkPostsPage {A} _ _.
Arguments page_posts {A} _.
Arguments page_pagination {A} _.

(** [Math.ceil(total / limit)] for a non-zero [limit], on integers small
    enough for the quotient to be exact in double precision. *)
Definition Math_ceil_div (total limit : Z) : Z := - ((- total) / limit).

Module PostService.
Section PostService.
Context `{ObjectIdDriver}.

Definition validateObjectId (id : string) : M unit :=
  if negb (ObjectId_isValid id) then throw (ValidationError "Invalid post ID format")
  else ret tt.

Definition getAllPosts (page limit : option Z) : M (PostsPage Post) :=
  let page := default 1 page in
  let limit := default 10 limit in
  let skip := (page - 1) * limit in
  results <- Promise_all2
               (docs <- Post_find None skip limit ;; populate docs)
               (Post_countDocuments None) ;;
  let posts := fst results in
  let total := snd results in
  ret (mkPostsPage posts (mkPagination page limit total (Math_ceil_div total limit))).

Definition getPostsByUser (userId : ObjectId) (page limit : option Z) : M (PostsPage Post) :=
  let page := default 1 page in
  let limit := default 10 limit in
  let skip := (page - 1) * limit in
  results <- Promise_all2
               (Post_find (Some userId) skip limit)
               (Post_countDocuments (Some userId)) ;;
  let posts := fst results in
  let total := snd results in
  ret (mkPostsPage posts (mkPagination page limit total (Math_ceil_div total limit))).

Definition getPostById (postId : string) : M Post :=
  validateObjectId postId ;;
  found <- (post <- Post_findById postId ;;
            match post with
            | None => ret None
            | Some p => docs <- populate [p] ;; ret (head docs)
            end) ;;
  match found with
  | None => throw (NotFoundError "Post")
  | Some post => ret post
  end.

(** The element [files.map] builds for one uploaded file. *)
Definition imageRef (file : UploadedFile) : PostImageRef :=
  mkPostImageRef (up_id file) (up_filename file) (up_contentType file) (up_size file).

Definition createPost (postData : gmap string value) (userId : ObjectId)
    (files : optional (list UploadedFile)) : M Post :=
  let files := match files with Undefined => Defined [] | _ => files end in
  let title := prop postData "title" in
  let content := prop postData "content" in
  if negb (truthy title) || negb (truthy content)
  then throw (ValidationError "Title and content are required")
  else
    trimmedTitle <- js_trim title ;;
    if (String.length trimmedTitle <? 3)%nat
    then throw (ValidationError "Title must be at least 3 characters long")
    else
      trimmedContent <- js_trim content ;;
      if (String.length trimmedContent <? 10)%nat
      then throw (ValidationError "Content must be at least 10 characters long")
      else
        let images :=
          match files with
          | Defined files =>
              if (0 <? length files)%nat then Some (map imageRef files) else None
          | _ => None
          end in
        Post_create (mkPostPayload trimmedTitle trimmedContent userId images).

(** [if (updateData[field] && updateData[field].trim().length < min) throw ...] *)
Definition check_min_length (v : value) (min : nat) (message : string) : M unit :=
  if truthy v then
    trimmed <- js_trim v ;;
    if (String.length trimmed <? min)%nat then throw (ValidationError message) else ret tt
  else ret tt.

Definition allowedUpdates : list string := ["title"; "content"].

(** [allowedUpdates.forEach(field => { if (updateData[field] !== undefined)
    updates[field] = updateData[field].trim(); })] *)
Fixpoint collect_updates (fields : list string) (updateData : gmap string value)
    (updates : gmap string PathValue) : M (gmap string PathValue) :=
  match fields with
  | [] => ret updates
  | field :: rest =>
      if is_defined (prop updateData field) then
        trimmed <- js_trim (prop updateData field) ;;
        collect_updates rest updateData (<[field := PString trimmed]> updates)
      else collect_updates rest updateData updates
  end.

Definition updatePost (postId : string) (updateData : gmap string value) (userId : ObjectId)
  : M (option Post) :=
  validateObjectId postId ;;
  post <- Post_findById postId ;;
  match post with
  | None => throw (NotFoundError "Post")
  | Some post =>
      if negb (String.eqb (toString (post_user_id post)) (toString userId))
      then throw (AuthorizationError "You can only update your own posts")
      else
        check_min_length (prop updateData "title") 3
          "Title must be at least 3 characters long" ;;
        check_min_length (prop updateData "content") 10
          "Content must be at least 10 characters long" ;;
        updates <- collect_updates allowedUpdates updateData ∅ ;;
        Post_findByIdAndUpdate postId updates
  end.

(** The body of the [for ... of] loop of [deletePost] (the log line is
    written without its leading emoji). *)
Definition delete_one (image : PostImageRef) : M unit :=
  bucket_delete (img_fileId image) ;;
  console_log ("Deleted image file: " +:+ img_filename image).

(** The body of the [try] block of [deletePost]. *)
Definition delete_images (images : list PostImageRef) : M unit :=
  getGridFS ;;
  for_of images delete_one.

Definition deletePost (postId : string) (userId : ObjectId) : M string :=
  validateObjectId postId ;;
  post <- Post_findById postId ;;
  match post with
  | None => throw (NotFoundError "Post")
  | Some post =>
      if negb (String.eqb (toString (post_user_id post)) (toString userId))
      then throw (AuthorizationError "You can only delete your own posts")
      else
        (if (0 <? length (post_images post))%nat
         then try_catch (delete_images (post_images post))
                (fun error => console_error "Error deleting images from GridFS:")
         else ret tt) ;;
        Post_findByIdAndDelete postId ;;
        ret "Post deleted successfully"
  end.

End PostService.
End PostService.

(** ** The posts router: creation and the image downloads *)

Inductive Body :=
| BodyJson (fields : list (string * string))
| BodyStream (data : list byte).

Record Response := mkResponse {
  res_status : Z;
  res_headers : list (string * string);
  res_body : Body
}.

(** [s.split(sep)] for a separator of one character. *)
Fixpoint split_on (sep : ascii) (s : string) : list string :=
  match s with
  | EmptyString => [EmptyString]
  | String c rest =>
      if Ascii.eqb c sep then EmptyString :: split_on sep rest
      else match split_on sep rest with
           | first :: others => String c first :: others
           | [] => [String c EmptyString]
           end
  end.

(** [s.toLowerCase()] on code units below U+0100. *)
Definition to_lower (c : ascii) : ascii :=
  let n := N_of_ascii c in
  if ((65 <=? n) && (n <=? 90) || (192 <=? n) && (n <=? 222) && negb (n =? 215))%N
  then ascii_of_N (n + 32) else c.

Fixpoint toLowerCase (s : string) : string :=
  match s with
  | EmptyString => EmptyString
  | String c rest => String (to_lower c) (toLowerCase rest)
  end.

(** Whether [rest], the text after a [;], goes on with [\s*charset\s*=]. *)
Definition charset_follows (rest : string) : bool :=
  let s1 := JsString.trimStart rest in
  JsString.startsWith s1 "charset"
  && JsString.startsWith (JsString.trimStart (String.substring 7 (String.length s1) s1)) "=".

(** Express's [charsetRegExp.test(v)], the pattern being [/;\s*charset\s*=/]. *)
Fixpoint has_charset (v : string) : bool :=
  match v with
  | EmptyString => false
  | String c rest => Ascii.eqb c ";" && charset_follows rest || has_charset rest
  end.

(** [mime.charsets.lookup(type)] of the mime package Express 4 loads: the
    pattern is [/^text\/|^application\/(javascript|json)/]. *)
Definition mime_charset (type : string) : option string :=
  if JsString.startsWith type "text/"
     || JsString.startsWith type "application/javascript"
     || JsString.startsWith type "application/json"
  then Some "UTF-8" else None.

(** The value [res.set] stores for the field [name]: Express 4 completes a
    Content-Type that names no charset with the charset of its type. *)
Definition header_value (name v : string) : string :=
  if String.eqb (toLowerCase name) "content-type" && negb (has_charset v)
  then match mime_charset (hd EmptyString (split_on ";" v)) with
       | Some charset => v +:+ "; charset=" +:+ toLowerCase charset
       | None => v
       end
  else v.

(** [res.set(name, v)] *)
Definition set_header (name v : string) (headers : list (string * string))
  : list (string * string) :=
  List.filter (fun h => negb (String.eqb (fst h) name)) headers
    ++ [(name, header_value name v)].

(** [res.status(status).json(fields)] on a response holding [headers]. *)
Definition json (status : Z) (headers : list (string * string))
    (fields : list (string * string)) : Response :=
  mkResponse status (set_header "Content-Type" "application/json; charset=utf-8" headers)
             (BodyJson fields).

(** [a || b] where [a] is a string or undefined. *)
Definition or_else (a : option string) (b : string) : string :=
  match a with
  | Some s => if String.eqb s "" then b else s
  | None => b
  end.

(** [file.metadata?.contentType || file.contentType || 'image/jpeg'] *)
Definition resolved_contentType (file : StoredFile) : string :=
  or_else (file_metadata file ≫= meta_contentType)
          (or_else (file_contentType file) "image/jpeg").

Definition double_quote : string := String (ascii_of_N 34) EmptyString.

(** The three [res.set] calls before streaming. *)
Definition image_headers (file : StoredFile) (contentType : string)
  : list (string * string) :=
  set_header "Cache-Control" "public, max-age=31536000"
    (set_header "Content-Disposition"
       ("inline; filename=" +:+ double_quote
          +:+ or_else (file_metadata file ≫= meta_originalName) (file_filename file)
          +:+ double_quote)
       (set_header "Content-Type" contentType [])).

Section Routes.
Context `{ObjectIdDriver}.

(** [router.post('/', authenticate, upload.array('images', 5), ...)] after
    authentication and multer: the service result that [ApiResponse.created]
    wraps. *)
Definition POST_posts (body : gmap string value) (files : optional (list MulterFile))
    (userId : ObjectId) : M Post :=
  uploadedFiles <- uploadMultipleToGridFS files userId ;;
  PostService.createPost body userId (Defined uploadedFiles).

(** What the download stream's 'error' listener answers while no header
    has been sent. *)
Definition stream_error (headers : list (string * string)) : M Response :=
  console_error "Error streaming file:" ;;
  ret (json 500 headers [("error", "Error streaming image")]).

(** [router.get('/image/:filename', ...)] *)
Definition GET_image_filename (filename : string) : M Response :=
  getGridFS ;;
  files <- bucket_find_by_name filename ;;
  match files with
  | [] => ret (json 404 [] [("error", "Image not found")])
  | file :: _ =>
      let contentType := resolved_contentType file in
      let isImage := JsString.startsWith contentType "image/" in
      if isImage then
        let headers := image_headers file contentType in
        try_catch
          (data <- bucket_download_by_name filename ;;
           ret (mkResponse 200 headers (BodyStream data)))
          (fun error => stream_error headers)
      else ret (json 404 [] [("error", "Not an image"); ("contentType", contentType)])
  end.

(** [router.get('/image/id/:id', ...)] *)
Definition GET_image_id (id : string) : M Response :=
  getGridFS ;;
  if negb (ObjectId_isValid id) then ret (json 400 [] [("error", "Invalid file ID")])
  else
    try_catch
      (oid <- ObjectId_construct id ;;
       files <- bucket_find_by_id oid ;;
       match files with
       | [] => ret (json 404 [] [("error", "Image not found")])
       | file :: _ =>
           let contentType := resolved_contentType file in
           let headers := image_headers file contentType in
           oid' <- ObjectId_construct id ;;
           try_catch
             (data <- bucket_download_by_id oid' ;;
              ret (mkResponse 200 headers (BodyStream data)))
             (fun error => stream_error headers)
       end)
      (fun error => ret (json 500 [] [("error", "Error retrieving image")])).

End Routes.

(** ** Reading a run *)

(** The ids of the [gridfsBucket.delete] calls of a trace, in order. *)
Definition bucket_deletes (tr : list Event) : list ObjectId :=
  omap (fun e => match e with EvBucketDelete id => Some id | _ => None end) tr.

(** Deleting [ids] one after the other from [files] until one is missing:
    the ids asked for, the files left, and whether a deletion failed. *)
Fixpoint attempted_deletes (files : list StoredFile) (ids : list ObjectId) : list ObjectId :=
  match ids with
  | [] => []
  | id :: rest =>
      if existsb (file_has_id id) files
      then id :: attempted_deletes (remove_file id files) rest
      else [id]
  end.

Fixpoint files_after_deletes (files : list StoredFile) (ids : list ObjectId)
  : list StoredFile :=
  match ids with
  | [] => files
  | id :: rest =>
      if existsb (file_has_id id) files
      then files_after_deletes (remove_file id files) rest
      else files
  end.

Fixpoint delete_fails (files : list StoredFile) (ids : list ObjectId) : bool :=
  match ids with
  | [] => false
  | id :: rest =>
      if existsb (file_has_id id) files
      then delete_fails (remove_file id files) rest
      else true
  end.

(** What [updatePost] may not touch. *)
Definition frame (p : Post) : ObjectId * ObjectId * list PostImageRef * Z :=
  (post_id p, post_user_id p, post_images p, post_createdAt p).

(** The files [createPost] works with: the default of the parameter is the
    empty array, and [null] adds no image either. *)
Definition uploaded_files (files : optional (list UploadedFile)) : list UploadedFile :=
  match files with
  | Defined files => files
  | Undefined | Null => []
  end.

(** The post [createPost] stores for trimmed texts [title] and [content]. *)
Definition created_post (w : World) (title content : string) (userId : ObjectId)
    (files : optional (list UploadedFile)) : Post :=
  mkPost (w_fresh w (w_fresh_pos w)) title content userId
         (map PostService.imageRef (uploaded_files files)) (w_now w) (w_now w).

(** The posts [Post_find] sorts on [w], in the order it brings them into. *)
Definition listed (filter : option ObjectId) (w : World) : list Post :=
  merge_sort created_desc
    (arrange (w_orders w (S (length (w_trace w))))
       (List.filter (matches filter) (w_posts w))).

(** The page a sorted result list is cut down to: [skip((page - 1) * limit)]
    then [limit(limit)]. *)
Definition page_of {A} (sorted : list A) (page limit : Z) : list A :=
  take (Z.to_nat limit) (drop (Z.to_nat ((page - 1) * limit)) sorted).


(** ** A concrete driver and sample data *)

Definition to_lower_hex (c : ascii) : ascii :=
  let n := N_of_ascii c in
  if ((65 <=? n) && (n <=? 70))%N then ascii_of_N (n + 32) else c.

Fixpoint map_chars (f : ascii -> ascii) (s : string) : string :=
  match s with
  | EmptyString => EmptyString
  | String c rest => String (f c) (map_chars f rest)
  end.

(** The driver's reading of strings as ObjectIds: 24 hexadecimal
    characters, upper or lower case. *)
Definition hex24_isValid (s : string) : bool :=
  (String.length s =? 24)%nat && Node.all_chars Node.is_hex_char (map_chars to_lower_hex s).

Definition hex24_driver : ObjectIdDriver := {|
  ObjectId_isValid := hex24_isValid;
  ObjectId_new := fun s => mkObjectId (map_chars to_lower_hex s)
|}.

Module Sample.

Definition alice : ObjectId := mkObjectId "aaaaaaaaaaaaaaaaaaaaaaaa".
Definition bob : ObjectId := mkObjectId "bbbbbbbbbbbbbbbbbbbbbbbb".
Definition fileA : ObjectId := mkObjectId "0000000000000000000000fa".
Definition fileB : ObjectId := mkObjectId "0000000000000000000000fb".
Definition post1 : string := "111111111111111111111111".
Definition post2 : string := "222222222222222222222222".

Definition imageA : PostImageRef := mkPostImageRef fileA "a.png" "image/png" 3.
Definition imageB : PostImageRef := mkPostImageRef fileB "b.png" "image/png" 2.

Definition storedB : StoredFile :=
  mkStoredFile fileB "b.png" 2 None
    (Some (mkFileMetadata (Some "b.png") (Some alice) (Some 5) (Some "image/png")))
    [x01; x02].

Definition storedPdf : StoredFile :=
  mkStoredFile fileA "report.pdf" 3 None
    (Some (mkFileMetadata (Some "report.pdf") (Some alice) (Some 5)
                          (Some "application/pdf")))
    [x25; x50; x44].

(** Alice's post with two images, written at time 10. *)
Definition twoImages : Post :=
  mkPost (mkObjectId post1) "Hi there" "This is long enough content" alice
         [imageA; imageB] 10 10.

Definition older : Post :=
  mkPost (mkObjectId post2) "Older post" "Something written before" bob [] 7 7.

Definition fresh_ids (n : nat) : ObjectId :=
  mkObjectId (Node.toString_hex (repeat x00 11 ++ [default x00 (Byte.of_nat n)])).

(** An initialised bucket that holds file B but not file A. *)
Definition world : World :=
  mkWorld [older; twoImages] true [storedB]
          20 (fun _ => x00) 0 fresh_ids 0 [] [] (fun _ => []).

(** A request body that passes the checks of [createPost]. *)
Definition body : gmap string value :=
  {["title" := VString "Hi there"; "content" := VString "This is long enough content"]}.

(** The same data before [initGridFS] has run. *)
Definition world_uninitialised : World :=
  mkWorld [older; twoImages] false [storedB]
          20 (fun _ => x00) 0 fresh_ids 0 [] [] (fun _ => []).

Definition world_pdf : World := set_files [storedPdf; storedB] world.

Definition cat : MulterFile := mkMulterFile "cat.png" "image/png" [x89; x50; x4e; x47].

(** Alice creates a post with one image and reads it back, Bob tries to
    delete it, Alice deletes it: the number of image refs read back, what
    Bob's attempt threw, and the message Alice got. *)
Definition create_then_delete : M (nat * option Error * string) :=
  post <- POST_posts body (Defined [cat]) alice ;;
  let postId := toString (post_id post) in
  read <- @PostService.getPostById hex24_driver postId ;;
  refused <- try_catch (@PostService.deletePost hex24_driver postId bob ;; ret None)
               (fun error => ret (Some error)) ;;
  message <- @PostService.deletePost hex24_driver postId alice ;;
  ret (length (post_images read), refused, message).

(** Alice uploads a file and downloads it by the storage name she got. *)
Definition upload_then_download : M Response :=
  uploaded <- uploadToGridFS (buffer cat) cat alice ;;
  GET_image_filename (up_filename uploaded).

End Sample.

(** ** middlewares/validate.js *)

(** The value of [c] as a digit of the radix [radix], if it is one. *)
Definition digit_value (radix : Z) (c : ascii) : option Z :=
  let n := Z.of_N (N_of_ascii c) in
  let d := if (48 <=? n) && (n <=? 57) then n - 48
           else if (97 <=? n) && (n <=? 122) then n - 87
           else if (65 <=? n) && (n <=? 90) then n - 55
           else radix in
  if d <? radix then Some d else None.

(** The longest run of digits of [radix] at the start of [s], read as a
    number after the digits already read; [None] while no digit was read. *)
Fixpoint parse_digits (radix : Z) (s : string) (acc : option Z) : option Z :=
  match s with
  | EmptyString => acc
  | String c rest =>
      match digit_value radix c with
      | Some d => parse_digits radix rest (Some (radix * default 0 acc + d))
      | None => acc
      end
  end.

(** A JavaScript number as far as [parseInt] can return one: NaN, an
    integer that a double holds, or an infinity. Minus zero is [Finite 0]:
    the code only asks whether it is falsy. *)
Inductive Num :=
| NaN
| Finite (z : Z)
| Infinity (negative : bool).

(** The Number value of the integer [z]: the nearest double, a tie going
    to the even mantissa. It is [z] itself as long as [z] has at most 53
    bits, and an infinity from 2^1024 on. *)
Definition to_double (z : Z) : Num :=
  let a := Z.abs z in
  if a <? 2 ^ 53 then Finite z
  else
    let e := Z.log2 a - 52 in
    let q := Z.shiftr a e in
    let r := a - Z.shiftl q e in
    let half := 2 ^ (e - 1) in
    let q' := if (half <? r) || ((r =? half) && Z.odd q) then q + 1 else q in
    let m := Z.shiftl q' e in
    if 2 ^ 1024 <=? m then Infinity (z <? 0) else Finite (Z.sgn z * m).

(** The integer [parseInt(v)] reads, before it is made a Number, for a
    query parameter given once (a string) or not at all ([undefined]):
    leading white space, a sign, the prefix 0x or 0X, then the digits;
    [None] where there is no digit. *)
Definition parse_integer (v : option string) : option Z :=
  match v with
  | None => None
  | Some inputString =>
      let S := JsString.trimStart inputString in
      let sign :=
        match S with
        | String c _ => if Ascii.eqb c "-" then -1 else 1
        | EmptyString => 1
        end in
      let S :=
        match S with
        | String c rest => if Ascii.eqb c "-" || Ascii.eqb c "+" then rest else S
        | EmptyString => S
        end in
      let stripped :=
        match S with
        | String c1 (String c2 rest) =>
            if Ascii.eqb c1 "0" && (Ascii.eqb c2 "x" || Ascii.eqb c2 "X")
            then Some rest else None
        | _ => None
        end in
      match stripped with
      | Some rest => Z.mul sign <$> parse_digits 16 rest None
      | None => Z.mul sign <$> parse_digits 10 S None
      end
  end.

(** [parseInt(v)] without a radix. *)
Definition parseInt (v : option string) : Num :=
  match parse_integer v with
  | Some z => to_double z
  | None => NaN
  end.

(** [n || d] for a number [n]: NaN and zero are falsy. *)
Definition or_number (n : Num) (d : Z) : Num :=
  match n with
  | NaN => Finite d
  | Finite z => if z =? 0 then Finite d else n
  | Infinity _ => n
  end.

(** [n < k] and [n > k] for an integer [k]. *)
Definition num_lt (n : Num) (k : Z) : bool :=
  match n with
  | NaN => false
  | Finite z => z <? k
  | Infinity negative => negative
  end.

Definition num_gt (n : Num) (k : Z) : bool :=
  match n with
  | NaN => false
  | Finite z => z >? k
  | Infinity negative => negb negative
  end.

(** [validatePagination] on [req.query.page] and [req.query.limit]: what
    it stores in [req.pagination] before [next()]. *)
Definition validatePagination (query_page query_limit : option string) : M (Num * Num) :=
  let page := or_number (parseInt query_page) 1 in
  let limit := or_number (parseInt query_limit) 10 in
  if num_lt page 1 then throw (ValidationError "Page must be greater than 0")
  else if num_lt limit 1 || num_gt limit 100
  then throw (ValidationError "Limit must be between 1 and 100")
  else ret (page, limit).

(** A query parameter written in decimal: an optional minus sign and the
    digits [ds], and the integer it denotes. *)
Definition digit_char (d : nat) : ascii := ascii_of_nat (48 + d).

Fixpoint digits_string (ds : list nat) : string :=
  match ds with
  | [] => EmptyString
  | d :: rest => String (digit_char d) (digits_string rest)
  end.

Definition numeral (negative : bool) (ds : list nat) : string :=
  if negative then String "-" (digits_string ds) else digits_string ds.

Definition numeral_value (negative : bool) (ds : list nat) : Z :=
  let v := fold_left (fun acc d => 10 * acc + Z.of_nat d) ds 0 in
  if negative then - v else v.

(** ** middlewares/auth.js and services/authService.js *)

(** Modelled from the spec: [utils/errors] is not among the sources; its
    class [AuthenticationError] is the typed failure of the spec's error
    taxonomy for a bad, missing or expired token (401), carrying the
    constructor's argument. [Failure] is any other error passing through. *)
Inductive AuthFailure :=
| AuthenticationError (message : string)
| Failure (e : Error).

(** What [jwt.verify(token, secret)] does: it returns the payload, of
    which the code reads [_id], or throws an error with a [name]. *)
Inductive JwtVerify :=
| Decoded (_id : option string)
| JwtThrows (name : string).

Section Auth.

(** [jwt.verify(token, process.env.SECRET)] *)
Variable jwt_verify : option string -> JwtVerify.

(** [User.findById(userId).select('-password')]: the user, [null], or a
    rejection. *)
Variable User_findById : option string -> Error + option User.

(** [AuthService.verifyToken] *)
Definition verifyToken (token : option string) : AuthFailure + option string :=
  match jwt_verify token with
  | Decoded _id => inr _id
  | JwtThrows name =>
      if String.eqb name "TokenExpiredError"
      then inl (AuthenticationError "Token has expired")
      else if String.eqb name "JsonWebTokenError"
      then inl (AuthenticationError "Invalid token")
      else inl (AuthenticationError "Token verification failed")
  end.

(** [AuthService.getUserById] *)
Definition getUserById (userId : option string) : AuthFailure + User :=
  match User_findById userId with
  | inl e => inl (Failure e)
  | inr None => inl (AuthenticationError "User not found")
  | inr (Some user) => inr user
  end.

(** [authenticate] on [req.headers.authorization]: the failure handed to
    the error handler, or what it stores in [req.user] before [next()]. *)
Definition authenticate (authHeader : option string) : AuthFailure + User :=
  let no_token :=
    inl (AuthenticationError
           "No token provided. Please include Bearer token in Authorization header") in
  match authHeader with
  | None => no_token
  | Some header =>
      if String.eqb header "" || negb (JsString.startsWith header "Bearer ")
      then no_token
      else
        let token := split_on " " header !! 1%nat in
        let falsy := match token with
                     | None => true
                     | Some t => String.eqb t ""
                     end in
        if falsy then inl (AuthenticationError "Invalid token format")
        else
          match verifyToken token with
          | inl failure => inl failure
          | inr decoded =>
              match getUserById decoded with
              | inl failure => inl failure
              | inr user => inr (mkUser (user_id user) (user_email user))
              end
          end
  end.

(** [optionalAuth]: it always goes on to [next()]; this is [req.user]
    afterwards, [user] being what it held before. *)
Definition optionalAuth (authHeader : option string) (user : optional User)
  : optional User :=
  match authHeader with
  | None => user
  | Some header =>
      if negb (String.eqb header "") && JsString.startsWith header "Bearer "
      then
        let token := split_on " " header !! 1%nat in
        match verifyToken token with
        | inl _ => Null
        | inr decoded =>
            match getUserById decoded with
            | inl _ => Null
            | inr found => Defined (mkUser (user_id found) (user_email found))
            end
        end
      else user
  end.

End Auth.

(** A string without a space. *)
Definition spaceless (s : string) : bool :=
  Node.all_chars (fun c => negb (Ascii.eqb c " ")) s.

(** ** middlewares/security.js *)

(** What the rate limiter does with a request: [next()], or the 429
    answer with its [retryAfter]. *)
Inductive Verdict :=
| Next
| TooManyRequests (retryAfter : Z).

Section RateLimiter.

(** [RATE_LIMIT.WINDOW_MS] of config/constants. *)
Variable WINDOW_MS : Z.

(** The middleware [createRateLimiter(maxRequests)] returns, on the key
    [req.ip || req.connection.remoteAddress] and the value of [Date.now()];
    [requests] is the Map of the closure. *)
Definition rateLimiter (maxRequests : Z) (ip : string) (now : Z)
    (requests : gmap string (list Z)) : Verdict * gmap string (list Z) :=
  let windowStart := now - WINDOW_MS in
  let requests :=
    if bool_decide (is_Some (requests !! ip)) then requests else <[ip := []]> requests in
  let requestLog := default [] (requests !! ip) in
  let recentRequests := List.filter (fun timestamp => windowStart <? timestamp) requestLog in
  let requests := <[ip := recentRequests]> requests in
  if maxRequests <=? Z.of_nat (length recentRequests)
  then (TooManyRequests (Math_ceil_div WINDOW_MS 1000), requests)
  else (Next, <[ip := recentRequests ++ [now]]> requests).

(** A limiter created with an empty Map serving the requests [reqs] (key
    and time of arrival) one after the other: its Map afterwards, and the
    requests it let through, in order. *)
Definition served (maxRequests : Z) (reqs : list (string * Z))
  : gmap string (list Z) * list (string * Z) :=
  fold_left
    (fun s r =>
       let out := rateLimiter maxRequests (fst r) (snd r) (fst s) in
       (snd out, match fst out with Next => snd s ++ [r] | TooManyRequests _ => snd s end))
    reqs (∅, []).

End RateLimiter.

(** A request of [ip] that arrived after [lo]. *)
Definition since (ip : string) (lo : Z) (r : string * Z) : bool :=
  String.eqb (fst r) ip && (lo <? snd r).

(** A request of [ip] that arrived after [lo] and not after [hi]. *)
Definition in_window (ip : string) (lo hi : Z) (r : string * Z) : bool :=
  since ip lo r && (snd r <=? hi).

(** ** Reading more runs *)

(** The value a string field has after a patch: the trimmed string of the
    patch where it holds one, the stored value otherwise. *)
Definition patched (v : value) (stored : string) : string :=
  match v with
  | VString s => JsString.trim s
  | _ => stored
  end.

(** A patch value that [updatePost] lets through: the field is left out,
    or it is a string of at least [min] characters once trimmed. *)
Definition acceptable (v : value) (min : nat) : Prop :=
  v = VUndefined \/ exists s, v = VString s /\ (min <= String.length (JsString.trim s))%nat.

(** The posts of a listing, none when it threw. *)
Definition posts_of {A} (o : Outcome (PostsPage A)) : list A :=
  match o with
  | Return r => page_posts r
  | Throw _ => []
  end.

(** The lines written with [console.error], in order. *)
Definition console_errors (tr : list Event) : list string :=
  omap (fun e => match e with EvConsoleError line => Some line | _ => None end) tr.

(** A batch of uploads started in [w]: the [i]-th upload draws the [i]-th
    id and the [i]-th group of 16 random bytes after those already drawn. *)
Definition batch_id (w : World) (i : nat) : ObjectId := w_fresh w (w_fresh_pos w + i)%nat.

Definition batch_name (w : World) (i : nat) (file : MulterFile) : string :=
  Node.toString_hex (map (w_entropy w) (seq (w_entropy_pos w + 16 * i) 16))
    +:+ Node.extname (originalname file).

(** What the [i]-th upload resolves to when its stream finishes. *)
Definition batch_record (w : World) (i : nat) (file : MulterFile) : UploadedFile :=
  mkUploadedFile (batch_id w i) (batch_name w i file) (mimetype file)
                 (Z.of_nat (length (buffer file))).

(** The file the [i]-th upload leaves in the bucket when its stream finishes. *)
Definition batch_file (w : World) (userId : ObjectId) (i : nat) (file : MulterFile)
  : StoredFile :=
  mkStoredFile (batch_id w i) (batch_name w i file) (Z.of_nat (length (buffer file))) None
    (Some (mkFileMetadata (Some (originalname file)) (Some userId) (Some (w_now w))
                          (Some (mimetype file))))
    (buffer file).

(** Whether one of the next [n] upload streams ends in an 'error' event. *)
Definition faulty (w : World) (n : nat) : bool := existsb id (take n (w_faults w)).

(** The files a batch leaves in the bucket: those whose stream finishes. *)
Definition batch_stored (w : World) (userId : ObjectId) (files : list MulterFile)
  : list StoredFile :=
  concat (imap (fun i file => if default false (w_faults w !! i) then []
                              else [batch_file w userId i file]) files).

(** The stream opened for the [i]-th upload of a batch, and the promise of
    that upload once every upload of the batch was started. *)
Definition batch_stream (w : World) (userId : ObjectId) (i : nat) (file : MulterFile)
  : UploadStream :=
  mkUploadStream (batch_id w i) (batch_name w i file)
    (mkFileMetadata (Some (originalname file)) (Some userId) (Some (w_now w))
                    (Some (mimetype file)))
    (default false (w_faults w !! i)).

Definition batch_promise (w : World) (userId : ObjectId) (i : nat) (file : MulterFile)
  : M UploadedFile :=
  bucket_stream_end (batch_stream w userId i file) (buffer file) ;;
  ret (batch_record w i file).

(** What the [i]-th upload of a batch settles with, and the files it adds
    to the bucket when it does. *)
Definition batch_outcome (w : World) (files : list MulterFile) (i : nat)
  : Outcome UploadedFile :=
  match files !! i with
  | Some file =>
      if default false (w_faults w !! i) then Throw (MongoError "upload stream error")
      else Return (batch_record w i file)
  | None => Throw (MongoError "upload stream error")
  end.

Definition batch_adds (w : World) (userId : ObjectId) (files : list MulterFile) (i : nat)
  : list StoredFile :=
  match files !! i with
  | Some file =>
      if default false (w_faults w !! i) then [] else [batch_file w userId i file]
  | None => []
  end.

Definition batch_effect (w : World) (userId : ObjectId) (files : list MulterFile) (i : nat)
    (w' : World) : World :=
  match batch_adds w userId files i with
  | [] => w'
  | added => set_files (w_files w' ++ added) w'
  end.


(** ** More sample data *)

Module Tour.

Definition storedA : StoredFile :=
  mkStoredFile Sample.fileA "a.png" 3 None
    (Some (mkFileMetadata (Some "a.png") (Some Sample.alice) (Some 5) (Some "image/png")))
    [x01; x02; x03].

(** The bucket holds both images of Alice's post. *)
Definition world_full : World := set_files [storedA; Sample.storedB] Sample.world.

(** The second of the next upload streams will fail. *)
Definition world_faulty : World := set_faults [false; true] Sample.world.

(** Of promises started together the second settles first, and of the
    documents a query matches the second reaches the sort first. *)
Definition world_racing : World :=
  mkWorld [Sample.older; Sample.twoImages] true [Sample.storedB]
          20 (fun _ => x00) 0 Sample.fresh_ids 0 [] [] (fun _ => [1%nat]).

Definition dog : MulterFile := mkMulterFile "dog.jpeg" "image/jpeg" [xff; xd8].

Definition unknown : string := "333333333333333333333333".

Definition retitled : gmap string value := {["title" := VString "  New title  "]}.

(** Requests reaching a rate limiter: key and time of arrival. *)
Definition requests : list (string * Z) :=
  [("10.0.0.1", 0); ("10.0.0.1", 10); ("10.0.0.2", 20); ("10.0.0.1", 30)].

(** A token verifier that knows one good token, of Alice, and one expired. *)
Definition jwt (token : option string) : JwtVerify :=
  match token with
  | Some t =>
      if String.eqb t "good" then Decoded (Some "aaaaaaaaaaaaaaaaaaaaaaaa")
      else if String.eqb t "old" then JwtThrows "TokenExpiredError"
      else JwtThrows "JsonWebTokenError"
  | None => JwtThrows "JsonWebTokenError"
  end.

Definition users (userId : option string) : Error + option User :=
  match userId with
  | Some s =>
      if String.eqb s "aaaaaaaaaaaaaaaaaaaaaaaa"
      then inr (Some (mkUser Sample.alice "alice@example.com"))
      else inr None
  | None => inr None
  end.

End Tour.

(** * Properties *)

Example trim_example : JsString.trim "  Hi there  " = "Hi there".
Proof. reflexivity. Qed.

Example extname_examples :
  Node.extname "photo.png" = ".png" /\ Node.extname "archive.tar.gz" = ".gz" /\
  Node.extname "README" = "" /\ Node.extname ".bashrc" = "" /\
  Node.extname "dir.d/file" = "" /\ Node.extname "a." = "." /\
  Node.extname ".." = "" /\ Node.extname "x.png/" = ".png".
Proof. repeat split; reflexivity. Qed.

(** ** Running computations *)

Lemma bind_Return {A B} (m : M A) (k : A -> M B) w a w1 :
  m w = (Return a, w1) -> bind m k w = k a w1.
Proof. intros E. unfold bind. rewrite E. reflexivity. Qed.

Lemma bind_Throw {A B} (m : M A) (k : A -> M B) w e w1 :
  m w = (Throw e, w1) -> bind m k w = (Throw e, w1).
Proof. intros E. unfold bind. rewrite E. reflexivity. Qed.

Lemma try_catch_Return {A} (m : M A) handler w a w1 :
  m w = (Return a, w1) -> try_catch m handler w = (Return a, w1).
Proof. intros E. unfold try_catch. rewrite E. reflexivity. Qed.

Lemma try_catch_Throw {A} (m : M A) handler w e w1 :
  m w = (Throw e, w1) -> try_catch m handler w = handler e w1.
Proof. intros E. unfold try_catch. rewrite E. reflexivity. Qed.

Lemma Promise_all2_Return {A B} (m1 : M A) (m2 : M B) w a w1 b w2 :
  m1 w = (Return a, w1) -> m2 w1 = (Return b, w2) ->
  Promise_all2 m1 m2 w = (Return (a, b), w2).
Proof. intros E1 E2. unfold Promise_all2. rewrite E1, E2. reflexivity. Qed.

Lemma getGridFS_ready w :
  w_gridfs_ready w = true -> getGridFS w = (Return tt, w).
Proof. intros R. unfold getGridFS, bind, get_world. rewrite R. reflexivity. Qed.

Lemma getGridFS_not_ready w :
  w_gridfs_ready w = false ->
  getGridFS w = (Throw (GenericError "GridFS not initialized. Call initGridFS() first."), w).
Proof. intros R. unfold getGridFS, bind, get_world. rewrite R. reflexivity. Qed.

Lemma bucket_deletes_app a b :
  bucket_deletes (a ++ b) = bucket_deletes a ++ bucket_deletes b.
Proof. apply omap_app. Qed.

Section Guards.
Context `{ObjectIdDriver}.

Lemma validateObjectId_invalid id w :
  ObjectId_isValid id = false ->
  PostService.validateObjectId id w = (Throw (ValidationError "Invalid post ID format"), w).
Proof. intros E. unfold PostService.validateObjectId. rewrite E. reflexivity. Qed.

Lemma validateObjectId_valid id w :
  ObjectId_isValid id = true ->
  PostService.validateObjectId id w = (Return tt, w).
Proof. intros E. unfold PostService.validateObjectId. rewrite E. reflexivity. Qed.

Lemma Post_findById_valid id w :
  ObjectId_isValid id = true ->
  Post_findById id w =
    (Return (find_post (ObjectId_new id) (w_posts w)),
     set_trace (w_trace w ++ [EvPostFindById (ObjectId_new id)]) w).
Proof. intros E. unfold Post_findById, ObjectId_cast, bind. rewrite E. reflexivity. Qed.

Lemma owner_check_ne a b : a <> b -> String.eqb (toString a) (toString b) = false.
Proof.
  intros Hne. apply String.eqb_neq. intros E. apply Hne.
  destruct a, b. simpl in E. congruence.
Qed.

Lemma owner_check_eq a : String.eqb (toString a) (toString a) = true.
Proof. apply String.eqb_refl. Qed.

(** The two owner-checked operations up to the ownership test. *)
Lemma updatePost_checked w postId post userId updateData :
  ObjectId_isValid postId = true ->
  find_post (ObjectId_new postId) (w_posts w) = Some post ->
  PostService.updatePost postId updateData userId w =
    (if negb (String.eqb (toString (post_user_id post)) (toString userId))
     then throw (AuthorizationError "You can only update your own posts")
     else
       PostService.check_min_length (prop updateData "title") 3
         "Title must be at least 3 characters long" ;;
       PostService.check_min_length (prop updateData "content") 10
         "Content must be at least 10 characters long" ;;
       updates <- PostService.collect_updates PostService.allowedUpdates updateData ∅ ;;
       Post_findByIdAndUpdate postId updates)
      (set_trace (w_trace w ++ [EvPostFindById (ObjectId_new postId)]) w).
Proof.
  intros V F. unfold PostService.updatePost.
  rewrite (bind_Return _ _ _ _ _ (validateObjectId_valid _ _ V)).
  rewrite (bind_Return _ _ _ _ _ (Post_findById_valid _ _ V)).
  rewrite F. reflexivity.
Qed.

Lemma deletePost_checked w postId post userId :
  ObjectId_isValid postId = true ->
  find_post (ObjectId_new postId) (w_posts w) = Some post ->
  PostService.deletePost postId userId w =
    (if negb (String.eqb (toString (post_user_id post)) (toString userId))
     then throw (AuthorizationError "You can only delete your own posts")
     else
       (if (0 <? length (post_images post))%nat
        then try_catch (PostService.delete_images (post_images post))
               (fun error => console_error "Error deleting images from GridFS:")
        else ret tt) ;;
       Post_findByIdAndDelete postId ;;
       ret "Post deleted successfully")
      (set_trace (w_trace w ++ [EvPostFindById (ObjectId_new postId)]) w).
Proof.
  intros V F. unfold PostService.deletePost.
  rewrite (bind_Return _ _ _ _ _ (validateObjectId_valid _ _ V)).
  rewrite (bind_Return _ _ _ _ _ (Post_findById_valid _ _ V)).
  rewrite F. reflexivity.
Qed.

(** ** Ownership *)

(** C3: on an existing post, a requester who is not the stored owner gets
    an AuthorizationError from [updatePost], whatever the payload, and from
    [deletePost]; the only trace of the call is the lookup of the post, so
    the posts and the stored files are as before. *)
Theorem non_owner_is_refused w postId post userId updateData :
  ObjectId_isValid postId = true ->
  find_post (ObjectId_new postId) (w_posts w) = Some post ->
  userId <> post_user_id post ->
  let w' := set_trace (w_trace w ++ [EvPostFindById (ObjectId_new postId)]) w in
  PostService.updatePost postId updateData userId w =
    (Throw (AuthorizationError "You can only update your own posts"), w') /\
  PostService.deletePost postId userId w =
    (Throw (AuthorizationError "You can only delete your own posts"), w') /\
  w_posts w' = w_posts w /\ w_files w' = w_files w.
Proof.
  intros V F O w'.
  assert (Hc : String.eqb (toString (post_user_id post)) (toString userId) = false)
    by (apply owner_check_ne; congruence).
  repeat split.
  - rewrite (updatePost_checked _ _ _ _ _ V F), Hc. reflexivity.
  - rewrite (deletePost_checked _ _ _ _ V F), Hc. reflexivity.
Qed.

End Guards.

(** ** The deletion cascade *)

Section Cascade.
Context `{ObjectIdDriver}.

Lemma delete_one_found image w :
  existsb (file_has_id (img_fileId image)) (w_files w) = true ->
  PostService.delete_one image w =
    (Return tt,
     set_trace ((w_trace w ++ [EvBucketDelete (img_fileId image)])
                  ++ [EvConsoleLog ("Deleted image file: " +:+ img_filename image)])
       (set_files (remove_file (img_fileId image) (w_files w)) w)).
Proof.
  intros E. unfold PostService.delete_one, bucket_delete, console_log, emit, bind.
  simpl. rewrite E. reflexivity.
Qed.

Lemma delete_one_missing image w :
  existsb (file_has_id (img_fileId image)) (w_files w) = false ->
  PostService.delete_one image w =
    (Throw (MongoError "File not found for id"),
     set_trace (w_trace w ++ [EvBucketDelete (img_fileId image)]) w).
Proof.
  intros E. unfold PostService.delete_one, bucket_delete, console_log, emit, bind.
  simpl. rewrite E. reflexivity.
Qed.

(** The loop stops at the first deletion that throws. *)
Lemma delete_loop imgs : forall w,
  let r := for_of imgs PostService.delete_one w in
  fst r = (if delete_fails (w_files w) (map img_fileId imgs)
           then Throw (MongoError "File not found for id") else Return tt) /\
  w_posts (snd r) = w_posts w /\
  w_files (snd r) = files_after_deletes (w_files w) (map img_fileId imgs) /\
  bucket_deletes (w_trace (snd r)) =
    bucket_deletes (w_trace w) ++ attempted_deletes (w_files w) (map img_fileId imgs).
Proof.
  induction imgs as [|i imgs IH]; intros w; cbn zeta.
  - simpl. rewrite app_nil_r. done.
  - cbn [for_of map attempted_deletes files_after_deletes delete_fails].
    destruct (existsb (file_has_id (img_fileId i)) (w_files w)) eqn:E.
    + rewrite (bind_Return _ _ _ _ _ (delete_one_found i w E)).
      destruct (IH (set_trace ((w_trace w ++ [EvBucketDelete (img_fileId i)])
                  ++ [EvConsoleLog ("Deleted image file: " +:+ img_filename i)])
       (set_files (remove_file (img_fileId i) (w_files w)) w))) as (IH0 & IH1 & IH2 & IH3).
      rewrite IH0, IH1, IH2, IH3. simpl. rewrite !bucket_deletes_app. simpl.
      rewrite app_nil_r, <- app_assoc. done.
    + rewrite (bind_Throw _ _ _ _ _ (delete_one_missing i w E)). simpl.
      rewrite bucket_deletes_app. done.
Qed.

Lemma attempted_deletes_prefix ids : forall files,
  attempted_deletes files ids `prefix_of` ids.
Proof.
  induction ids as [|id ids IH]; intros files; simpl.
  - done.
  - destruct (existsb _ _).
    + apply prefix_cons, IH.
    + exists ids. done.
Qed.

(** When no deletion fails every image was asked for. *)
Lemma attempted_deletes_all ids : forall files,
  delete_fails files ids = false -> attempted_deletes files ids = ids.
Proof.
  induction ids as [|id ids IH]; intros files; simpl; [done|].
  destruct (existsb _ _); [|done]. intros E. by rewrite IH.
Qed.

(** When one fails it is the last one asked for, and with refs left over
    the run is shorter than the list. *)
Lemma attempted_deletes_stop ids : forall files,
  delete_fails files ids = true ->
  exists before failed later,
    ids = before ++ failed :: later /\
    attempted_deletes files ids = before ++ [failed] /\
    existsb (file_has_id failed) (files_after_deletes files ids) = false.
Proof.
  induction ids as [|id ids IH]; intros files; simpl; [done|].
  destruct (existsb (file_has_id id) files) eqn:E.
  - intros F. destruct (IH _ F) as (b & f & l & -> & E2 & E3).
    exists (id :: b), f, l. simpl. rewrite E2. done.
  - intros _. exists [], id, ids. done.
Qed.

(** The [try] block with its [catch]: it never throws, and it leaves the
    posts alone. *)
Lemma delete_images_caught imgs w :
  let r := try_catch (PostService.delete_images imgs)
             (fun error => console_error "Error deleting images from GridFS:") w in
  let ids := map img_fileId imgs in
  fst r = Return tt /\
  w_posts (snd r) = w_posts w /\
  w_files (snd r) =
    (if w_gridfs_ready w then files_after_deletes (w_files w) ids else w_files w) /\
  bucket_deletes (w_trace (snd r)) =
    bucket_deletes (w_trace w) ++
    (if w_gridfs_ready w then attempted_deletes (w_files w) ids else []) /\
  (w_gridfs_ready w = false \/ delete_fails (w_files w) ids = true ->
   EvConsoleError "Error deleting images from GridFS:" ∈ w_trace (snd r)).
Proof.
  cbn zeta.
  destruct (w_gridfs_ready w) eqn:R.
  - destruct (delete_loop imgs w) as (L0 & L1 & L2 & L3).
    destruct (for_of imgs PostService.delete_one w) as [[[]|e] w1] eqn:E;
      simpl in L0, L1, L2, L3.
    + rewrite (try_catch_Return _ _ w tt w1).
      2:{ unfold PostService.delete_images.
          rewrite (bind_Return _ _ _ _ _ (getGridFS_ready w R)). exact E. }
      split_and!; try done. intros [?|F]; [done|]. rewrite F in L0. done.
    + rewrite (try_catch_Throw _ _ w e w1).
      2:{ unfold PostService.delete_images.
          rewrite (bind_Return _ _ _ _ _ (getGridFS_ready w R)). exact E. }
      simpl. rewrite bucket_deletes_app. simpl. rewrite app_nil_r.
      split_and!; try done. intros _. set_solver.
  - rewrite (try_catch_Throw _ _ w
               (GenericError "GridFS not initialized. Call initGridFS() first.") w).
    2:{ unfold PostService.delete_images.
        apply bind_Throw. apply (getGridFS_not_ready w R). }
    simpl. rewrite bucket_deletes_app. simpl.
    split_and!; try done. intros _. set_solver.
Qed.

Lemma Post_findByIdAndDelete_valid postId w :
  ObjectId_isValid postId = true ->
  Post_findByIdAndDelete postId w =
    (Return (find_post (ObjectId_new postId) (w_posts w)),
     set_posts (remove_first (ObjectId_new postId) (w_posts w))
       (set_trace (w_trace w ++ [EvPostDelete (ObjectId_new postId)]) w)).
Proof.
  intros V. unfold Post_findByIdAndDelete, ObjectId_cast, bind. rewrite V. reflexivity.
Qed.

Lemma deletePost_tail postId w :
  ObjectId_isValid postId = true ->
  (Post_findByIdAndDelete postId ;; ret "Post deleted successfully") w =
    (Return "Post deleted successfully",
     set_posts (remove_first (ObjectId_new postId) (w_posts w))
       (set_trace (w_trace w ++ [EvPostDelete (ObjectId_new postId)]) w)).
Proof.
  intros V. rewrite (bind_Return _ _ _ _ _ (Post_findByIdAndDelete_valid _ _ V)).
  reflexivity.
Qed.

(** C1, as the code has it: the owner's [deletePost] on an existing post
    asks the bucket to delete the images in order, up to and including the
    first deletion that throws (none when GridFS is not initialised); that
    error is caught and logged, the images after it are not asked for, and
    the post record is removed in every case. *)
Theorem deletePost_cascade w postId post userId :
  ObjectId_isValid postId = true ->
  find_post (ObjectId_new postId) (w_posts w) = Some post ->
  post_user_id post = userId ->
  let r := PostService.deletePost postId userId w in
  let ids := map img_fileId (post_images post) in
  fst r = Return "Post deleted successfully" /\
  w_posts (snd r) = remove_first (ObjectId_new postId) (w_posts w) /\
  bucket_deletes (w_trace (snd r)) =
    bucket_deletes (w_trace w) ++
    (if w_gridfs_ready w then attempted_deletes (w_files w) ids else []) /\
  attempted_deletes (w_files w) ids `prefix_of` ids /\
  (delete_fails (w_files w) ids = false -> attempted_deletes (w_files w) ids = ids) /\
  (delete_fails (w_files w) ids = true ->
   exists before failed later,
     ids = before ++ failed :: later /\
     attempted_deletes (w_files w) ids = before ++ [failed] /\
     existsb (file_has_id failed) (files_after_deletes (w_files w) ids) = false) /\
  w_files (snd r) =
    (if w_gridfs_ready w then files_after_deletes (w_files w) ids else w_files w) /\
  (post_images post <> [] ->
   w_gridfs_ready w = false \/ delete_fails (w_files w) ids = true ->
   EvConsoleError "Error deleting images from GridFS:" ∈ w_trace (snd r)).
Proof.
  intros V F O. cbn zeta.
  rewrite (deletePost_checked _ _ _ _ V F). subst userId. rewrite owner_check_eq.
  cbn [negb].
  remember (set_trace (w_trace w ++ [EvPostFindById (ObjectId_new postId)]) w)
    as w0 eqn:W0.
  assert (T0 : bucket_deletes (w_trace w0) = bucket_deletes (w_trace w))
    by (subst w0; simpl; rewrite bucket_deletes_app; simpl; apply app_nil_r).
  assert (P0 : w_posts w0 = w_posts w) by (subst w0; reflexivity).
  assert (F0 : w_files w0 = w_files w) by (subst w0; reflexivity).
  assert (R0 : w_gridfs_ready w0 = w_gridfs_ready w) by (subst w0; reflexivity).
  clear W0.
  destruct (post_images post) as [|i imgs] eqn:I.
  - cbn [length Nat.ltb Nat.leb map attempted_deletes files_after_deletes].
    rewrite (bind_Return _ _ w0 tt w0) by reflexivity.
    rewrite (deletePost_tail _ _ V).
    simpl. rewrite bucket_deletes_app, T0, P0, F0. simpl.
    split_and!; try done.
    + by destruct (w_gridfs_ready w); rewrite !app_nil_r.
    + by destruct (w_gridfs_ready w).
  - change (0 <? length (i :: imgs))%nat with true. cbv iota.
    destruct (delete_images_caught (i :: imgs) w0) as (D0 & D1 & D2 & D3 & D4).
    destruct (try_catch (PostService.delete_images (i :: imgs)) _ w0) as [o w1] eqn:E.
    world_simpl. subst o.
    rewrite (bind_Return _ _ _ _ _ E).
    rewrite (deletePost_tail _ _ V).
    world_simpl. rewrite bucket_deletes_app, D3, T0, D1, D2, P0, F0, R0.
    cbn [bucket_deletes omap]. rewrite app_nil_r.
    rewrite F0, R0 in D4.
    split_and!; try done.
    + apply attempted_deletes_prefix.
    + apply attempted_deletes_all.
    + apply attempted_deletes_stop.
    + intros _ C. apply elem_of_app. left. apply D4. exact C.
Qed.

End Cascade.

(** ** Malformed identifiers *)

Section Identifiers.
Context `{ObjectIdDriver}.

(** C8, as the code has it: a malformed id makes [getPostById],
    [updatePost] and [deletePost] throw a ValidationError, and makes the
    download-by-id handler answer 400 once [getGridFS] has let it pass;
    the world, its trace of store operations included, is left as it was. *)
Theorem malformed_id_is_rejected id w updateData userId :
  ObjectId_isValid id = false ->
  PostService.getPostById id w =
    (Throw (ValidationError "Invalid post ID format"), w) /\
  PostService.updatePost id updateData userId w =
    (Throw (ValidationError "Invalid post ID format"), w) /\
  PostService.deletePost id userId w =
    (Throw (ValidationError "Invalid post ID format"), w) /\
  (w_gridfs_ready w = true ->
   GET_image_id id w = (Return (json 400 [] [("error", "Invalid file ID")]), w)).
Proof.
  intros E. split_and!.
  - unfold PostService.getPostById.
    apply bind_Throw, validateObjectId_invalid, E.
  - unfold PostService.updatePost.
    apply bind_Throw, validateObjectId_invalid, E.
  - unfold PostService.deletePost.
    apply bind_Throw, validateObjectId_invalid, E.
  - intros R. unfold GET_image_id.
    rewrite (bind_Return _ _ _ _ _ (getGridFS_ready w R)). rewrite E. reflexivity.
Qed.

End Identifiers.

(** ** The image downloads *)

Section Downloads.
Context `{ObjectIdDriver}.




End Downloads.

(** ** Updating a post *)

Section Update.
Context `{ObjectIdDriver}.

Lemma js_trim_world v w : snd (js_trim v w) = w.
Proof. by destruct v. Qed.

Lemma js_trim_string s w : js_trim (VString s) w = (Return (JsString.trim s), w).
Proof. reflexivity. Qed.

Lemma js_trim_throws v w e :
  fst (js_trim v w) = Throw e -> exists m, e = TypeError m.
Proof. destruct v; simpl; intros E; inversion E; eauto. Qed.

Lemma check_min_length_world v min message w :
  snd (PostService.check_min_length v min message w) = w.
Proof.
  unfold PostService.check_min_length. destruct (truthy v); [|done].
  unfold bind. pose proof (js_trim_world v w) as T.
  destruct (js_trim v w) as [[s|e] w1]; simpl in T; subst w1; [|done].
  by destruct (_ <? _)%nat.
Qed.

(** A value that is not truthy is not looked at. *)
Lemma check_min_length_skip v min message w :
  truthy v = false -> PostService.check_min_length v min message w = (Return tt, w).
Proof. intros E. unfold PostService.check_min_length. by rewrite E. Qed.

Lemma check_min_length_short s min message w :
  s <> "" -> (String.length (JsString.trim s) < min)%nat ->
  PostService.check_min_length (VString s) min message w =
    (Throw (ValidationError message), w).
Proof.
  intros Hne Hlt. unfold PostService.check_min_length. cbn [truthy].
  apply String.eqb_neq in Hne. rewrite Hne. cbn [negb].
  rewrite (bind_Return _ _ _ _ _ (js_trim_string s w)).
  apply Nat.ltb_lt in Hlt. by rewrite Hlt.
Qed.

(** On a string the check passes or throws its own ValidationError. *)
Lemma check_min_length_string s min message w :
  PostService.check_min_length (VString s) min message w = (Return tt, w) \/
  PostService.check_min_length (VString s) min message w =
    (Throw (ValidationError message), w).
Proof.
  unfold PostService.check_min_length. cbn [truthy].
  destruct (negb _); [|by left].
  rewrite (bind_Return _ _ _ _ _ (js_trim_string s w)).
  destruct (_ <? _)%nat; [by right | by left].
Qed.

Lemma check_min_length_throws v min message w e :
  fst (PostService.check_min_length v min message w) = Throw e ->
  (e = ValidationError message /\ truthy v = true) \/ exists m, e = TypeError m.
Proof.
  unfold PostService.check_min_length. destruct (truthy v) eqn:T; [|done].
  unfold bind. pose proof (js_trim_throws v w) as J.
  destruct (js_trim v w) as [[s|e'] w1]; simpl in *.
  - destruct (_ <? _)%nat; simpl; [|done]. intros E. inversion E. by left.
  - intros E. inversion E; subst. right. by apply J.
Qed.

Lemma js_trim_returns v w s' w1 :
  js_trim v w = (Return s', w1) -> exists s, v = VString s /\ s' = JsString.trim s.
Proof. destruct v; simpl; intros E; inversion E; eauto. Qed.

(** The allow-list loop is pure; it only binds the fields it walks over,
    only those the patch defines, and binds each to the trimmed string of
    the patch. *)
Lemma collect_updates_spec updateData fields : forall updates w,
  let r := PostService.collect_updates fields updateData updates w in
  snd r = w /\
  (forall e, fst r = Throw e -> exists m, e = TypeError m) /\
  (forall updates', fst r = Return updates' ->
     forall k,
       (k ∉ fields -> updates' !! k = updates !! k) /\
       (is_defined (prop updateData k) = false -> updates' !! k = updates !! k) /\
       (updates' !! k = updates !! k \/
        exists s, prop updateData k = VString s /\
                  updates' !! k = Some (PString (JsString.trim s))) /\
       (k ∈ fields -> is_defined (prop updateData k) = true ->
        exists s, prop updateData k = VString s /\
                  updates' !! k = Some (PString (JsString.trim s)))).
Proof.
  induction fields as [|f fields IH]; intros updates w; cbn zeta.
  - simpl. split_and!; [done|done|]. intros u' E. inversion E; subst.
    intros k; split_and!; [done|done|by left|]. intros Hin. by apply elem_of_nil in Hin.
  - cbn [PostService.collect_updates].
    destruct (is_defined (prop updateData f)) eqn:D.
    + unfold bind. pose proof (js_trim_world (prop updateData f) w) as TW.
      pose proof (js_trim_throws (prop updateData f) w) as TT.
      pose proof (js_trim_returns (prop updateData f) w) as TR.
      destruct (js_trim (prop updateData f) w) as [[s|e'] w1]; simpl in TW, TT; subst w1.
      * destruct (TR s w eq_refl) as (s0 & P0 & ->).
        destruct (IH (<[f:=PString (JsString.trim s0)]> updates) w) as (I1 & I2 & I3).
        split_and!; [done|done|].
        intros u' E k. destruct (I3 u' E k) as (K1 & K2 & K3 & K4).
        destruct (decide (k = f)) as [->|Hne].
        -- assert (Kf : exists s, prop updateData f = VString s /\
                                  u' !! f = Some (PString (JsString.trim s))).
           { destruct K3 as [K3|K3]; [|done].
             rewrite K3, lookup_insert_eq. eauto. }
           split_and!.
           ++ intros Hn. exfalso. apply Hn. by left.
           ++ intros Hd. congruence.
           ++ by right.
           ++ done.
        -- rewrite lookup_insert_ne in K1, K2, K3 by done.
           split_and!; [|done|done|].
           ++ intros Hn. apply K1. intros Hin. apply Hn. by right.
           ++ intros Hin. apply K4. apply elem_of_cons in Hin as [?|?]; done.
      * simpl. split_and!; [done| |done]. intros e E. inversion E; subst. by apply TT.
    + destruct (IH updates w) as (I1 & I2 & I3).
      split_and!; [done|done|].
      intros u' E k. destruct (I3 u' E k) as (K1 & K2 & K3 & K4).
      split_and!; [|done|done|].
      * intros Hn. apply K1. intros Hin. apply Hn. by right.
      * intros Hin Hd. apply K4; [|done].
        apply elem_of_cons in Hin as [->|?]; [congruence|done].
Qed.

Lemma map_update_first {B} (g : Post -> B) id f ps :
  (forall p, g (f p) = g p) -> map g (update_first id f ps) = map g ps.
Proof.
  intros G. induction ps as [|p ps IH]; simpl; [done|].
  destruct (has_id id p); simpl; [by rewrite G | by rewrite IH].
Qed.

Lemma apply_update_frame updates now p :
  updates !! "user_id" = None -> updates !! "images" = None ->
  updates !! "createdAt" = None ->
  frame (apply_update updates now p) = frame p.
Proof. intros E1 E2 E3. unfold frame, apply_update. simpl. by rewrite E1, E2, E3. Qed.

(** The update either throws before touching the store, or rewrites the
    first document with the id. *)
Lemma Post_findByIdAndUpdate_cases postId updates w :
  (exists e, Post_findByIdAndUpdate postId updates w = (Throw e, w) /\
     (e = MongooseCastError "_id" \/
      (exists path, cast_failure updates = Some path /\ e = MongooseCastError path) \/
      (exists path, required_failure updates = Some path /\
                    e = MongooseValidationError path))) \/
  (let ps := update_first (ObjectId_new postId) (apply_update updates (w_now w))
               (w_posts w) in
   Post_findByIdAndUpdate postId updates w =
     (Return (find_post (ObjectId_new postId) ps),
      set_posts ps (set_trace (w_trace w ++ [EvPostUpdate (ObjectId_new postId)]) w))).
Proof.
  unfold Post_findByIdAndUpdate, ObjectId_cast.
  destruct (ObjectId_isValid postId).
  - rewrite (bind_Return _ _ w (ObjectId_new postId) w) by reflexivity.
    destruct (cast_failure updates) as [path|] eqn:C.
    + left. exists (MongooseCastError path). split; [done|]. right. left. eauto.
    + destruct (required_failure updates) as [path|] eqn:R.
      * left. exists (MongooseValidationError path). split; [done|]. right. right. eauto.
      * right. reflexivity.
  - left. exists (MongooseCastError "_id"). split; [done|]. by left.
Qed.

(** [runValidators]: an update that sets a string path to the empty
    string does not reach the store. *)
Lemma required_failure_empty (updates : gmap string PathValue) k :
  k ∈ PostService.allowedUpdates -> updates !! k = Some (PString "") ->
  exists path, required_failure updates = Some path.
Proof.
  unfold PostService.allowedUpdates, required_failure.
  rewrite !elem_of_cons, elem_of_nil. intros [->|[->|[]]] E; cbn [List.find].
  - rewrite E. cbn. eauto.
  - rewrite E. destruct (updates !! "title") as [[s| | |]|]; cbn; eauto.
    destruct (String.eqb s ""); eauto.
Qed.

Lemma Post_findByIdAndUpdate_refuses postId updates w path :
  required_failure updates = Some path ->
  exists e, Post_findByIdAndUpdate postId updates w = (Throw e, w).
Proof.
  intros R. unfold Post_findByIdAndUpdate, ObjectId_cast.
  destruct (ObjectId_isValid postId); [|eauto].
  rewrite (bind_Return _ _ w (ObjectId_new postId) w) by reflexivity.
  destruct (cast_failure updates); [eauto|]. rewrite R. eauto.
Qed.

(** What the owner's [updatePost] does on an existing post: the two length
    checks and the allow-list loop run without touching the world; either
    one of them throws, or the update document [updates] they end with is
    handed to [Post.findByIdAndUpdate]. *)
Lemma updatePost_owner w postId post updateData :
  ObjectId_isValid postId = true ->
  find_post (ObjectId_new postId) (w_posts w) = Some post ->
  let w0 := set_trace (w_trace w ++ [EvPostFindById (ObjectId_new postId)]) w in
  let r := PostService.updatePost postId updateData (post_user_id post) w in
  (exists e, r = (Throw e, w0) /\
     ((e = ValidationError "Title must be at least 3 characters long" /\
       truthy (prop updateData "title") = true) \/
      (e = ValidationError "Content must be at least 10 characters long" /\
       truthy (prop updateData "content") = true) \/
      exists m, e = TypeError m)) \/
  (exists updates, r = Post_findByIdAndUpdate postId updates w0 /\
     forall k,
       (k ∉ PostService.allowedUpdates -> updates !! k = None) /\
       (is_defined (prop updateData k) = false -> updates !! k = None) /\
       (k ∈ PostService.allowedUpdates -> is_defined (prop updateData k) = true ->
        exists s, prop updateData k = VString s /\
                  updates !! k = Some (PString (JsString.trim s)))).
Proof.
  intros V F. cbn zeta.
  rewrite (updatePost_checked _ _ _ _ _ V F), owner_check_eq. cbn [negb].
  set (w0 := set_trace (w_trace w ++ [EvPostFindById (ObjectId_new postId)]) w).
  pose proof (check_min_length_world (prop updateData "title") 3
                "Title must be at least 3 characters long" w0) as W1.
  pose proof (check_min_length_throws (prop updateData "title") 3
                "Title must be at least 3 characters long" w0) as T1.
  destruct (PostService.check_min_length (prop updateData "title") 3 _ w0)
    as [[[]|e1] w1] eqn:E1; simpl in W1, T1; subst w1.
  2:{ rewrite (bind_Throw _ _ _ _ _ E1). left. exists e1. split; [done|].
      destruct (T1 e1 eq_refl) as [?|?]; [by left | by right; right]. }
  rewrite (bind_Return _ _ _ _ _ E1).
  pose proof (check_min_length_world (prop updateData "content") 10
                "Content must be at least 10 characters long" w0) as W2.
  pose proof (check_min_length_throws (prop updateData "content") 10
                "Content must be at least 10 characters long" w0) as T2.
  destruct (PostService.check_min_length (prop updateData "content") 10 _ w0)
    as [[[]|e2] w2] eqn:E2; simpl in W2, T2; subst w2.
  2:{ rewrite (bind_Throw _ _ _ _ _ E2). left. exists e2. split; [done|].
      destruct (T2 e2 eq_refl) as [?|?]; [by right; left | by right; right]. }
  rewrite (bind_Return _ _ _ _ _ E2).
  destruct (collect_updates_spec updateData PostService.allowedUpdates ∅ w0)
    as (W3 & T3 & R3).
  destruct (PostService.collect_updates PostService.allowedUpdates updateData ∅ w0)
    as [[updates|e3] w3] eqn:E3; simpl in W3, T3, R3; subst w3.
  2:{ rewrite (bind_Throw _ _ _ _ _ E3). left. exists e3. split; [done|].
      right. right. by apply T3. }
  rewrite (bind_Return _ _ _ _ _ E3). right. exists updates. split; [done|].
  intros k. destruct (R3 updates eq_refl k) as (K1 & K2 & _ & K4).
  rewrite lookup_empty in K1, K2. done.
Qed.

(** An update document built by the allow-list loop passes the casts and
    leaves [user_id], [images] and [createdAt] unset. *)
Lemma allowed_updates_frame (updates : gmap string PathValue) :
  (forall k, k ∉ PostService.allowedUpdates -> updates !! k = None) ->
  updates !! "user_id" = None /\ updates !! "images" = None /\
  updates !! "createdAt" = None.
Proof.
  intros A. unfold PostService.allowedUpdates in A.
  split_and!; apply A; rewrite !elem_of_cons, elem_of_nil;
    intros [E|[E|[]]]; discriminate E.
Qed.

(** C6: whatever the post id, the patch and the requester, [updatePost]
    leaves the posts collection with the same documents in the same order,
    each with the [_id], [user_id], [images] and [createdAt] it had. *)
Theorem updatePost_frame w postId updateData userId :
  map frame (w_posts (snd (PostService.updatePost postId updateData userId w)))
  = map frame (w_posts w).
Proof.
  destruct (ObjectId_isValid postId) eqn:V.
  2:{ unfold PostService.updatePost.
      rewrite (bind_Throw _ _ _ _ _ (validateObjectId_invalid _ _ V)). done. }
  destruct (find_post (ObjectId_new postId) (w_posts w)) as [post|] eqn:F.
  2:{ unfold PostService.updatePost.
      rewrite (bind_Return _ _ _ _ _ (validateObjectId_valid _ _ V)).
      rewrite (bind_Return _ _ _ _ _ (Post_findById_valid _ _ V)).
      rewrite F. done. }
  destruct (decide (userId = post_user_id post)) as [->|O].
  2:{ rewrite (updatePost_checked _ _ _ _ _ V F).
      rewrite owner_check_ne by congruence. done. }
  destruct (updatePost_owner w postId post updateData V F) as [(e & E & _)|(u & E & U)].
  - by rewrite E.
  - rewrite E.
    destruct (Post_findByIdAndUpdate_cases postId u
                (set_trace (w_trace w ++ [EvPostFindById (ObjectId_new postId)]) w))
      as [(e & E' & _)|E'].
    + by rewrite E'.
    + cbn zeta in E'. rewrite E'. world_simpl.
      destruct (allowed_updates_frame u (fun k => proj1 (U k))) as (U1 & U2 & U3).
      apply map_update_first. intros p. by apply apply_update_frame.
Qed.

(** A field the patch does not hold: the stored value stays, and no error
    about that field comes out. *)
Lemma absent_field_untouched w postId post updateData k (g : Post -> string) message :
  ObjectId_isValid postId = true ->
  find_post (ObjectId_new postId) (w_posts w) = Some post ->
  (k = "title" /\ g = post_title /\
   message = "Title must be at least 3 characters long") \/
  (k = "content" /\ g = post_content /\
   message = "Content must be at least 10 characters long") ->
  updateData !! k = None ->
  let r := PostService.updatePost postId updateData (post_user_id post) w in
  map g (w_posts (snd r)) = map g (w_posts w) /\
  fst r <> Throw (ValidationError message) /\
  fst r <> Throw (MongooseValidationError k).
Proof.
  intros V F K A. cbn zeta.
  assert (P : prop updateData k = VUndefined) by (unfold prop; by rewrite A).
  destruct (updatePost_owner w postId post updateData V F) as [(e & E & D)|(u & E & U)].
  - rewrite E. cbn [fst snd]. world_simpl. split; [done|].
    destruct D as [(-> & T)|[(-> & T)|(m & ->)]].
    + destruct K as [(-> & _ & ->)|(-> & _ & ->)].
      * rewrite P in T. done.
      * split; intros Q; discriminate Q.
    + destruct K as [(-> & _ & ->)|(-> & _ & ->)].
      * split; intros Q; discriminate Q.
      * rewrite P in T. done.
    + split; intros Q; discriminate Q.
  - rewrite E. destruct (U k) as (_ & U2 & _).
    assert (Uk : u !! k = None) by (apply U2; by rewrite P).
    destruct (Post_findByIdAndUpdate_cases postId u
                (set_trace (w_trace w ++ [EvPostFindById (ObjectId_new postId)]) w))
      as [(e & E' & D')|E'].
    + rewrite E'. cbn [fst snd]. world_simpl. split; [done|].
      destruct D' as [->|[(path & _ & ->)|(path & R & ->)]];
        [split; intros Q; discriminate Q | split; intros Q; discriminate Q |].
      split; [intros Q; discriminate Q|].
      intros Q. inversion Q; subst path. unfold required_failure in R.
      destruct K as [(-> & _)|(-> & _)]; cbn [List.find] in R; rewrite Uk in R.
      * destruct (u !! "content") as [[]|]; try discriminate R.
        destruct (String.eqb _ _); discriminate R.
      * destruct (u !! "title") as [[]|]; try discriminate R.
        destruct (String.eqb _ _); discriminate R.
    + cbn zeta in E'. rewrite E'. cbn [fst snd]. world_simpl.
      split; [|split; intros Q; discriminate Q].
      apply map_update_first. intros p0.
      destruct K as [(-> & -> & _)|(-> & -> & _)]; unfold apply_update; simpl;
        by rewrite Uk.
Qed.

(** C5, as the code has it: for the owner of an existing post, a non-empty
    title whose trimmed length is under 3, or a non-empty content whose
    trimmed length is under 10, makes [updatePost] throw a ValidationError;
    an empty title or content is not length-checked, and the call throws
    all the same, at the latest in the schema's [required] validator;
    whenever [updatePost] throws, the posts are as before; and a field the
    patch does not hold keeps its stored value and causes no validation
    error. *)
Theorem updatePost_validates_given_fields w postId post updateData :
  ObjectId_isValid postId = true ->
  find_post (ObjectId_new postId) (w_posts w) = Some post ->
  let w0 := set_trace (w_trace w ++ [EvPostFindById (ObjectId_new postId)]) w in
  let r := PostService.updatePost postId updateData (post_user_id post) w in
  (forall t, updateData !! "title" = Some (VString t) -> t <> "" ->
     (String.length (JsString.trim t) < 3)%nat ->
     r = (Throw (ValidationError "Title must be at least 3 characters long"), w0)) /\
  (forall c, updateData !! "content" = Some (VString c) -> c <> "" ->
     (String.length (JsString.trim c) < 10)%nat ->
     truthy (prop updateData "title") = false \/
       (exists t, prop updateData "title" = VString t) ->
     exists message, r = (Throw (ValidationError message), w0)) /\
  (forall k, k ∈ PostService.allowedUpdates -> updateData !! k = Some (VString "") ->
     (forall min message,
        PostService.check_min_length (prop updateData k) min message w0 =
          (Return tt, w0)) /\
     exists e, r = (Throw e, w0)) /\
  (forall e, fst r = Throw e -> w_posts (snd r) = w_posts w) /\
  (updateData !! "title" = None ->
     map post_title (w_posts (snd r)) = map post_title (w_posts w) /\
     fst r <> Throw (ValidationError "Title must be at least 3 characters long") /\
     fst r <> Throw (MongooseValidationError "title")) /\
  (updateData !! "content" = None ->
     map post_content (w_posts (snd r)) = map post_content (w_posts w) /\
     fst r <> Throw (ValidationError "Content must be at least 10 characters long") /\
     fst r <> Throw (MongooseValidationError "content")).
Proof.
  intros V F. cbn zeta. split_and!.
  - intros t T Hne Hlt.
    rewrite (updatePost_checked _ _ _ _ _ V F), owner_check_eq. cbn [negb].
    apply bind_Throw. unfold prop. rewrite T. cbn [default from_option].
    by apply check_min_length_short.
  - intros c C Hne Hlt T.
    rewrite (updatePost_checked _ _ _ _ _ V F), owner_check_eq. cbn [negb].
    set (w0 := set_trace (w_trace w ++ [EvPostFindById (ObjectId_new postId)]) w).
    assert (E2 : PostService.check_min_length (prop updateData "content") 10
                   "Content must be at least 10 characters long" w0 =
                 (Throw (ValidationError "Content must be at least 10 characters long"),
                  w0)).
    { unfold prop. rewrite C. cbn [default from_option].
      by apply check_min_length_short. }
    assert (E1 : PostService.check_min_length (prop updateData "title") 3
                   "Title must be at least 3 characters long" w0 = (Return tt, w0) \/
                 PostService.check_min_length (prop updateData "title") 3
                   "Title must be at least 3 characters long" w0 =
                 (Throw (ValidationError "Title must be at least 3 characters long"),
                  w0)).
    { destruct T as [T|(t & T)].
      - left. by apply check_min_length_skip.
      - rewrite T. apply check_min_length_string. }
    destruct E1 as [E1|E1].
    + rewrite (bind_Return _ _ _ _ _ E1). rewrite (bind_Throw _ _ _ _ _ E2). eauto.
    + rewrite (bind_Throw _ _ _ _ _ E1). eauto.
  - intros k K E0.
    assert (P : prop updateData k = VString "") by (unfold prop; by rewrite E0).
    split; [intros min message; rewrite P; by apply check_min_length_skip|].
    destruct (updatePost_owner w postId post updateData V F) as [(e' & E & _)|(u & E & U)].
    + eauto.
    + rewrite E. destruct (U k) as (_ & _ & U3).
      destruct (U3 K) as (s & Ps & Us); [by rewrite P|].
      rewrite P in Ps. inversion Ps; subst s.
      destruct (required_failure_empty u k K Us) as (path & R).
      apply (Post_findByIdAndUpdate_refuses _ _ _ _ R).
  - intros e.
    destruct (updatePost_owner w postId post updateData V F) as [(e' & E & _)|(u & E & _)].
    + by rewrite E.
    + rewrite E.
      destruct (Post_findByIdAndUpdate_cases postId u
                  (set_trace (w_trace w ++ [EvPostFindById (ObjectId_new postId)]) w))
        as [(e' & E' & _)|E'].
      * by rewrite E'.
      * cbn zeta in E'. rewrite E'. cbn [fst]. intros Q. discriminate Q.
  - intros A. apply (absent_field_untouched w postId post updateData "title"
                       post_title _ V F); [by left | exact A].
  - intros A. apply (absent_field_untouched w postId post updateData "content"
                       post_content _ V F); [by right | exact A].
Qed.

End Update.

(** ** Creating a post *)

Section Create.
Context `{ObjectIdDriver}.

Lemma trim_length_nonempty s n :
  (S n <= String.length (JsString.trim s))%nat -> s <> "" /\ JsString.trim s <> "".
Proof.
  intros L. split; intros E; rewrite E in L; simpl in L; lia.
Qed.

Lemma createPost_success postData userId files w t c :
  prop postData "title" = VString t ->
  prop postData "content" = VString c ->
  (3 <= String.length (JsString.trim t))%nat ->
  (10 <= String.length (JsString.trim c))%nat ->
  let post := created_post w (JsString.trim t) (JsString.trim c) userId files in
  PostService.createPost postData userId files w =
    (Return post,
     set_trace (w_trace w ++ [EvPostCreate (post_id post)])
       (set_fresh_pos (S (w_fresh_pos w)) (set_posts (w_posts w ++ [post]) w))).
Proof.
  intros T C LT LC. cbn zeta. unfold PostService.createPost. rewrite T, C.
  destruct (trim_length_nonempty t 2 LT) as (Tn & TTn).
  destruct (trim_length_nonempty c 9 LC) as (Cn & TCn).
  cbn [truthy]. apply String.eqb_neq in Tn, Cn, TTn, TCn. rewrite Tn, Cn.
  cbn [negb orb].
  rewrite (bind_Return _ _ _ _ _ (js_trim_string t w)).
  apply Nat.ltb_ge in LT. rewrite LT.
  rewrite (bind_Return _ _ _ _ _ (js_trim_string c w)).
  apply Nat.ltb_ge in LC. rewrite LC.
  unfold Post_create. cbn [pl_title pl_content pl_user_id pl_images].
  rewrite TTn, TCn. unfold created_post.
  destruct files as [| |[|f fs]]; reflexivity.
Qed.






(** C10: with valid title and content and no file (an empty list, [null]
    or nothing), [createPost] succeeds with an empty [images] list;
    [uploadMultipleToGridFS] on such a list returns the empty array and
    leaves the world, its trace included, as it was; and so the POST
    route creates the post without an image. *)
Theorem no_files_no_images postData userId w t c :
  prop postData "title" = VString t ->
  prop postData "content" = VString c ->
  (3 <= String.length (JsString.trim t))%nat ->
  (10 <= String.length (JsString.trim c))%nat ->
  (forall files, files = Undefined \/ files = Null \/ files = Defined [] ->
     exists post w',
       PostService.createPost postData userId files w = (Return post, w') /\
       post_images post = [] /\ w_posts w' = w_posts w ++ [post]) /\
  (forall files, files = Undefined \/ files = Null \/ files = Defined [] ->
     uploadMultipleToGridFS files userId w = (Return [], w) /\
     exists post w',
       POST_posts postData files userId w = (Return post, w') /\
       post_images post = [] /\ w_posts w' = w_posts w ++ [post] /\
       w_files w' = w_files w).
Proof.
  intros T C LT LC. split.
  - intros files F. eexists _, _.
    split; [by apply (createPost_success _ _ _ _ t c)|].
    world_simpl. split; [|done].
    by destruct F as [->|[->| ->]].
  - intros files F.
    assert (U : uploadMultipleToGridFS files userId w = (Return [], w))
      by (by destruct F as [->|[->| ->]]).
    split; [exact U|]. unfold POST_posts.
    rewrite (bind_Return _ _ _ _ _ U).
    eexists _, _. split; [by apply (createPost_success _ _ _ _ t c)|].
    world_simpl. done.
Qed.

End Create.

(** ** Listing posts *)

Section Listing.
Context `{ObjectIdDriver}.

(** [Math.ceil(total / limit)] is the least number of pages of [limit]
    entries that hold [total] entries. *)
Lemma Math_ceil_div_bounds total limit :
  0 < limit ->
  (Math_ceil_div total limit - 1) * limit < total <= Math_ceil_div total limit * limit.
Proof.
  intros L. unfold Math_ceil_div.
  pose proof (Z.div_mod (- total) limit ltac:(lia)) as D.
  pose proof (Z.mod_pos_bound (- total) limit L) as B.
  nia.
Qed.

Lemma filter_matches_all ps : List.filter (matches None) ps = ps.
Proof. induction ps as [|p ps IH]; simpl; [done | by rewrite IH]. Qed.

Lemma StronglySorted_page {A} (R : relation A) (sorted : list A) page limit :
  StronglySorted R sorted -> StronglySorted R (page_of sorted page limit).
Proof.
  intros S. unfold page_of.
  assert (S' : StronglySorted R (drop (Z.to_nat ((page - 1) * limit)) sorted)).
  { rewrite <- (take_drop (Z.to_nat ((page - 1) * limit)) sorted) in S.
    by apply StronglySorted_app_1_r in S. }
  rewrite <- (take_drop (Z.to_nat limit) (drop _ sorted)) in S'.
  by apply StronglySorted_app_1_l in S'.
Qed.

Lemma page_of_length {A} (sorted : list A) page limit :
  0 <= limit -> Z.of_nat (length (page_of sorted page limit)) <= limit.
Proof. intros L. unfold page_of. rewrite length_take. lia. Qed.

Lemma arrange_Permutation {A} (choices : list nat) : forall l : list A,
  arrange choices l ≡ₚ l.
Proof.
  induction choices as [|i choices IH]; intros l; cbn [arrange]; [done|].
  destruct (l !! i) as [x|] eqn:E; [|apply IH].
  rewrite IH. symmetry. by apply delete_Permutation.
Qed.

(** Every order of a list is the work of some choices. *)
Lemma arrange_any_order {A} : forall l' l : list A,
  l' ≡ₚ l -> exists choices, arrange choices l = l'.
Proof.
  induction l' as [|x l' IH]; intros l P.
  - apply Permutation_nil_l in P as ->. by exists [].
  - assert (Hx : x ∈ l) by (rewrite <- P; by left).
    apply list_elem_of_lookup in Hx as [i Hi].
    pose proof (delete_Permutation l i x Hi) as D.
    rewrite D in P. apply Permutation_cons_inv in P.
    destruct (IH _ P) as [choices E].
    exists (i :: choices). cbn [arrange]. by rewrite Hi, E.
Qed.

Lemma listed_Permutation filter w :
  listed filter w ≡ₚ List.filter (matches filter) (w_posts w).
Proof. unfold listed. by rewrite merge_sort_Permutation, arrange_Permutation. Qed.

Lemma listed_sorted filter w : StronglySorted created_desc (listed filter w).
Proof. apply (StronglySorted_merge_sort created_desc). Qed.

Lemma Post_find_run filter skip limit w :
  0 <= skip -> 0 < limit ->
  Post_find filter skip limit w =
    (Return (take (Z.to_nat limit) (drop (Z.to_nat skip) (listed filter w))),
     set_trace (w_trace w ++ [EvPostFind filter skip limit]) w).
Proof.
  intros S L. unfold Post_find, emit, get_world, bind, ret, listed.
  assert (E1 : (skip <? 0) = false) by lia.
  assert (E2 : (limit =? 0) = false) by lia.
  rewrite E1, E2. world_simpl.
  rewrite Zabs2Nat.abs_nat_nonneg by lia.
  by rewrite length_app, Nat.add_1_r.
Qed.

Lemma Post_countDocuments_run filter w :
  Post_countDocuments filter w =
    (Return (Z.of_nat (length (List.filter (matches filter) (w_posts w)))),
     set_trace (w_trace w ++ [EvPostCount filter]) w).
Proof. reflexivity. Qed.

Lemma for_of_emit {A} (f : A -> Event) xs : forall w,
  for_of xs (fun x => emit (f x)) w = (Return tt, set_trace (w_trace w ++ map f xs) w).
Proof.
  induction xs as [|x xs IH]; intros w; cbn [for_of map].
  - unfold ret. rewrite app_nil_r. by destruct w.
  - rewrite (bind_Return _ _ w tt (set_trace (w_trace w ++ [f x]) w)) by reflexivity.
    rewrite IH. world_simpl. by rewrite <- app_assoc.
Qed.

Lemma getPostsByUser_run w userId page limit :
  1 <= page -> 1 <= limit ->
  let total := Z.of_nat (length (List.filter (matches (Some userId)) (w_posts w))) in
  fst (PostService.getPostsByUser userId (Some page) (Some limit) w) =
    Return (mkPostsPage (page_of (listed (Some userId) w) page limit)
              (mkPagination page limit total (Math_ceil_div total limit))).
Proof.
  intros P L. cbn zeta.
  assert (K : 0 <= (page - 1) * limit) by nia.
  assert (L0 : 0 < limit) by lia.
  unfold PostService.getPostsByUser. cbn [default from_option].
  erewrite bind_Return.
  2:{ eapply Promise_all2_Return.
      - apply (Post_find_run (Some userId) _ _ w K L0).
      - apply Post_countDocuments_run. }
  cbn [ret fst snd]. world_simpl. by unfold page_of, id.
Qed.

Lemma getAllPosts_run w page limit :
  1 <= page -> 1 <= limit ->
  let total := Z.of_nat (length (w_posts w)) in
  fst (PostService.getAllPosts (Some page) (Some limit) w) =
    Return (mkPostsPage (page_of (listed None w) page limit)
              (mkPagination page limit total (Math_ceil_div total limit))).
Proof.
  intros P L. cbn zeta.
  assert (K : 0 <= (page - 1) * limit) by nia.
  assert (L0 : 0 < limit) by lia.
  unfold PostService.getAllPosts. cbn [default from_option].
  erewrite bind_Return.
  2:{ eapply Promise_all2_Return.
      - by erewrite bind_Return by (apply (Post_find_run None _ _ w K L0)).
      - apply Post_countDocuments_run. }
  cbn [ret fst snd]. world_simpl. unfold page_of, id.
  by rewrite filter_matches_all.
Qed.

(** C9: for [page >= 1] and [limit] in [1, 100], [getAllPosts] and
    [getPostsByUser] return the posts that match (all of them, or those of
    the user), brought into descending order of creation time, with the
    first [(page - 1) * limit] skipped and at most [limit] kept, together
    with the number [total] of matching posts and [pages], the ceiling of
    [total / limit]. *)
Theorem listing_is_a_sorted_page w userId page limit :
  1 <= page -> 1 <= limit <= 100 ->
  exists sortedAll sortedMine,
    sortedAll ≡ₚ w_posts w /\
    sortedMine ≡ₚ List.filter (fun p => bool_decide (post_user_id p = userId)) (w_posts w) /\
    StronglySorted (fun a b => post_createdAt b <= post_createdAt a) sortedAll /\
    StronglySorted (fun a b => post_createdAt b <= post_createdAt a) sortedMine /\
    let totalAll := Z.of_nat (length sortedAll) in
    let totalMine := Z.of_nat (length sortedMine) in
    fst (PostService.getAllPosts (Some page) (Some limit) w) =
      Return (mkPostsPage (page_of sortedAll page limit)
                (mkPagination page limit totalAll (Math_ceil_div totalAll limit))) /\
    fst (PostService.getPostsByUser userId (Some page) (Some limit) w) =
      Return (mkPostsPage (page_of sortedMine page limit)
                (mkPagination page limit totalMine (Math_ceil_div totalMine limit))) /\
    page_of sortedAll page limit =
      take (Z.to_nat limit) (drop (Z.to_nat ((page - 1) * limit)) sortedAll) /\
    page_of sortedMine page limit =
      take (Z.to_nat limit) (drop (Z.to_nat ((page - 1) * limit)) sortedMine) /\
    Z.of_nat (length (page_of sortedAll page limit)) <= limit /\
    Z.of_nat (length (page_of sortedMine page limit)) <= limit /\
    StronglySorted (fun a b => post_createdAt b <= post_createdAt a)
      (page_of sortedAll page limit) /\
    StronglySorted (fun a b => post_createdAt b <= post_createdAt a)
      (page_of sortedMine page limit) /\
    totalAll = Z.of_nat (length (w_posts w)) /\
    (Math_ceil_div totalAll limit - 1) * limit < totalAll
      <= Math_ceil_div totalAll limit * limit /\
    (Math_ceil_div totalMine limit - 1) * limit < totalMine
      <= Math_ceil_div totalMine limit * limit.
Proof.
  intros P L.
  exists (listed None w), (listed (Some userId) w).
  assert (PA : listed None w ≡ₚ w_posts w)
    by (by rewrite listed_Permutation, filter_matches_all).
  pose proof (listed_Permutation (Some userId) w) as PM.
  pose proof (listed_sorted None w) as SA.
  pose proof (listed_sorted (Some userId) w) as SM.
  cbn zeta.
  split_and!; try done;
    try (apply page_of_length; lia); try (by apply StronglySorted_page);
    try (apply Math_ceil_div_bounds; lia); try (by rewrite PA).
  - rewrite (getAllPosts_run w page limit P ltac:(lia)).
    by rewrite (Permutation_length PA).
  - rewrite (getPostsByUser_run w userId page limit P ltac:(lia)).
    by rewrite (Permutation_length PM).
Qed.

End Listing.

(** ** The upload pipeline *)

Section Upload.
Context `{ObjectIdDriver}.

Lemma string_length_app s1 s2 :
  String.length (s1 +:+ s2) = (String.length s1 + String.length s2)%nat.
Proof. induction s1 as [|c s1 IH]; simpl; [done | by rewrite IH]. Qed.

Lemma all_chars_app p s1 s2 :
  Node.all_chars p (s1 +:+ s2) = Node.all_chars p s1 && Node.all_chars p s2.
Proof.
  induction s1 as [|c s1 IH]; simpl; [done|]. rewrite IH. by rewrite andb_assoc.
Qed.

Lemma hex_of_byte_is_hex b : Node.all_chars Node.is_hex_char (Node.hex_of_byte b) = true.
Proof. destruct b; reflexivity. Qed.

Lemma toString_hex_length buf :
  String.length (Node.toString_hex buf) = (2 * length buf)%nat.
Proof.
  induction buf as [|b buf IH]; [done|].
  cbn [Node.toString_hex length]. rewrite string_length_app, IH.
  unfold Node.hex_of_byte. simpl. lia.
Qed.

Lemma toString_hex_is_hex buf :
  Node.all_chars Node.is_hex_char (Node.toString_hex buf) = true.
Proof.
  induction buf as [|b buf IH]; [done|].
  cbn [Node.toString_hex]. by rewrite all_chars_app, hex_of_byte_is_hex, IH.
Qed.

Lemma string_app_empty_r s : s +:+ "" = s.
Proof.
  induction s as [|c s IH]; [done|].
  change (String c (s +:+ "") = String c s). by rewrite IH.
Qed.

Lemma substring_prefix s : forall m, exists post, s = String.substring 0 m s +:+ post.
Proof.
  induction s as [|c s IH]; intros m.
  - exists "". by destruct m.
  - destruct m as [|m]; simpl.
    + by exists (String c s).
    + destruct (IH m) as (post & E). exists post.
      change (String c s = String c (String.substring 0 m s +:+ post)).
      by rewrite <- E.
Qed.

Lemma substring_occurs s : forall n m, JsString.occurs_in (String.substring n m s) s.
Proof.
  induction s as [|c s IH]; intros n m.
  - exists "", "". by destruct n, m.
  - destruct n as [|n].
    + destruct (substring_prefix (String c s) m) as (post & E).
      exists "", post. exact E.
    + destruct (IH n m) as (pre & post & E).
      exists (String c pre), post.
      change (String c s = String c (pre +:+ String.substring n m s +:+ post)).
      by rewrite <- E.
Qed.

(** The extension is a piece of the name it was taken from. *)
Lemma extname_occurs path : JsString.occurs_in (Node.extname path) path.
Proof.
  unfold Node.extname. destruct (_ || _).
  - by exists "", path.
  - apply substring_occurs.
Qed.

(** The promise of one upload on an initialised bucket: the executor has
    drawn the name, the time and the stream. *)
Lemma uploadToGridFS_promise_ready w buffer fileInfo userId :
  w_gridfs_ready w = true ->
  let random := map (w_entropy w) (seq (w_entropy_pos w) 16) in
  let storageName := Node.toString_hex random +:+ Node.extname (originalname fileInfo) in
  let id := w_fresh w (w_fresh_pos w) in
  let stream :=
    mkUploadStream id storageName
      (mkFileMetadata (Some (originalname fileInfo)) (Some userId)
                      (Some (w_now w)) (Some (mimetype fileInfo)))
      (hd false (w_faults w)) in
  uploadToGridFS_promise buffer fileInfo userId w =
    (Return (bucket_stream_end stream buffer ;;
             ret (mkUploadedFile id storageName (mimetype fileInfo)
                    (Z.of_nat (length buffer)))),
     set_faults (tail (w_faults w))
       (set_fresh_pos (S (w_fresh_pos w))
          (set_trace (w_trace w ++ [EvBucketUpload storageName])
             (set_entropy_pos (w_entropy_pos w + 16)%nat w)))).
Proof.
  intros R. cbn zeta. unfold uploadToGridFS_promise.
  apply try_catch_Return.
  rewrite (bind_Return _ _ _ _ _ (getGridFS_ready w R)).
  rewrite (bind_Return _ _ w (map (w_entropy w) (seq (w_entropy_pos w) 16))
             (set_entropy_pos (w_entropy_pos w + 16)%nat w)) by reflexivity.
  rewrite (bind_Return _ _ _ (w_now w) (set_entropy_pos (w_entropy_pos w + 16)%nat w))
    by reflexivity.
  reflexivity.
Qed.

Lemma uploadToGridFS_promise_not_ready w buffer fileInfo userId :
  w_gridfs_ready w = false ->
  uploadToGridFS_promise buffer fileInfo userId w =
    (Return (throw (GenericError "GridFS not initialized. Call initGridFS() first.")), w).
Proof.
  intros R. unfold uploadToGridFS_promise.
  erewrite try_catch_Throw; [reflexivity|].
  apply bind_Throw. by apply getGridFS_not_ready.
Qed.

(** One upload on an initialised bucket whose stream does not fail. *)
Lemma uploadToGridFS_run w buffer fileInfo userId :
  w_gridfs_ready w = true ->
  hd false (w_faults w) = false ->
  let random := map (w_entropy w) (seq (w_entropy_pos w) 16) in
  let storageName := Node.toString_hex random +:+ Node.extname (originalname fileInfo) in
  let id := w_fresh w (w_fresh_pos w) in
  uploadToGridFS buffer fileInfo userId w =
    (Return (mkUploadedFile id storageName (mimetype fileInfo) (Z.of_nat (length buffer))),
     set_faults (tail (w_faults w))
       (set_files (w_files w ++
                     [mkStoredFile id storageName (Z.of_nat (length buffer)) None
                        (Some (mkFileMetadata (Some (originalname fileInfo)) (Some userId)
                                 (Some (w_now w)) (Some (mimetype fileInfo))))
                        buffer])
          (set_fresh_pos (S (w_fresh_pos w))
             (set_trace (w_trace w ++ [EvBucketUpload storageName])
                (set_entropy_pos (w_entropy_pos w + 16)%nat w))))).
Proof.
  intros R F. cbn zeta. unfold uploadToGridFS.
  rewrite (bind_Return _ _ _ _ _ (uploadToGridFS_promise_ready w buffer fileInfo userId R)).
  unfold bucket_stream_end, bind, ret. cbn [us_fails us_id us_filename us_metadata].
  rewrite F. reflexivity.
Qed.

(** One upload on an initialised bucket whose stream fails: nothing is
    stored. *)
Lemma uploadToGridFS_fault w buffer fileInfo userId :
  w_gridfs_ready w = true ->
  hd false (w_faults w) = true ->
  let random := map (w_entropy w) (seq (w_entropy_pos w) 16) in
  let storageName := Node.toString_hex random +:+ Node.extname (originalname fileInfo) in
  uploadToGridFS buffer fileInfo userId w =
    (Throw (MongoError "upload stream error"),
     set_faults (tail (w_faults w))
       (set_fresh_pos (S (w_fresh_pos w))
          (set_trace (w_trace w ++ [EvBucketUpload storageName])
             (set_entropy_pos (w_entropy_pos w + 16)%nat w)))).
Proof.
  intros R F. cbn zeta. unfold uploadToGridFS.
  rewrite (bind_Return _ _ _ _ _ (uploadToGridFS_promise_ready w buffer fileInfo userId R)).
  unfold bucket_stream_end, bind, ret. cbn [us_fails us_id us_filename us_metadata].
  rewrite F. reflexivity.
Qed.

Lemma uploadToGridFS_not_ready w data fileInfo userId :
  w_gridfs_ready w = false ->
  uploadToGridFS data fileInfo userId w
  = (Throw (GenericError "GridFS not initialized. Call initGridFS() first."), w).
Proof.
  intros R. unfold uploadToGridFS.
  by rewrite (bind_Return _ _ _ _ _ (uploadToGridFS_promise_not_ready w _ _ _ R)).
Qed.

(** C7, as the code has it: on an initialised bucket whose stream does not
    fail, the storage name is the hex text of the next 16 bytes of the
    random source, 32 characters out of 0-9a-f, followed by the extension
    of the original filename; that extension is a piece of the
    user-supplied name, and when it is empty the storage name is the 32
    hex characters alone. The record returned carries the id of the
    stored file, this storage name, the mimetype as content type and the
    byte length of the buffer, and the file is stored under that name with
    the buffer as its content. *)
Theorem upload_storage_name w buffer fileInfo userId :
  w_gridfs_ready w = true ->
  hd false (w_faults w) = false ->
  let random := map (w_entropy w) (seq (w_entropy_pos w) 16) in
  let extension := Node.extname (originalname fileInfo) in
  let r := uploadToGridFS buffer fileInfo userId w in
  exists id,
    fst r = Return (mkUploadedFile id (Node.toString_hex random +:+ extension)
                      (mimetype fileInfo) (Z.of_nat (length buffer))) /\
    length random = 16%nat /\
    String.length (Node.toString_hex random) = 32%nat /\
    Node.all_chars Node.is_hex_char (Node.toString_hex random) = true /\
    JsString.occurs_in extension (originalname fileInfo) /\
    (extension = "" ->
     fst r = Return (mkUploadedFile id (Node.toString_hex random)
                       (mimetype fileInfo) (Z.of_nat (length buffer)))) /\
    w_files (snd r) =
      w_files w ++
      [mkStoredFile id (Node.toString_hex random +:+ extension)
         (Z.of_nat (length buffer)) None
         (Some (mkFileMetadata (Some (originalname fileInfo)) (Some userId)
                  (Some (w_now w)) (Some (mimetype fileInfo))))
         buffer].
Proof.
  intros R F. cbn zeta. exists (w_fresh w (w_fresh_pos w)).
  rewrite (uploadToGridFS_run w buffer fileInfo userId R F). world_simpl.
  split_and!.
  - done.
  - by rewrite length_map, length_seq.
  - by rewrite toString_hex_length, length_map, length_seq.
  - apply toString_hex_is_hex.
  - apply extname_occurs.
  - intros ->. by rewrite string_app_empty_r.
  - done.
Qed.

End Upload.

(** * The properties on the sample data *)

Section Concrete.
#[local] Existing Instance hex24_driver.

(** Alice deletes her post with the images A and B while A's file is
    already gone: the delete of A throws, the loop is left, B's file is
    never asked for and stays in the bucket; the post is removed. *)
Lemma deletePost_skips_siblings_counterexample :
  let r := PostService.deletePost Sample.post1 Sample.alice Sample.world in
  post_images Sample.twoImages = [Sample.imageA; Sample.imageB] /\
  fst r = Return "Post deleted successfully" /\
  bucket_deletes (w_trace (snd r)) = [Sample.fileA] /\
  existsb (file_has_id Sample.fileB) (w_files (snd r)) = true /\
  w_posts (snd r) = [Sample.older].
Proof. cbn zeta. split_and!; reflexivity. Qed.

Lemma deletePost_cascade_witness :
  let r := PostService.deletePost Sample.post1 Sample.alice Sample.world in
  fst r = Return "Post deleted successfully" /\
  w_posts (snd r) = remove_first (ObjectId_new Sample.post1) (w_posts Sample.world) /\
  bucket_deletes (w_trace (snd r)) =
    bucket_deletes (w_trace Sample.world) ++
    attempted_deletes (w_files Sample.world) [Sample.fileA; Sample.fileB] /\
  attempted_deletes (w_files Sample.world) [Sample.fileA; Sample.fileB] = [Sample.fileA].
Proof.
  destruct (@deletePost_cascade hex24_driver Sample.world Sample.post1 Sample.twoImages
              Sample.alice eq_refl eq_refl eq_refl) as (A & B & C & _).
  cbn zeta. split_and!; [exact A | exact B | exact C | reflexivity].
Defined.

(** Bob sends a patch whose title is too short: the ownership test comes
    first, so he is told he is not the owner. *)
Lemma non_owner_is_refused_witness :
  PostService.updatePost Sample.post1 {["title" := VString "x"]} Sample.bob
    Sample.world =
    (Throw (AuthorizationError "You can only update your own posts"),
     set_trace [EvPostFindById (ObjectId_new Sample.post1)] Sample.world) /\
  PostService.deletePost Sample.post1 Sample.bob Sample.world =
    (Throw (AuthorizationError "You can only delete your own posts"),
     set_trace [EvPostFindById (ObjectId_new Sample.post1)] Sample.world).
Proof.
  destruct (@non_owner_is_refused hex24_driver Sample.world Sample.post1 Sample.twoImages
              Sample.bob {["title" := VString "x"]} eq_refl eq_refl) as (A & B & _).
  - discriminate.
  - split; [exact A | exact B].
Defined.

(** C2, where the code departs from it: the by-id download of a stored PDF
    answers with status 200, the PDF's content type and its bytes, where
    the by-name download of the same file answers 404 "Not an image". *)
Theorem GET_image_id_streams_pdf :
  resolved_contentType Sample.storedPdf = "application/pdf" /\
  JsString.startsWith (resolved_contentType Sample.storedPdf) "image/" = false /\
  fst (GET_image_id "0000000000000000000000fa" Sample.world_pdf) =
    Return (mkResponse 200
              [("Content-Type", "application/pdf");
               ("Content-Disposition",
                "inline; filename=" +:+ double_quote +:+ "report.pdf" +:+ double_quote);
               ("Cache-Control", "public, max-age=31536000")]
              (BodyStream [x25; x50; x44])) /\
  fst (GET_image_filename "report.pdf" Sample.world_pdf) =
    Return (json 404 [] [("error", "Not an image"); ("contentType", "application/pdf")]).
Proof. split_and!; reflexivity. Qed.

(** An empty title: the length check is skipped, the update goes to the
    store and the schema's [required] validator turns it down. *)
Lemma updatePost_empty_title_counterexample :
  let patch : gmap string value := {["title" := VString ""]} in
  patch !! "title" = Some (VString "") /\
  String.length (JsString.trim "") = 0%nat /\
  PostService.check_min_length (prop patch "title") 3
    "Title must be at least 3 characters long" Sample.world = (Return tt, Sample.world) /\
  fst (PostService.updatePost Sample.post1 patch Sample.alice Sample.world) =
    Throw (MongooseValidationError "title").
Proof. cbn zeta. split_and!; reflexivity. Qed.

Lemma updatePost_validates_given_fields_witness :
  PostService.updatePost Sample.post1 {["title" := VString " ab "]} Sample.alice
    Sample.world =
    (Throw (ValidationError "Title must be at least 3 characters long"),
     set_trace [EvPostFindById (ObjectId_new Sample.post1)] Sample.world).
Proof.
  destruct (@updatePost_validates_given_fields hex24_driver Sample.world Sample.post1
              Sample.twoImages {["title" := VString " ab "]} eq_refl eq_refl) as (A & _).
  apply (A " ab "); [reflexivity | discriminate | vm_compute; lia].
Defined.



(** Two uploads that draw the same random bytes: the storage names differ
    in the part that was taken from the names the client sent. *)
Lemma storage_name_holds_user_text_counterexample :
  let upload name :=
    fst (uploadToGridFS [x01] (mkMulterFile name "image/png" [x01]) Sample.alice
           Sample.world) in
  upload "kitten.png" =
    Return (mkUploadedFile (Sample.fresh_ids 0) "00000000000000000000000000000000.png"
              "image/png" 1) /\
  upload "kitten.exe" =
    Return (mkUploadedFile (Sample.fresh_ids 0) "00000000000000000000000000000000.exe"
              "image/png" 1).
Proof. cbn zeta. split; reflexivity. Qed.

Lemma upload_storage_name_witness :
  exists id,
    fst (uploadToGridFS [x01; x02] (mkMulterFile "README" "text/plain" [x01; x02])
           Sample.alice Sample.world) =
    Return (mkUploadedFile id "00000000000000000000000000000000" "text/plain" 2).
Proof.
  destruct (upload_storage_name Sample.world [x01; x02]
              (mkMulterFile "README" "text/plain" [x01; x02]) Sample.alice
              eq_refl eq_refl) as (id & _ & _ & _ & _ & _ & E & _).
  exists id. apply E. reflexivity.
Defined.

(** A malformed id while GridFS is not initialised: [getGridFS] throws
    before the id is looked at, so the answer is not the 400 response. *)
Lemma malformed_id_uninitialised_counterexample :
  ObjectId_isValid "zzz" = false /\
  GET_image_id "zzz" Sample.world_uninitialised =
    (Throw (GenericError "GridFS not initialized. Call initGridFS() first."),
     Sample.world_uninitialised).
Proof. split; reflexivity. Qed.

Lemma malformed_id_is_rejected_witness :
  PostService.deletePost "zzz" Sample.alice Sample.world =
    (Throw (ValidationError "Invalid post ID format"), Sample.world) /\
  GET_image_id "zzz" Sample.world =
    (Return (json 400 [] [("error", "Invalid file ID")]), Sample.world).
Proof.
  destruct (@malformed_id_is_rejected hex24_driver "zzz" Sample.world ∅ Sample.alice eq_refl)
    as (_ & _ & A & B).
  split; [exact A | exact (B eq_refl)].
Defined.

Lemma listing_is_a_sorted_page_witness :
  exists sortedAll sortedMine,
    sortedAll ≡ₚ w_posts Sample.world /\
    StronglySorted (fun a b => post_createdAt b <= post_createdAt a) sortedAll /\
    fst (PostService.getAllPosts (Some 2) (Some 1) Sample.world) =
      Return (mkPostsPage (page_of sortedAll 2 1)
                (mkPagination 2 1 (Z.of_nat (length sortedAll))
                   (Math_ceil_div (Z.of_nat (length sortedAll)) 1))) /\
    fst (PostService.getPostsByUser Sample.alice (Some 2) (Some 1) Sample.world) =
      Return (mkPostsPage (page_of sortedMine 2 1)
                (mkPagination 2 1 (Z.of_nat (length sortedMine))
                   (Math_ceil_div (Z.of_nat (length sortedMine)) 1))).
Proof.
  destruct (listing_is_a_sorted_page Sample.world Sample.alice 2 1
              ltac:(lia) ltac:(lia))
    as (sa & sm & P1 & _ & S1 & _ & A & B & _).
  exists sa, sm. split_and!; [exact P1 | exact S1 | exact A | exact B].
Defined.

(** The scenario of the specification: a post with one image is created,
    read back, refused to another user and deleted by its owner, which
    leaves the posts and the bucket as they were. *)
Example create_then_delete_scenario :
  let r := Sample.create_then_delete Sample.world in
  fst r = Return (1%nat, Some (AuthorizationError "You can only delete your own posts"),
                  "Post deleted successfully") /\
  w_posts (snd r) = w_posts Sample.world /\
  w_files (snd r) = w_files Sample.world.
Proof. cbn zeta. split_and!; reflexivity. Qed.

(** What was uploaded comes back byte for byte under its content type. *)
Example upload_then_download_roundtrip :
  exists headers,
    fst (Sample.upload_then_download Sample.world) =
      Return (mkResponse 200 (("Content-Type", "image/png") :: headers)
                (BodyStream (buffer Sample.cat))).
Proof. eexists. reflexivity. Qed.

Example listing_second_page :
  fst (PostService.getAllPosts (Some 2) (Some 1) Sample.world) =
    Return (mkPostsPage [Sample.older] (mkPagination 2 1 2 2)) /\
  fst (PostService.getAllPosts (Some 1) (Some 1) Sample.world) =
    Return (mkPostsPage [Sample.twoImages] (mkPagination 1 1 2 2)).
Proof. split; reflexivity. Qed.

Lemma no_files_no_images_witness :
  exists post w',
    POST_posts
      Sample.body
      (Defined []) Sample.alice Sample.world_uninitialised = (Return post, w') /\
    post_images post = [] /\
    w_files w' = w_files Sample.world_uninitialised.
Proof.
  destruct (no_files_no_images
              Sample.body
              Sample.alice Sample.world_uninitialised
              "Hi there" "This is long enough content"
              ltac:(vm_compute; reflexivity) ltac:(vm_compute; reflexivity)
              ltac:(vm_compute; lia) ltac:(vm_compute; lia)) as (_ & A).
  destruct (A (Defined [])) as (_ & post & w' & E & I & _ & F).
  - right. right. reflexivity.
  - exists post, w'. split_and!; [exact E | exact I | exact F].
Defined.

End Concrete.

(** * The post service beyond the listed properties *)

Section MorePosts.
Context `{ObjectIdDriver}.

Lemma find_post_app_new id ps p :
  find_post id ps = None -> post_id p = id -> find_post id (ps ++ [p]) = Some p.
Proof.
  intros N E. unfold find_post in *. induction ps as [|q ps IH]; simpl in *.
  - unfold has_id. by rewrite bool_decide_eq_true_2.
  - destruct (has_id id q); [done | by apply IH].
Qed.

Lemma find_post_update_first id f ps p :
  find_post id ps = Some p -> (forall q, post_id (f q) = post_id q) ->
  find_post id (update_first id f ps) = Some (f p).
Proof.
  intros F I. unfold find_post in *. induction ps as [|q ps IH]; simpl in *; [done|].
  destruct (has_id id q) eqn:E; simpl.
  - inversion F; subst q. unfold has_id in *. rewrite I. by rewrite E.
  - rewrite E. by apply IH.
Qed.

Lemma find_post_remove_first id ps :
  NoDup (map post_id ps) -> find_post id (remove_first id ps) = None.
Proof.
  unfold find_post. induction ps as [|q ps IH]; simpl; [done|].
  intros ND. apply NoDup_cons in ND as (Nq & ND).
  destruct (has_id id q) eqn:E; simpl.
  - unfold has_id in E. apply bool_decide_eq_true_1 in E. subst id.
    destruct (List.find (has_id (post_id q)) ps) as [r|] eqn:F; [|done].
    apply List.find_some in F as (Hin & Hr).
    unfold has_id in Hr. apply bool_decide_eq_true_1 in Hr.
    exfalso. apply Nq. rewrite <- Hr. apply list_elem_of_fmap. exists r.
    split; [done|]. by apply list_elem_of_In.
  - rewrite E. by apply IH.
Qed.

(** X1: A well-formed id that matches no post: the three id-keyed operations
    raise NotFoundError after that one lookup, whoever asks and whatever
    the patch, and neither the posts nor the files change. *)
Theorem unknown_post_is_not_found w postId updateData userId :
  ObjectId_isValid postId = true ->
  find_post (ObjectId_new postId) (w_posts w) = None ->
  let w' := set_trace (w_trace w ++ [EvPostFindById (ObjectId_new postId)]) w in
  PostService.getPostById postId w = (Throw (NotFoundError "Post"), w') /\
  PostService.updatePost postId updateData userId w = (Throw (NotFoundError "Post"), w') /\
  PostService.deletePost postId userId w = (Throw (NotFoundError "Post"), w') /\
  w_posts w' = w_posts w /\ w_files w' = w_files w.
Proof.
  intros V F. cbn zeta. split_and!; try done.
  - unfold PostService.getPostById.
    rewrite (bind_Return _ _ _ _ _ (validateObjectId_valid _ _ V)).
    erewrite bind_Return.
    2:{ rewrite (bind_Return _ _ _ _ _ (Post_findById_valid _ _ V)). rewrite F.
        reflexivity. }
    reflexivity.
  - unfold PostService.updatePost.
    rewrite (bind_Return _ _ _ _ _ (validateObjectId_valid _ _ V)).
    rewrite (bind_Return _ _ _ _ _ (Post_findById_valid _ _ V)). by rewrite F.
  - unfold PostService.deletePost.
    rewrite (bind_Return _ _ _ _ _ (validateObjectId_valid _ _ V)).
    rewrite (bind_Return _ _ _ _ _ (Post_findById_valid _ _ V)). by rewrite F.
Qed.

Lemma getPostById_found w postId post :
  ObjectId_isValid postId = true ->
  find_post (ObjectId_new postId) (w_posts w) = Some post ->
  PostService.getPostById postId w =
    (Return post, set_trace (w_trace w ++ [EvPostFindById (ObjectId_new postId)]) w).
Proof.
  intros V F. unfold PostService.getPostById.
  rewrite (bind_Return _ _ _ _ _ (validateObjectId_valid _ _ V)).
  erewrite bind_Return.
  2:{ rewrite (bind_Return _ _ _ _ _ (Post_findById_valid _ _ V)). rewrite F.
      reflexivity. }
  reflexivity.
Qed.

(** X2: Create, then read: when the id the store hands out is not taken and
    is well-formed text that the driver reads back to the same id,
    [getPostById] on the id of the post [createPost] returned gives that
    very post, after one lookup of the posts and none of the users: its
    [user_id] is still the id, there being nothing to populate it from. *)
Theorem created_post_is_read_back postData userId files w t c :
  prop postData "title" = VString t ->
  prop postData "content" = VString c ->
  (3 <= String.length (JsString.trim t))%nat ->
  (10 <= String.length (JsString.trim c))%nat ->
  let id := w_fresh w (w_fresh_pos w) in
  find_post id (w_posts w) = None ->
  ObjectId_isValid (toString id) = true ->
  ObjectId_new (toString id) = id ->
  exists post w1,
    PostService.createPost postData userId files w = (Return post, w1) /\
    post_id post = id /\ post_user_id post = userId /\
    PostService.getPostById (toString (post_id post)) w1 =
      (Return post, set_trace (w_trace w1 ++ [EvPostFindById id]) w1).
Proof.
  intros T C LT LC id N V R.
  eexists _, _. split; [by apply (createPost_success _ _ _ _ t c)|].
  split; [reflexivity|]. split; [reflexivity|].
  cbn [created_post post_id]. fold id.
  rewrite (getPostById_found _ _ (created_post w (JsString.trim t) (JsString.trim c)
                                   userId files)).
  - by rewrite R.
  - exact V.
  - world_simpl. rewrite R. by apply find_post_app_new.
Qed.

End MorePosts.

Section MoreUpdates.
Context `{ObjectIdDriver}.

Lemma check_min_length_acceptable v min message w :
  (1 <= min)%nat -> acceptable v min ->
  PostService.check_min_length v min message w = (Return tt, w).
Proof.
  intros M [->|(s & -> & L)]; [reflexivity|].
  unfold PostService.check_min_length. cbn [truthy].
  destruct (String.eqb s "") eqn:E; [reflexivity|]. cbn [negb].
  rewrite (bind_Return _ _ _ _ _ (js_trim_string s w)).
  apply Nat.ltb_ge in L. by rewrite L.
Qed.

Lemma Post_findByIdAndUpdate_ok postId updates w :
  ObjectId_isValid postId = true ->
  cast_failure updates = None -> required_failure updates = None ->
  let ps := update_first (ObjectId_new postId) (apply_update updates (w_now w))
              (w_posts w) in
  Post_findByIdAndUpdate postId updates w =
    (Return (find_post (ObjectId_new postId) ps),
     set_posts ps (set_trace (w_trace w ++ [EvPostUpdate (ObjectId_new postId)]) w)).
Proof.
  intros V C R. unfold Post_findByIdAndUpdate, ObjectId_cast. rewrite V.
  rewrite (bind_Return _ _ w (ObjectId_new postId) w) by reflexivity.
  rewrite C, R. reflexivity.
Qed.

Lemma update_first_found id f g ps p :
  find_post id ps = Some p -> f p = g p ->
  update_first id f ps = update_first id g ps.
Proof.
  unfold find_post. intros F E. induction ps as [|q ps IH]; simpl in *; [done|].
  destruct (has_id id q); [inversion F; subst q; by rewrite E | by rewrite IH].
Qed.

Lemma trimmed_nonempty s min :
  (1 <= min)%nat -> (min <= String.length (JsString.trim s))%nat ->
  String.eqb (JsString.trim s) "" = false.
Proof.
  intros M L. apply String.eqb_neq. intros E. rewrite E in L. simpl in L. lia.
Qed.

(** X3: The owner's [updatePost] with a patch that passes the checks: the post
    comes back, and is stored, with the trimmed title and content of the
    patch (a field the patch leaves out keeps its value), its [updatedAt]
    set to the time of the update and everything else as before; the
    other documents of the collection are untouched. *)
Theorem updatePost_applies_patch w postId post updateData :
  ObjectId_isValid postId = true ->
  find_post (ObjectId_new postId) (w_posts w) = Some post ->
  acceptable (prop updateData "title") 3 ->
  acceptable (prop updateData "content") 10 ->
  let r := PostService.updatePost postId updateData (post_user_id post) w in
  let post' :=
    mkPost (post_id post)
           (patched (prop updateData "title") (post_title post))
           (patched (prop updateData "content") (post_content post))
           (post_user_id post) (post_images post) (post_createdAt post) (w_now w) in
  fst r = Return (Some post') /\
  w_posts (snd r) = update_first (ObjectId_new postId) (fun _ => post') (w_posts w) /\
  find_post (ObjectId_new postId) (w_posts (snd r)) = Some post' /\
  w_files (snd r) = w_files w.
Proof.
  intros V F AT AC. cbn zeta.
  rewrite (updatePost_checked _ _ _ _ _ V F), owner_check_eq. cbn [negb].
  set (w0 := set_trace (w_trace w ++ [EvPostFindById (ObjectId_new postId)]) w).
  rewrite (bind_Return _ _ _ _ _
             (check_min_length_acceptable _ 3 _ w0 ltac:(lia) AT)).
  rewrite (bind_Return _ _ _ _ _
             (check_min_length_acceptable _ 10 _ w0 ltac:(lia) AC)).
  assert (K : exists updates,
             PostService.collect_updates PostService.allowedUpdates updateData ∅ w0
               = (Return updates, w0) /\
             cast_failure updates = None /\ required_failure updates = None /\
             apply_update updates (w_now w0) post =
               mkPost (post_id post)
                 (patched (prop updateData "title") (post_title post))
                 (patched (prop updateData "content") (post_content post))
                 (post_user_id post) (post_images post) (post_createdAt post) (w_now w)).
  { destruct AT as [PT|(t & PT & LT)], AC as [PC|(c & PC & LC)];
      cbn [PostService.collect_updates PostService.allowedUpdates];
      rewrite PT, PC; cbn [is_defined patched];
      rewrite ?(bind_Return _ _ _ _ _ (js_trim_string _ w0));
      eexists; (split; [reflexivity|]);
      unfold cast_failure, required_failure, apply_update, schema_paths;
      cbn [List.find];
      repeat (rewrite lookup_insert_eq || (rewrite lookup_insert_ne by done)
              || rewrite lookup_empty);
      cbn [path_casts negb String.eqb Ascii.eqb Bool.eqb orb];
      rewrite ?(trimmed_nonempty _ 3 ltac:(lia) LT),
              ?(trimmed_nonempty _ 10 ltac:(lia) LC);
      done. }
  destruct K as (u & E3 & CF & RF & AU).
  rewrite (bind_Return _ _ _ _ _ E3).
  rewrite (Post_findByIdAndUpdate_ok _ _ _ V CF RF). cbn zeta.
  subst w0. world_simpl.
  pose proof (find_post_update_first _ (apply_update u (w_now w)) _ post F
                (fun q => eq_refl)) as FP.
  rewrite (update_first_found _ (apply_update u (w_now w))
             (fun _ => apply_update u (w_now w) post) _ post F eq_refl) in FP |- *.
  rewrite AU in FP |- *.
  split_and!; try done. by rewrite FP.
Qed.

End MoreUpdates.

Section MoreDeletes.
Context `{ObjectIdDriver}.

Lemma console_errors_app a b :
  console_errors (a ++ b) = console_errors a ++ console_errors b.
Proof. apply omap_app. Qed.

Lemma delete_loop_console imgs : forall w,
  console_errors (w_trace (snd (for_of imgs PostService.delete_one w)))
  = console_errors (w_trace w).
Proof.
  induction imgs as [|i imgs IH]; intros w; [done|]. cbn [for_of].
  destruct (existsb (file_has_id (img_fileId i)) (w_files w)) eqn:E.
  - rewrite (bind_Return _ _ _ _ _ (delete_one_found i w E)). rewrite IH.
    world_simpl. rewrite !console_errors_app. simpl. by rewrite !app_nil_r.
  - rewrite (bind_Throw _ _ _ _ _ (delete_one_missing i w E)). world_simpl.
    rewrite console_errors_app. simpl. by rewrite app_nil_r.
Qed.

Lemma existsb_remove_file_ne id id' fs :
  id <> id' ->
  existsb (file_has_id id') (remove_file id fs) = existsb (file_has_id id') fs.
Proof.
  intros Hne. induction fs as [|f fs IH]; [done|]. cbn [remove_file].
  destruct (file_has_id id f) eqn:E; cbn [existsb]; [|by rewrite IH].
  unfold file_has_id in *. apply bool_decide_eq_true_1 in E.
  rewrite (bool_decide_eq_false_2 (file_id f = id')) by congruence. done.
Qed.

Lemma elem_of_remove_file id fs f :
  NoDup (map file_id fs) ->
  f ∈ remove_file id fs <-> f ∈ fs /\ file_id f <> id.
Proof.
  induction fs as [|g fs IH]; cbn [remove_file map]; intros ND.
  - split; [by intros ?%elem_of_nil | by intros [?%elem_of_nil _]].
  - apply NoDup_cons in ND as (Ng & ND).
    destruct (file_has_id id g) eqn:E; unfold file_has_id in E.
    + apply bool_decide_eq_true_1 in E. rewrite elem_of_cons. split.
      * intros Hin. split; [by right|]. intros Ef. apply Ng. rewrite E, <- Ef.
        apply list_elem_of_fmap. by exists f.
      * intros [[->|Hin] Hne]; [congruence | done].
    + apply bool_decide_eq_false_1 in E. rewrite !elem_of_cons, IH by done.
      split; [intros [->|[? ?]]; split; auto | intros [[->|?] ?]; auto].
Qed.

Lemma NoDup_remove_file id fs :
  NoDup (map file_id fs) -> NoDup (map file_id (remove_file id fs)).
Proof.
  induction fs as [|g fs IH]; cbn [remove_file map]; intros ND; [done|].
  apply NoDup_cons in ND as (Ng & ND).
  destruct (file_has_id id g); [done|]. cbn [map]. apply NoDup_cons. split; [|by apply IH].
  intros Hin. apply Ng. apply list_elem_of_fmap in Hin as (f & Ef & Hf).
  apply list_elem_of_fmap. exists f. split; [done|].
  by apply (elem_of_remove_file id fs f ND) in Hf as [? _].
Qed.

(** With every file there and no id twice, no deletion fails, every id is
    asked for, and what is left are the files with other ids. *)
Lemma delete_all_present ids : forall fs,
  NoDup ids -> NoDup (map file_id fs) ->
  (forall id, id ∈ ids -> existsb (file_has_id id) fs = true) ->
  delete_fails fs ids = false /\
  attempted_deletes fs ids = ids /\
  NoDup (map file_id (files_after_deletes fs ids)) /\
  forall f, f ∈ files_after_deletes fs ids <-> f ∈ fs /\ file_id f ∉ ids.
Proof.
  induction ids as [|id ids IH]; intros fs NI NF A;
    cbn [delete_fails attempted_deletes files_after_deletes].
  - split_and!; try done. intros f. split; [|by intros [? _]].
    intros ?. split; [done|]. by intros ?%elem_of_nil.
  - apply NoDup_cons in NI as (Nid & NI).
    rewrite (A id) by (by left).
    destruct (IH (remove_file id fs) NI (NoDup_remove_file id fs NF)) as (I1 & I2 & I3 & I4).
    { intros id' Hin. rewrite existsb_remove_file_ne; [apply A; by right|].
      intros ->. done. }
    split_and!; [done | by rewrite I2 | done |].
    intros f. rewrite I4, (elem_of_remove_file id fs f NF), elem_of_cons.
    split; [intros [[? ?] ?]; split; [done|]; intros [?|?]; done
           | intros [? Hn]; split_and!; [done| |]; intros ?; apply Hn; auto].
Qed.

Lemma deletePost_owner_posts w postId post :
  ObjectId_isValid postId = true ->
  find_post (ObjectId_new postId) (w_posts w) = Some post ->
  let r := PostService.deletePost postId (post_user_id post) w in
  fst r = Return "Post deleted successfully" /\
  w_posts (snd r) = remove_first (ObjectId_new postId) (w_posts w).
Proof.
  intros V F. cbn zeta.
  rewrite (deletePost_checked _ _ _ _ V F), owner_check_eq. cbn [negb].
  set (w0 := set_trace (w_trace w ++ [EvPostFindById (ObjectId_new postId)]) w).
  destruct (post_images post) as [|i imgs] eqn:I.
  - cbn [length Nat.ltb Nat.leb].
    rewrite (bind_Return _ _ w0 tt w0) by reflexivity.
    by rewrite (deletePost_tail _ _ V).
  - change (0 <? length (i :: imgs))%nat with true. cbv iota.
    destruct (delete_images_caught (i :: imgs) w0) as (D0 & D1 & _).
    destruct (try_catch (PostService.delete_images (i :: imgs)) _ w0) as [o w1] eqn:E.
    cbn [fst snd] in D0, D1. subst o.
    rewrite (bind_Return _ _ _ _ _ E), (deletePost_tail _ _ V).
    world_simpl. by rewrite D1.
Qed.

Lemma remove_first_length id ps p :
  find_post id ps = Some p -> S (length (remove_first id ps)) = length ps.
Proof.
  unfold find_post. induction ps as [|q ps IH]; simpl; [done|].
  destruct (has_id id q); [done|]. intros F. simpl. by rewrite IH.
Qed.

Lemma elem_of_remove_first id ps q :
  q ∈ ps -> post_id q <> id -> q ∈ remove_first id ps.
Proof.
  induction ps as [|p ps IH]; simpl; [done|].
  rewrite elem_of_cons. intros [->|Hin] Hne.
  - unfold has_id. rewrite bool_decide_eq_false_2 by done. by left.
  - destruct (has_id id p); [done|]. right. by apply IH.
Qed.

(** X4: Delete, then ask again: with ids unique in the collection, the post
    its owner deleted is gone (one document fewer, the others kept), so
    reading it and deleting it a second time both raise NotFoundError. *)
Theorem deleted_post_is_gone w postId post :
  ObjectId_isValid postId = true ->
  find_post (ObjectId_new postId) (w_posts w) = Some post ->
  NoDup (map post_id (w_posts w)) ->
  let r := PostService.deletePost postId (post_user_id post) w in
  fst r = Return "Post deleted successfully" /\
  S (length (w_posts (snd r))) = length (w_posts w) /\
  (forall q, q ∈ w_posts w -> post_id q <> ObjectId_new postId -> q ∈ w_posts (snd r)) /\
  fst (PostService.getPostById postId (snd r)) = Throw (NotFoundError "Post") /\
  fst (PostService.deletePost postId (post_user_id post) (snd r))
    = Throw (NotFoundError "Post").
Proof.
  intros V F ND. cbn zeta.
  destruct (deletePost_owner_posts w postId post V F) as (E & P).
  assert (G : find_post (ObjectId_new postId)
                (w_posts (snd (PostService.deletePost postId (post_user_id post) w)))
              = None) by (rewrite P; by apply find_post_remove_first).
  destruct (PostService.deletePost postId (post_user_id post) w) as [o w1].
  cbn [fst snd] in *.
  split_and!.
  - exact E.
  - rewrite P. by apply (remove_first_length _ _ post).
  - intros q Hin Hne. rewrite P. by apply elem_of_remove_first.
  - unfold PostService.getPostById.
    rewrite (bind_Return _ _ _ _ _ (validateObjectId_valid _ _ V)).
    erewrite bind_Return.
    2:{ rewrite (bind_Return _ _ _ _ _ (Post_findById_valid _ _ V)). rewrite G.
        reflexivity. }
    reflexivity.
  - unfold PostService.deletePost.
    rewrite (bind_Return _ _ _ _ _ (validateObjectId_valid _ _ V)).
    rewrite (bind_Return _ _ _ _ _ (Post_findById_valid _ _ V)). by rewrite G.
Qed.

(** X5: The cascade when nothing is missing: on an initialised bucket that
    holds a file for every image of the post (no file id twice, in the
    post or in the bucket), the owner's [deletePost] asks for each image
    once, in order, writes nothing to [console.error], and leaves in the
    bucket exactly the files that are not images of the post. *)
Theorem deletePost_removes_all_images w postId post :
  ObjectId_isValid postId = true ->
  find_post (ObjectId_new postId) (w_posts w) = Some post ->
  w_gridfs_ready w = true ->
  let ids := map img_fileId (post_images post) in
  NoDup ids ->
  NoDup (map file_id (w_files w)) ->
  (forall id, id ∈ ids -> existsb (file_has_id id) (w_files w) = true) ->
  let r := PostService.deletePost postId (post_user_id post) w in
  fst r = Return "Post deleted successfully" /\
  bucket_deletes (w_trace (snd r)) = bucket_deletes (w_trace w) ++ ids /\
  console_errors (w_trace (snd r)) = console_errors (w_trace w) /\
  (forall f, f ∈ w_files (snd r) <-> f ∈ w_files w /\ file_id f ∉ ids).
Proof.
  intros V F R ids NI NF A. cbn zeta.
  destruct (delete_all_present ids (w_files w) NI NF A) as (DF & AD & _ & FA).
  rewrite (deletePost_checked _ _ _ _ V F), owner_check_eq. cbn [negb].
  remember (set_trace (w_trace w ++ [EvPostFindById (ObjectId_new postId)]) w)
    as w0 eqn:W0.
  assert (T0 : bucket_deletes (w_trace w0) = bucket_deletes (w_trace w))
    by (subst w0; simpl; rewrite bucket_deletes_app; simpl; apply app_nil_r).
  assert (C0 : console_errors (w_trace w0) = console_errors (w_trace w))
    by (subst w0; simpl; rewrite console_errors_app; simpl; apply app_nil_r).
  assert (F0 : w_files w0 = w_files w) by (subst w0; reflexivity).
  assert (R0 : w_gridfs_ready w0 = true) by (subst w0; exact R).
  clear W0. subst ids.
  destruct (post_images post) as [|i imgs] eqn:I.
  - cbn [length Nat.ltb Nat.leb map] in *.
    rewrite (bind_Return _ _ w0 tt w0) by reflexivity.
    rewrite (deletePost_tail _ _ V). world_simpl.
    rewrite bucket_deletes_app, console_errors_app, T0, C0, F0. simpl.
    rewrite !app_nil_r. split_and!; try done.
  - change (0 <? length (i :: imgs))%nat with true. cbv iota.
    destruct (delete_loop (i :: imgs) w0) as (L0 & _ & L2 & L3).
    pose proof (delete_loop_console (i :: imgs) w0) as L4.
    rewrite F0 in L0, L2, L3. rewrite DF in L0. rewrite AD in L3.
    destruct (for_of (i :: imgs) PostService.delete_one w0) as [o w1] eqn:E.
    cbn [fst snd] in L0, L2, L3, L4. subst o.
    erewrite bind_Return.
    2:{ apply try_catch_Return. unfold PostService.delete_images.
        rewrite (bind_Return _ _ _ _ _ (getGridFS_ready w0 R0)). exact E. }
    rewrite (deletePost_tail _ _ V). world_simpl.
    rewrite bucket_deletes_app, console_errors_app, L3, L4, T0, C0, L2. simpl.
    rewrite !app_nil_r. split_and!; try done.
Qed.

End MoreDeletes.

Section MoreListing.
Context `{ObjectIdDriver}.

Lemma page_of_length_exact {A} (l : list A) page limit :
  1 <= page -> 0 <= limit ->
  Z.of_nat (length (page_of l page limit))
  = Z.max 0 (Z.min limit (Z.of_nat (length l) - (page - 1) * limit)).
Proof.
  intros P L. unfold page_of. rewrite length_take, length_drop.
  assert (0 <= (page - 1) * limit) by nia. lia.
Qed.

Lemma concat_pages {A} (l : list A) limit n :
  0 <= limit ->
  concat (map (fun p => page_of l (Z.of_nat p) limit) (seq 1 n))
  = take (n * Z.to_nat limit) l.
Proof.
  intros L. induction n as [|n IH]; [done|].
  rewrite seq_S, map_app, concat_app, IH. cbn [map concat]. rewrite app_nil_r.
  unfold page_of.
  replace (Z.to_nat ((Z.of_nat (1 + n) - 1) * limit)) with (n * Z.to_nat limit)%nat
    by nia.
  rewrite take_take_drop. f_equal. lia.
Qed.

Lemma all_pages {A} (l : list A) limit :
  1 <= limit ->
  concat (map (fun p => page_of l (Z.of_nat p) limit)
            (seq 1 (Z.to_nat (Math_ceil_div (Z.of_nat (length l)) limit))))
  = l.
Proof.
  intros L. rewrite concat_pages by lia. apply take_ge.
  pose proof (Math_ceil_div_bounds (Z.of_nat (length l)) limit ltac:(lia)) as B.
  nia.
Qed.

(** With no two of the posts created at the same time there is one
    descending order only, whatever order the store hands them out in. *)
Lemma listed_unique filter w1 w2 :
  w_posts w1 = w_posts w2 ->
  NoDup (map post_createdAt (List.filter (matches filter) (w_posts w1))) ->
  listed filter w1 = listed filter w2.
Proof.
  intros E ND.
  pose proof (listed_Permutation filter w1) as P1.
  pose proof (listed_Permutation filter w2) as P2. rewrite <- E in P2.
  apply (StronglySorted_unique_strong created_desc);
    [|apply listed_sorted|apply listed_sorted|by rewrite P1, P2].
  intros x1 x2 H1 H2 R1 R2. unfold created_desc in R1, R2.
  rewrite P1 in H1. rewrite P2 in H2.
  apply list_elem_of_lookup in H1 as (i & Hi), H2 as (j & Hj).
  assert (i = j).
  { apply (NoDup_lookup _ i j (post_createdAt x1) ND).
    - by rewrite list_lookup_fmap, Hi.
    - rewrite list_lookup_fmap, Hj. cbn. f_equal. lia. }
  subst j. congruence.
Qed.

(** X6: Walking the pages with one query per page, each in whatever state of
    the store and of its tie-breaking, as long as the posts are the same:
    for a limit in [1, 100], page [page >= 1] of [getPostsByUser] and of
    [getAllPosts] holds [min limit (total - (page - 1) * limit)] posts,
    none once that is not positive, so none past the last page; and when
    no two of the matching posts were created at the same time, the pages
    1 to [pages] one after the other are the matching posts, each once, in
    descending order of creation. *)
Theorem paging_visits_every_post (posts : list Post) (state : Z -> World) userId limit :
  1 <= limit <= 100 ->
  (forall page, w_posts (state page) = posts) ->
  let mine := List.filter (fun p => bool_decide (post_user_id p = userId)) posts in
  let byUser page :=
    fst (PostService.getPostsByUser userId (Some page) (Some limit) (state page)) in
  let all page := fst (PostService.getAllPosts (Some page) (Some limit) (state page)) in
  let pages total := Math_ceil_div (Z.of_nat total) limit in
  let walk {A} (list : Z -> Outcome (PostsPage A)) total :=
    concat (map (fun p => posts_of (list (Z.of_nat p))) (seq 1 (Z.to_nat (pages total)))) in
  (forall page, 1 <= page ->
     Z.of_nat (length (posts_of (byUser page)))
       = Z.max 0 (Z.min limit (Z.of_nat (length mine) - (page - 1) * limit)) /\
     Z.of_nat (length (posts_of (all page)))
       = Z.max 0 (Z.min limit (Z.of_nat (length posts) - (page - 1) * limit))) /\
  (forall page, pages (length mine) < page -> 1 <= page -> posts_of (byUser page) = []) /\
  (NoDup (map post_createdAt mine) ->
   walk byUser (length mine) ≡ₚ mine /\
   StronglySorted (fun a b => post_createdAt b <= post_createdAt a)
     (walk byUser (length mine))) /\
  (NoDup (map post_createdAt posts) ->
   walk all (length posts) ≡ₚ posts /\
   StronglySorted (fun a b => post_createdAt b <= post_createdAt a)
     (walk all (length posts))).
Proof.
  intros L E. cbn zeta.
  set (mine := List.filter (matches (Some userId)) posts).
  assert (Em : forall page,
            List.filter (matches (Some userId)) (w_posts (state page)) = mine)
    by (intros page; by rewrite E).
  assert (LM : forall page, length (listed (Some userId) (state page)) = length mine)
    by (intros page; by rewrite (Permutation_length (listed_Permutation _ _)), Em).
  assert (LA : forall page, length (listed None (state page)) = length posts).
  { intros page.
    by rewrite (Permutation_length (listed_Permutation _ _)), filter_matches_all, E. }
  assert (PU : forall page, 1 <= page ->
            posts_of (fst (PostService.getPostsByUser userId (Some page) (Some limit)
                             (state page)))
            = page_of (listed (Some userId) (state page)) page limit).
  { intros page P. by rewrite (getPostsByUser_run _ userId page limit P ltac:(lia)). }
  assert (PA : forall page, 1 <= page ->
            posts_of (fst (PostService.getAllPosts (Some page) (Some limit) (state page)))
            = page_of (listed None (state page)) page limit).
  { intros page P. by rewrite (getAllPosts_run _ page limit P ltac:(lia)). }
  split_and!.
  - intros page P. rewrite (PU page P), (PA page P).
    rewrite !page_of_length_exact by lia. by rewrite LM, LA.
  - intros page Hp P. rewrite (PU page P). apply length_zero_iff_nil.
    pose proof (page_of_length_exact (listed (Some userId) (state page)) page limit P
                  ltac:(lia)) as E1.
    rewrite LM in E1.
    pose proof (Math_ceil_div_bounds (Z.of_nat (length mine)) limit ltac:(lia)) as B.
    change (Math_ceil_div (Z.of_nat (length mine)) limit < page) in Hp.
    assert (Math_ceil_div (Z.of_nat (length mine)) limit * limit <= (page - 1) * limit)
      by nia.
    lia.
  - intros ND.
    change (NoDup (map post_createdAt mine)) in ND.
    assert (W : concat (map (fun p => posts_of (fst (PostService.getPostsByUser userId
                         (Some (Z.of_nat p)) (Some limit) (state (Z.of_nat p)))))
                       (seq 1 (Z.to_nat (Math_ceil_div (Z.of_nat (length mine)) limit))))
                = listed (Some userId) (state 0)).
    { etrans; [|apply (all_pages (listed (Some userId) (state 0)) limit); lia].
      rewrite LM. f_equal. apply map_ext_in.
      intros p Hp. apply in_seq in Hp. rewrite PU by lia. f_equal.
      apply listed_unique; [by rewrite !E | by rewrite Em]. }
    change (concat (map (fun p => posts_of (fst (PostService.getPostsByUser userId
                         (Some (Z.of_nat p)) (Some limit) (state (Z.of_nat p)))))
                       (seq 1 (Z.to_nat (Math_ceil_div (Z.of_nat (length mine)) limit))))
            ≡ₚ mine /\
            StronglySorted created_desc
              (concat (map (fun p => posts_of (fst (PostService.getPostsByUser userId
                         (Some (Z.of_nat p)) (Some limit) (state (Z.of_nat p)))))
                       (seq 1 (Z.to_nat (Math_ceil_div (Z.of_nat (length mine)) limit)))))).
    rewrite W. split; [|apply listed_sorted].
    by rewrite listed_Permutation, Em.
  - intros ND.
    assert (W : concat (map (fun p => posts_of (fst (PostService.getAllPosts
                         (Some (Z.of_nat p)) (Some limit) (state (Z.of_nat p)))))
                       (seq 1 (Z.to_nat (Math_ceil_div (Z.of_nat (length posts)) limit))))
                = listed None (state 0)).
    { etrans; [|apply (all_pages (listed None (state 0)) limit); lia].
      rewrite LA. f_equal. apply map_ext_in.
      intros p Hp. apply in_seq in Hp. rewrite PA by lia. f_equal.
      apply listed_unique; [by rewrite !E | by rewrite filter_matches_all, E]. }
    change (concat (map (fun p => posts_of (fst (PostService.getAllPosts
                         (Some (Z.of_nat p)) (Some limit) (state (Z.of_nat p)))))
                       (seq 1 (Z.to_nat (Math_ceil_div (Z.of_nat (length posts)) limit))))
            ≡ₚ posts /\
            StronglySorted created_desc
              (concat (map (fun p => posts_of (fst (PostService.getAllPosts
                         (Some (Z.of_nat p)) (Some limit) (state (Z.of_nat p)))))
                       (seq 1 (Z.to_nat (Math_ceil_div (Z.of_nat (length posts)) limit)))))).
    rewrite W. split; [|apply listed_sorted].
    by rewrite listed_Permutation, filter_matches_all, E.
Qed.

End MoreListing.

(** * Uploads and downloads beyond the listed properties *)

Section MoreUploads.
Context `{ObjectIdDriver}.

(** One upload on an initialised bucket, whether its stream fails or not. *)
Lemma uploadToGridFS_step w data fileInfo userId :
  w_gridfs_ready w = true ->
  let name := batch_name w 0 fileInfo in
  let w1 := set_faults (tail (w_faults w))
              (set_fresh_pos (S (w_fresh_pos w))
                 (set_trace (w_trace w ++ [EvBucketUpload name])
                    (set_entropy_pos (w_entropy_pos w + 16)%nat w))) in
  uploadToGridFS data fileInfo userId w =
    if hd false (w_faults w)
    then (Throw (MongoError "upload stream error"), w1)
    else (Return (mkUploadedFile (batch_id w 0) name (mimetype fileInfo)
                    (Z.of_nat (length data))),
          set_files (w_files w ++
                       [mkStoredFile (batch_id w 0) name (Z.of_nat (length data)) None
                          (Some (mkFileMetadata (Some (originalname fileInfo)) (Some userId)
                                   (Some (w_now w)) (Some (mimetype fileInfo))))
                          data]) w1).
Proof.
  intros R. cbn zeta. unfold batch_name, batch_id.
  rewrite Nat.mul_0_r, !Nat.add_0_r.
  destruct (hd false (w_faults w)) eqn:F.
  - by rewrite (uploadToGridFS_fault w data fileInfo userId R F).
  - by rewrite (uploadToGridFS_run w data fileInfo userId R F).
Qed.

Lemma batch_shift w w1 userId :
  w_fresh w1 = w_fresh w -> w_fresh_pos w1 = S (w_fresh_pos w) ->
  w_entropy w1 = w_entropy w -> w_entropy_pos w1 = (w_entropy_pos w + 16)%nat ->
  w_now w1 = w_now w -> w_faults w1 = tail (w_faults w) ->
  forall i f, batch_promise w1 userId i f = batch_promise w userId (S i) f.
Proof.
  intros F FP E EP N Fl.
  assert (I : forall i, batch_id w1 i = batch_id w (S i)).
  { intros i. unfold batch_id. rewrite F, FP.
    by replace (S (w_fresh_pos w) + i)%nat with (w_fresh_pos w + S i)%nat by lia. }
  assert (Nm : forall i f, batch_name w1 i f = batch_name w (S i) f).
  { intros i f. unfold batch_name. rewrite E, EP.
    by replace (w_entropy_pos w + 16 + 16 * i)%nat
         with (w_entropy_pos w + 16 * S i)%nat by lia. }
  assert (L : forall i, w_faults w1 !! i = w_faults w !! S i)
    by (intros i; rewrite Fl; apply lookup_tail).
  intros i f. unfold batch_promise, batch_stream, batch_record.
  by rewrite I, Nm, N, L.
Qed.

(** [files.map(...)] on an initialised bucket: every upload is started, in
    the order of the files, and no file is stored yet. *)
Lemma uploads_started userId files :
  forall w, w_gridfs_ready w = true ->
  exists w1,
    js_map (fun file => uploadToGridFS_promise (buffer file) file userId) files w
    = (Return (imap (batch_promise w userId) files), w1) /\
    w_posts w1 = w_posts w /\ w_files w1 = w_files w /\ w_now w1 = w_now w /\
    w_fresh w1 = w_fresh w /\ w_fresh_pos w1 = (w_fresh_pos w + length files)%nat /\
    w_gridfs_ready w1 = true.
Proof.
  induction files as [|file rest IH]; intros w R.
  - exists w. cbn [js_map imap length]. rewrite Nat.add_0_r. done.
  - cbn [js_map length].
    rewrite (bind_Return _ _ _ _ _
               (uploadToGridFS_promise_ready w (buffer file) file userId R)).
    set (w1 := set_faults _ _).
    assert (S1 : w_fresh w1 = w_fresh w /\ w_fresh_pos w1 = S (w_fresh_pos w) /\
                 w_entropy w1 = w_entropy w /\
                 w_entropy_pos w1 = (w_entropy_pos w + 16)%nat /\
                 w_now w1 = w_now w /\ w_faults w1 = tail (w_faults w)) by done.
    destruct S1 as (F & FP & E & EP & N & Fl).
    pose proof (batch_shift w w1 userId F FP E EP N Fl) as SP.
    destruct (IH w1 ltac:(done)) as (w2 & E2 & I1 & I2 & I3 & I4 & I5 & I6).
    rewrite (bind_Return _ _ _ _ _ E2). exists w2.
    split_and!; try done; [|rewrite I5, FP; lia].
    unfold ret. do 2 f_equal. rewrite imap_cons. f_equal.
    + unfold batch_promise, batch_stream, batch_record, batch_name, batch_id.
      rewrite Nat.mul_0_r, !Nat.add_0_r. by destruct (w_faults w).
    + apply imap_ext. intros i f _. cbn. apply SP.
Qed.

Lemma batch_promise_run w userId files i file :
  files !! i = Some file ->
  forall w', batch_promise w userId i file w'
             = (batch_outcome w files i, batch_effect w userId files i w').
Proof.
  intros E w'. unfold batch_promise, batch_outcome, batch_effect, batch_adds,
    bucket_stream_end, bind, ret.
  rewrite E. cbn [batch_stream us_fails].
  by destruct (default false (w_faults w !! i)).
Qed.

(** Promises whose outcome does not depend on the state they settle in. *)
Lemma settle_run {A} (promises : list (M A)) (o : nat -> Outcome A)
    (g : nat -> World -> World) :
  (forall i promise, promises !! i = Some promise ->
     forall w, promise w = (o i, g i w)) ->
  forall turns w, Forall (fun i => (i < length promises)%nat) turns ->
    settle promises turns w
    = (map (fun i => (i, o i)) turns, foldl (fun w i => g i w) w turns).
Proof.
  intros Hp. induction turns as [|i turns IH]; intros w Ht; [done|].
  apply Forall_cons in Ht as [Hi Ht]. cbn [settle map foldl].
  destruct (lookup_lt_is_Some_2 promises i Hi) as [promise E].
  rewrite E, (Hp i promise E w), (IH _ Ht). done.
Qed.

Lemma turns_Permutation (choices : list nat) n : arrange choices (seq 0 n) ≡ₚ seq 0 n.
Proof. apply arrange_Permutation. Qed.

Lemma turns_in_range (choices : list nat) n :
  Forall (fun i => (i < n)%nat) (arrange choices (seq 0 n)).
Proof.
  apply Forall_forall. intros i Hi. rewrite turns_Permutation in Hi.
  apply elem_of_seq in Hi. lia.
Qed.

Lemma rejection_none {A} (o : nat -> Outcome A) turns :
  (forall i, i ∈ turns -> exists a, o i = Return a) ->
  rejection (map (fun i => (i, o i)) turns) = None.
Proof.
  unfold rejection. induction turns as [|i turns IH]; intros Ho; [done|].
  cbn [map omap list_omap snd]. destruct (Ho i ltac:(by left)) as [a ->].
  apply IH. intros j Hj. apply Ho. by right.
Qed.

Lemma rejection_some {A} (o : nat -> Outcome A) turns e :
  (forall i, i ∈ turns -> o i = Throw e \/ exists a, o i = Return a) ->
  (exists i, i ∈ turns /\ o i = Throw e) ->
  rejection (map (fun i => (i, o i)) turns) = Some e.
Proof.
  unfold rejection. induction turns as [|i turns IH]; intros Ho (j & Hj & Ej).
  - by apply elem_of_nil in Hj.
  - cbn [map omap list_omap snd].
    destruct (Ho i ltac:(by left)) as [-> | [a Ea]]; [done|]. rewrite Ea.
    apply IH; [intros k Hk; apply Ho; by right|].
    apply elem_of_cons in Hj as [-> | Hj]; [congruence|]. by exists j.
Qed.

Lemma value_at_settled {A} (o : nat -> Outcome A) turns i a :
  i ∈ turns -> o i = Return a -> value_at (map (fun i => (i, o i)) turns) i = Some a.
Proof.
  intros Hi Ea. unfold value_at. induction turns as [|j turns IH].
  - by apply elem_of_nil in Hi.
  - cbn [map List.find fst]. destruct (Nat.eqb_spec j i) as [->|Hne].
    + by rewrite Ea.
    + apply IH. apply elem_of_cons in Hi as [->|Hi]; done.
Qed.

Lemma values_in_order {A} (o : nat -> Outcome A) (a : nat -> A) turns n :
  turns ≡ₚ seq 0 n ->
  (forall i, (i < n)%nat -> o i = Return (a i)) ->
  omap (value_at (map (fun i => (i, o i)) turns)) (seq 0 n) = map a (seq 0 n).
Proof.
  intros P Ho.
  assert (G : forall l, (forall i, i ∈ l -> (i < n)%nat) ->
            omap (value_at (map (fun i => (i, o i)) turns)) l = map a l).
  { induction l as [|i l IH]; intros Hl; [done|]. cbn [omap list_omap map].
    rewrite (value_at_settled o turns i (a i)).
    - rewrite IH; [done|]. intros j Hj. apply Hl. by right.
    - rewrite P. apply elem_of_seq. specialize (Hl i ltac:(by left)). lia.
    - apply Ho, Hl. by left. }
  apply G. intros i Hi. apply elem_of_seq in Hi. lia.
Qed.

Lemma map_seq_imap {A B} (f : nat -> A -> B) (g : nat -> B) : forall (l : list A),
  (forall i x, l !! i = Some x -> g i = f i x) ->
  map g (seq 0 (length l)) = imap f l.
Proof.
  intros l Hg. apply list_eq. intros i.
  change (map g (seq 0 (length l))) with (g <$> seq 0 (length l)).
  rewrite list_lookup_fmap, list_lookup_imap.
  destruct (l !! i) as [x|] eqn:E.
  - rewrite lookup_seq_lt by (by apply lookup_lt_Some in E). cbn. f_equal. by apply Hg.
  - rewrite lookup_seq_ge by (by apply lookup_ge_None in E). done.
Qed.

Lemma concat_map_Permutation {A B} (f : A -> list B) (l k : list A) :
  l ≡ₚ k -> concat (map f l) ≡ₚ concat (map f k).
Proof.
  induction 1 as [|x l k _ IH|x y l|l k m _ IH1 _ IH2]; cbn [map concat].
  - done.
  - by rewrite IH.
  - rewrite !app_assoc. f_equiv. apply Permutation_app_comm.
  - by rewrite IH1.
Qed.

Lemma batch_effects w userId files turns : forall w',
  let w2 := foldl (fun w0 i => batch_effect w userId files i w0) w' turns in
  w_files w2 = w_files w' ++ concat (map (batch_adds w userId files) turns) /\
  w_posts w2 = w_posts w' /\ w_now w2 = w_now w' /\ w_fresh w2 = w_fresh w' /\
  w_fresh_pos w2 = w_fresh_pos w' /\ w_gridfs_ready w2 = w_gridfs_ready w'.
Proof.
  induction turns as [|i turns IH]; intros w'; cbn zeta; cbn [foldl map concat].
  - by rewrite app_nil_r.
  - destruct (IH (batch_effect w userId files i w')) as (I1 & I2 & I3 & I4 & I5 & I6).
    cbn zeta in *. rewrite I1, I2, I3, I4, I5, I6.
    unfold batch_effect. destruct (batch_adds w userId files i) as [|f fs] eqn:E.
    + done.
    + world_simpl. by rewrite <- app_assoc.
Qed.

Lemma batch_adds_stored w userId files :
  concat (map (batch_adds w userId files) (seq 0 (length files)))
  = batch_stored w userId files.
Proof.
  unfold batch_stored. f_equal. apply map_seq_imap.
  intros i file E. unfold batch_adds. by rewrite E.
Qed.

Lemma batch_stored_all {A B} (f : nat -> A -> B) (l : list A) :
  forall flags, existsb id (take (length l) flags) = false ->
  concat (imap (fun i x => if default false (flags !! i) then [] else [f i x]) l)
  = imap f l.
Proof.
  revert f. induction l as [|x l IH]; intros f flags E; [done|].
  rewrite !imap_cons. cbn [concat].
  destruct flags as [|b flags].
  - cbn [lookup list_lookup default app]. f_equal.
    rewrite <- (IH (f ∘ S) [] ltac:(by rewrite take_nil)).
    f_equal.
  - cbn [length take existsb] in E. apply orb_false_elim in E as [Eb E].
    unfold id in Eb. subst b. cbn [lookup list_lookup default app]. f_equal.
    rewrite <- (IH (f ∘ S) flags E). f_equal.
Qed.

Lemma faulty_lookup w n :
  faulty w n = false <-> forall i, (i < n)%nat -> default false (w_faults w !! i) = false.
Proof.
  unfold faulty. revert n. induction (w_faults w) as [|b l IH]; intros n.
  - rewrite take_nil. split; [|done]. intros _ i _. by rewrite lookup_nil.
  - destruct n as [|n]; cbn [take existsb].
    + split; [intros _ i Hi; lia | done].
    + rewrite orb_false_iff, IH. unfold id. split.
      * intros [-> Hl] [|i] Hi; [done|]. apply Hl. lia.
      * intros Hl. split; [apply (Hl 0%nat); lia|]. intros i Hi. apply (Hl (S i)). lia.
Qed.

Lemma faulty_witness w n :
  faulty w n = true -> exists i, (i < n)%nat /\ default false (w_faults w !! i) = true.
Proof.
  unfold faulty. revert n. induction (w_faults w) as [|b l IH]; intros n.
  - by rewrite take_nil.
  - destruct n as [|n]; cbn [take existsb]; [done|].
    intros E. apply orb_true_iff in E as [E|E].
    + exists 0%nat. split; [lia|done].
    + destruct (IH n E) as (i & Hi & Ei). exists (S i). split; [lia|done].
Qed.

Lemma map_imap {A B C} (g : B -> C) (l : list A) :
  forall f : nat -> A -> B, map g (imap f l) = imap (fun i x => g (f i x)) l.
Proof.
  induction l as [|x l IH]; intros f; [done|].
  rewrite !imap_cons. cbn [map]. f_equal. apply IH.
Qed.

(** A batch of uploads on an initialised bucket: every upload is started
    and every stream comes to its end; the files that finish enter the
    bucket in the order they finish in. *)
Lemma uploadMultipleToGridFS_run w files userId :
  w_gridfs_ready w = true ->
  let r := uploadMultipleToGridFS (Defined files) userId w in
  exists added,
    fst r = (if faulty w (length files) then Throw (MongoError "upload stream error")
             else Return (imap (batch_record w) files)) /\
    w_files (snd r) = w_files w ++ added /\
    added ≡ₚ batch_stored w userId files /\
    w_posts (snd r) = w_posts w /\
    w_now (snd r) = w_now w /\ w_fresh (snd r) = w_fresh w /\
    w_fresh_pos (snd r) = (w_fresh_pos w + length files)%nat /\
    w_gridfs_ready (snd r) = true.
Proof.
  intros R. cbn zeta. unfold uploadMultipleToGridFS.
  destruct files as [|file0 rest0] eqn:Ef.
  { exists []. cbn. unfold batch_stored, faulty. cbn.
    rewrite app_nil_r, Nat.add_0_r. done. }
  rewrite <- Ef. replace (length files =? 0)%nat with false by (by rewrite Ef).
  clear Ef file0 rest0.
  destruct (uploads_started userId files w R) as (w1 & E & P1 & F1 & N1 & Fr1 & FP1 & R1).
  rewrite (bind_Return _ _ _ _ _ E).
  unfold Promise_all. rewrite length_imap.
  set (turns := arrange _ (seq 0 (length files))).
  assert (PT : turns ≡ₚ seq 0 (length files)) by apply turns_Permutation.
  rewrite (settle_run (imap (batch_promise w userId) files) (batch_outcome w files)
             (batch_effect w userId files)).
  2:{ intros i promise Hi w'. rewrite list_lookup_imap in Hi.
      destruct (files !! i) as [file|] eqn:Efile; [|done]. injection Hi as <-.
      by apply batch_promise_run. }
  2:{ rewrite length_imap. apply turns_in_range. }
  destruct (batch_effects w userId files turns w1) as (B1 & B2 & B3 & B4 & B5 & B6).
  cbn zeta in *.
  exists (concat (map (batch_adds w userId files) turns)).
  assert (PS : concat (map (batch_adds w userId files) turns) ≡ₚ batch_stored w userId files).
  { rewrite <- batch_adds_stored. by apply concat_map_Permutation. }
  destruct (faulty w (length files)) eqn:Fy.
  - rewrite (rejection_some _ turns (MongoError "upload stream error")).
    + cbn [fst snd]. rewrite B1, B2, B3, B4, B5, B6, F1, P1, N1, Fr1, FP1, R1. done.
    + intros i _. unfold batch_outcome. destruct (files !! i); [|by left].
      destruct (default false _); [by left | right; by eexists].
    + destruct (faulty_witness w _ Fy) as (i & Hi & Ei). exists i. split.
      * rewrite PT. apply elem_of_seq. lia.
      * unfold batch_outcome. destruct (lookup_lt_is_Some_2 files i Hi) as [file ->].
        by rewrite Ei.
  - pose proof (proj1 (faulty_lookup w _) Fy) as Ok.
    assert (O : forall i, (i < length files)%nat ->
              batch_outcome w files i
              = Return (match files !! i with
                        | Some file => batch_record w i file
                        | None => mkUploadedFile (batch_id w i) "" "" 0
                        end)).
    { intros i Hi. unfold batch_outcome.
      destruct (lookup_lt_is_Some_2 files i Hi) as [file ->]. by rewrite (Ok i Hi). }
    rewrite (rejection_none _ turns).
    2:{ intros i Hi. rewrite PT in Hi. apply elem_of_seq in Hi.
        eexists. apply O. lia. }
    rewrite (values_in_order _ _ turns (length files) PT O).
    cbn [fst snd]. rewrite B1, B2, B3, B4, B5, B6, F1, P1, N1, Fr1, FP1, R1.
    split_and!; try done. f_equal. apply map_seq_imap.
    intros i x Ex. by rewrite Ex.
Qed.

(** X7: A batch of uploads on an initialised bucket, none of whose streams
    fails: [uploadMultipleToGridFS] resolves to one record per file, in the
    order of the files, each with the id of its stored file, its storage
    name, the file's mimetype and the length of its buffer; the bucket
    gains exactly one file per upload, each holding its buffer and the
    metadata of its upload, after the files it had and in the order the
    streams finish in, which need not be the order of the files; no post
    changes. *)
Theorem uploads_are_all_stored w files userId :
  w_gridfs_ready w = true ->
  faulty w (length files) = false ->
  let r := uploadMultipleToGridFS (Defined files) userId w in
  exists added,
    fst r = Return (imap (batch_record w) files) /\
    w_files (snd r) = w_files w ++ added /\
    added ≡ₚ imap (batch_file w userId) files /\
    w_posts (snd r) = w_posts w.
Proof.
  intros R F. cbn zeta.
  destruct (uploadMultipleToGridFS_run w files userId R) as (added & E & Fs & PA & P & _).
  cbn zeta in *. rewrite F in E. exists added. split_and!; try done.
  rewrite PA. unfold batch_stored. by rewrite batch_stored_all.
Qed.

Lemma createPost_frame postData userId files w :
  let r := PostService.createPost postData userId files w in
  w_files (snd r) = w_files w /\
  (forall e, fst r = Throw e -> snd r = w).
Proof.
  cbn zeta. unfold PostService.createPost.
  destruct (_ || _); [done|].
  unfold bind.
  pose proof (js_trim_world (prop postData "title") w) as T.
  destruct (js_trim (prop postData "title") w) as [[t|e] w1]; cbn [snd] in T; subst w1;
    [|done].
  destruct (_ <? 3)%nat; [done|].
  pose proof (js_trim_world (prop postData "content") w) as C.
  destruct (js_trim (prop postData "content") w) as [[c|e] w1]; cbn [snd] in C; subst w1;
    [|done].
  destruct (_ <? 10)%nat; [done|].
  unfold Post_create. cbn [pl_title pl_content].
  destruct (String.eqb t ""); [done|].
  destruct (String.eqb c ""); done.
Qed.

(** X8: Uploads are not rolled back: on an initialised bucket, whatever the
    request body, [POST /api/posts] leaves in the bucket, after the files
    it had, every file of the request whose upload stream finished (all
    of them when no stream fails), in the order the streams finished in;
    when a stream fails the request is rejected with the stream's error,
    and whenever the request is rejected (a failed stream, or a body that
    [createPost] refuses) no post is stored, so the files that were stored
    belong to no post. *)
Theorem rejected_post_keeps_its_uploads w body files userId :
  w_gridfs_ready w = true ->
  let r := POST_posts body (Defined files) userId w in
  exists added,
    w_files (snd r) = w_files w ++ added /\
    added ≡ₚ batch_stored w userId files /\
    (faulty w (length files) = false ->
       batch_stored w userId files = imap (batch_file w userId) files) /\
    (faulty w (length files) = true ->
       fst r = Throw (MongoError "upload stream error")) /\
    (forall e, fst r = Throw e -> w_posts (snd r) = w_posts w).
Proof.
  intros R. cbn zeta.
  destruct (uploadMultipleToGridFS_run w files userId R) as (added & E & Fs & PA & P & _).
  cbn zeta in *. unfold POST_posts. exists added.
  destruct (uploadMultipleToGridFS (Defined files) userId w) as [[ups|e0] w1] eqn:U;
    cbn [fst snd] in *.
  - rewrite (bind_Return _ _ _ _ _ U).
    destruct (createPost_frame body userId (Defined ups) w1) as (CF & CT).
    cbn zeta in *. split_and!.
    + by rewrite CF.
    + done.
    + intros F. unfold batch_stored. by apply batch_stored_all.
    + intros F. by rewrite F in E.
    + intros e Te. by rewrite (CT e Te).
  - rewrite (bind_Throw _ _ _ _ _ U). cbn [fst snd]. split_and!.
    + done.
    + done.
    + intros F. unfold batch_stored. by apply batch_stored_all.
    + intros F. rewrite F in E. by injection E as ->.
    + done.
Qed.

Lemma POST_posts_run w body files userId t c :
  w_gridfs_ready w = true ->
  faulty w (length files) = false ->
  prop body "title" = VString t ->
  prop body "content" = VString c ->
  (3 <= String.length (JsString.trim t))%nat ->
  (10 <= String.length (JsString.trim c))%nat ->
  let r := POST_posts body (Defined files) userId w in
  let post := mkPost (batch_id w (length files)) (JsString.trim t) (JsString.trim c) userId
                (imap (fun i file => mkPostImageRef (batch_id w i) (batch_name w i file)
                                       (mimetype file) (Z.of_nat (length (buffer file))))
                      files)
                (w_now w) (w_now w) in
  exists added,
    fst r = Return post /\
    w_files (snd r) = w_files w ++ added /\
    added ≡ₚ imap (batch_file w userId) files /\
    w_posts (snd r) = w_posts w ++ [post] /\
    w_gridfs_ready (snd r) = true.
Proof.
  intros R F T C LT LC. cbn zeta.
  destruct (uploadMultipleToGridFS_run w files userId R)
    as (added & E & Fs & PA & P & N & Fr & FP & R1).
  cbn zeta in *. rewrite F in E. unfold POST_posts. exists added.
  destruct (uploadMultipleToGridFS (Defined files) userId w) as [o w1] eqn:U.
  cbn [fst snd] in *. subst o.
  rewrite (bind_Return _ _ _ _ _ U).
  rewrite (createPost_success body userId _ w1 t c T C LT LC).
  cbn [fst snd]. world_simpl.
  unfold created_post, uploaded_files. rewrite map_imap, Fr, FP, N, P.
  split_and!; try done.
  rewrite PA. unfold batch_stored. by rewrite batch_stored_all.
Qed.

(** X9: A request with a valid title and content and files whose uploads all
    finish: the stored post carries one image reference per file, in the
    order of the files, each naming an id and a storage name with the
    file's mimetype and size; the bucket gains one file per upload, and
    the ids the post refers to are exactly the ids of these files (the
    files being in the order their streams finished in); the post is the
    last of the collection and has the id drawn after those of the
    files. *)
Theorem POST_posts_links_images w body files userId t c :
  w_gridfs_ready w = true ->
  faulty w (length files) = false ->
  prop body "title" = VString t ->
  prop body "content" = VString c ->
  (3 <= String.length (JsString.trim t))%nat ->
  (10 <= String.length (JsString.trim c))%nat ->
  let r := POST_posts body (Defined files) userId w in
  exists post added,
    fst r = Return post /\
    post_id post = batch_id w (length files) /\
    post_title post = JsString.trim t /\ post_content post = JsString.trim c /\
    post_user_id post = userId /\
    post_images post
      = imap (fun i file => mkPostImageRef (batch_id w i) (batch_name w i file)
                              (mimetype file) (Z.of_nat (length (buffer file)))) files /\
    w_files (snd r) = w_files w ++ added /\
    added ≡ₚ imap (batch_file w userId) files /\
    map img_fileId (post_images post) ≡ₚ map file_id added /\
    w_posts (snd r) = w_posts w ++ [post].
Proof.
  intros R F T C LT LC. cbn zeta.
  destruct (POST_posts_run w body files userId t c R F T C LT LC)
    as (added & E & Fs & PA & P & _).
  cbn zeta in *. eexists. exists added. split; [exact E|].
  cbn [post_id post_title post_content post_user_id post_images].
  split_and!; try done.
  rewrite PA, !map_imap. done.
Qed.

Lemma uploads_not_started userId files w :
  w_gridfs_ready w = false ->
  js_map (fun file => uploadToGridFS_promise (buffer file) file userId) files w
  = (Return (map (fun _ => throw (A := UploadedFile)
                             (GenericError "GridFS not initialized. Call initGridFS() first."))
                 files), w).
Proof.
  intros R. induction files as [|file rest IH]; [done|].
  cbn [js_map map].
  rewrite (bind_Return _ _ _ _ _ (uploadToGridFS_promise_not_ready w _ file userId R)).
  by rewrite (bind_Return _ _ _ _ _ IH).
Qed.

(** X10: While GridFS is not initialised, a request with at least one file is
    rejected with the error of [getGridFS] and nothing changes: no file,
    no post, no random byte and no id is used; a request without files is
    not stopped by it and gets the answer of [createPost]. *)
Theorem uninitialised_bucket_stops_only_files w body files userId :
  w_gridfs_ready w = false ->
  (files <> [] ->
   POST_posts body (Defined files) userId w
   = (Throw (GenericError "GridFS not initialized. Call initGridFS() first."), w)) /\
  POST_posts body (Defined []) userId w = PostService.createPost body userId (Defined []) w /\
  POST_posts body Undefined userId w = PostService.createPost body userId (Defined []) w /\
  POST_posts body Null userId w = PostService.createPost body userId (Defined []) w.
Proof.
  intros R. split_and!; try reflexivity.
  intros NE. unfold POST_posts. apply bind_Throw.
  unfold uploadMultipleToGridFS.
  replace (length files =? 0)%nat with false by (by destruct files).
  rewrite (bind_Return _ _ _ _ _ (uploads_not_started userId files w R)).
  unfold Promise_all. rewrite length_map.
  set (turns := arrange _ (seq 0 (length files))).
  set (e := GenericError "GridFS not initialized. Call initGridFS() first.").
  rewrite (settle_run _ (fun _ => Throw e) (fun _ w0 => w0)).
  - rewrite (rejection_some _ turns e).
    + f_equal. clear. generalize w. induction turns as [|i turns IH]; intros w0; [done|].
      apply IH.
    + intros i _. by left.
    + exists 0%nat. split; [|done]. unfold turns. rewrite turns_Permutation.
      apply elem_of_seq. destruct files; [done|]. cbn [length]. lia.
  - intros i promise Hi w0.
    change (map ?f files) with (f <$> files) in Hi.
    rewrite list_lookup_fmap in Hi. destruct (files !! i); [|done].
    by injection Hi as <-.
  - rewrite length_map. apply turns_in_range.
Qed.





Lemma hex_of_byte_inj b1 b2 : Node.hex_of_byte b1 = Node.hex_of_byte b2 -> b1 = b2.
Proof.
  intros E.
  pose (digit := fun c : ascii =>
                   let n := N_of_ascii c in if (n <? 58)%N then (n - 48)%N else (n - 87)%N).
  pose (decode := fun s : string =>
                    match s with
                    | String c1 (String c2 _) => (16 * digit c1 + digit c2)%N
                    | _ => 0%N
                    end).
  assert (D : forall b, decode (Node.hex_of_byte b) = Byte.to_N b)
    by (intros b; destruct b; reflexivity).
  assert (T : Byte.to_N b1 = Byte.to_N b2) by (by rewrite <- !D, E).
  assert (O : Some b1 = Some b2) by (by rewrite <- !Byte.of_to_N, T).
  by injection O.
Qed.

Lemma toString_hex_inj a : forall b e1 e2,
  length a = length b ->
  Node.toString_hex a +:+ e1 = Node.toString_hex b +:+ e2 -> a = b /\ e1 = e2.
Proof.
  induction a as [|x a IH]; intros [|y b] e1 e2 L E; try discriminate L.
  - done.
  - cbn [Node.toString_hex] in E.
    change (String (Node.hex_digit (Byte.to_N x / 16))
              (String (Node.hex_digit (Byte.to_N x mod 16)) (Node.toString_hex a +:+ e1))
            = String (Node.hex_digit (Byte.to_N y / 16))
                (String (Node.hex_digit (Byte.to_N y mod 16)) (Node.toString_hex b +:+ e2)))
      in E.
    injection E as E1 E2 E3.
    assert (x = y).
    { apply hex_of_byte_inj. unfold Node.hex_of_byte. cbn zeta. by rewrite E1, E2. }
    subst y. cbn [length] in L.
    destruct (IH b e1 e2 ltac:(lia) E3) as [-> ->]. done.
Qed.

(** X12: Storage names collide only when the random bytes do: two uploads that
    finish, in any two states of the system, get the same storage name
    only if the 16 random bytes drawn for them are the same and the
    original filenames have the same extension. *)
Theorem storage_names_differ w1 w2 file1 file2 userId1 userId2 up1 up2 :
  fst (uploadToGridFS (buffer file1) file1 userId1 w1) = Return up1 ->
  fst (uploadToGridFS (buffer file2) file2 userId2 w2) = Return up2 ->
  up_filename up1 = up_filename up2 ->
  map (w_entropy w1) (seq (w_entropy_pos w1) 16)
    = map (w_entropy w2) (seq (w_entropy_pos w2) 16) /\
  Node.extname (originalname file1) = Node.extname (originalname file2).
Proof.
  assert (K : forall w file userId up,
            fst (uploadToGridFS (buffer file) file userId w) = Return up ->
            up_filename up
            = Node.toString_hex (map (w_entropy w) (seq (w_entropy_pos w) 16))
                +:+ Node.extname (originalname file)).
  { intros w file userId up E.
    destruct (w_gridfs_ready w) eqn:R.
    - rewrite (uploadToGridFS_step w _ _ _ R) in E.
      destruct (hd false (w_faults w)); [discriminate E|].
      cbn [fst] in E. injection E as <-. cbn [up_filename]. unfold batch_name.
      by rewrite Nat.mul_0_r, Nat.add_0_r.
    - by rewrite (uploadToGridFS_not_ready w _ _ _ R) in E. }
  intros E1 E2 N.
  rewrite (K _ _ _ _ E1), (K _ _ _ _ E2) in N.
  apply toString_hex_inj in N; [done|]. by rewrite !length_map, !length_seq.
Qed.

Lemma remove_file_fresh fs f rest :
  existsb (file_has_id (file_id f)) fs = false ->
  remove_file (file_id f) (fs ++ f :: rest) = fs ++ rest.
Proof.
  induction fs as [|g fs IH]; cbn [existsb app remove_file]; intros E.
  - unfold file_has_id. by rewrite bool_decide_eq_true_2.
  - apply orb_false_elim in E as [Eg E]. rewrite Eg. by rewrite IH.
Qed.

Lemma first_with_id id : forall fs,
  id ∈ map file_id fs ->
  exists before f after,
    fs = before ++ f :: after /\ file_id f = id /\
    existsb (file_has_id id) before = false.
Proof.
  induction fs as [|g fs IH]; cbn [map]; intros Hin.
  - by apply elem_of_nil in Hin.
  - destruct (decide (file_id g = id)) as [E|NE].
    + by exists [], g, fs.
    + apply elem_of_cons in Hin as [Hin|Hin]; [done|].
      destruct (IH Hin) as (before & f & after & -> & Ef & Eb).
      exists (g :: before), f, after. split_and!; try done.
      cbn [existsb]. rewrite Eb. unfold file_has_id. by rewrite bool_decide_eq_false_2.
Qed.

(** Deleting, one by one, the ids of the files a bucket gained gives back
    the bucket as it was, whatever the order the files were added in. *)
Lemma delete_added_files fs : forall ids added,
  map file_id added ≡ₚ ids ->
  Forall (fun id => existsb (file_has_id id) fs = false) ids ->
  delete_fails (fs ++ added) ids = false /\
  files_after_deletes (fs ++ added) ids = fs.
Proof.
  induction ids as [|id ids IH]; intros added PA Fr;
    cbn [delete_fails files_after_deletes].
  - apply Permutation_nil_r in PA. destruct added; [|done]. by rewrite app_nil_r.
  - apply Forall_cons in Fr as [Fid Fr].
    assert (Hin : id ∈ map file_id added) by (rewrite PA; by left).
    destruct (first_with_id id added Hin) as (before & f & after & -> & Ef & Eb).
    assert (Ex : existsb (file_has_id id) (fs ++ before ++ f :: after) = true).
    { rewrite !existsb_app. cbn [existsb]. unfold file_has_id at 3.
      rewrite bool_decide_eq_true_2 by done. by rewrite !orb_true_r. }
    rewrite Ex. subst id.
    rewrite (app_assoc fs before), (remove_file_fresh (fs ++ before) f after).
    2:{ rewrite existsb_app, Fid, Eb. done. }
    rewrite <- app_assoc. apply IH; [|done].
    rewrite map_app in PA. cbn [map] in PA. rewrite map_app.
    symmetry in PA. apply Permutation_cons_app_inv in PA. by symmetry.
Qed.

Lemma remove_first_fresh ps p :
  find_post (post_id p) ps = None -> remove_first (post_id p) (ps ++ [p]) = ps.
Proof.
  unfold find_post. induction ps as [|q ps IH]; cbn [List.find app remove_first].
  - intros _. unfold has_id. by rewrite bool_decide_eq_true_2.
  - destruct (has_id (post_id p) q); [done|]. intros E. by rewrite IH.
Qed.

(** X13: Create, then delete: after a request with a valid title and content
    and files whose uploads all finish, on ids the store does not hold
    yet, the owner's [deletePost] of the post created succeeds and leaves
    the posts collection and the bucket exactly as they were before the
    request: every file uploaded for the post is deleted with it. *)
Theorem create_then_delete_restores w body files userId t c :
  w_gridfs_ready w = true ->
  faulty w (length files) = false ->
  prop body "title" = VString t ->
  prop body "content" = VString c ->
  (3 <= String.length (JsString.trim t))%nat ->
  (10 <= String.length (JsString.trim c))%nat ->
  Forall (fun i => existsb (file_has_id (batch_id w i)) (w_files w) = false)
         (seq 0 (length files)) ->
  find_post (batch_id w (length files)) (w_posts w) = None ->
  ObjectId_isValid (toString (batch_id w (length files))) = true ->
  ObjectId_new (toString (batch_id w (length files))) = batch_id w (length files) ->
  let created := POST_posts body (Defined files) userId w in
  exists post,
    fst created = Return post /\
    length (post_images post) = length files /\
    let deleted := PostService.deletePost (toString (post_id post)) userId (snd created) in
    fst deleted = Return "Post deleted successfully" /\
    w_posts (snd deleted) = w_posts w /\
    w_files (snd deleted) = w_files w.
Proof.
  intros R F T C LT LC Fresh NP V Rt. cbn zeta.
  destruct (POST_posts_run w body files userId t c R F T C LT LC)
    as (added & E & Fs & PA & P & R1).
  cbn zeta in *.
  destruct (POST_posts body (Defined files) userId w) as [o w1]. cbn [fst snd] in *.
  subst o. eexists. split; [reflexivity|].
  split; [cbn [post_images]; by rewrite length_imap|].
  set (post := mkPost _ _ _ _ _ _ _) in *.
  change (post_id post) with (batch_id w (length files)).
  assert (Fp : find_post (ObjectId_new (toString (batch_id w (length files)))) (w_posts w1)
               = Some post).
  { rewrite Rt, P. by apply find_post_app_new. }
  rewrite (deletePost_checked w1 _ post userId V Fp).
  change (post_user_id post) with userId. rewrite owner_check_eq. cbn [negb].
  set (w2 := set_trace _ w1).
  assert (W2 : w_files w2 = w_files w1 /\ w_posts w2 = w_posts w1 /\
               w_gridfs_ready w2 = true) by done.
  destruct W2 as (F2 & P2 & R2).
  assert (Ids : map file_id added ≡ₚ map img_fileId (post_images post)).
  { rewrite PA. cbn [post post_images]. by rewrite !map_imap. }
  assert (Fr : Forall (fun id => existsb (file_has_id id) (w_files w) = false)
                 (map img_fileId (post_images post))).
  { cbn [post post_images]. rewrite map_imap. cbn [img_fileId].
    apply Forall_forall. intros id Hid.
    apply list_elem_of_lookup in Hid as (i & Hi).
    rewrite list_lookup_imap in Hi.
    destruct (files !! i) as [file|] eqn:Hfile; [|done]. injection Hi as <-.
    rewrite Forall_forall in Fresh. apply (Fresh i). apply elem_of_seq.
    apply lookup_lt_Some in Hfile. lia. }
  destruct (delete_added_files (w_files w) _ added Ids Fr) as (DF & FA).
  assert (Tail : forall w3, w_posts w3 = w_posts w1 ->
            w_posts (snd ((Post_findByIdAndDelete (toString (batch_id w (length files))) ;;
                           ret "Post deleted successfully") w3)) = w_posts w /\
            fst ((Post_findByIdAndDelete (toString (batch_id w (length files))) ;;
                  ret "Post deleted successfully") w3) = Return "Post deleted successfully" /\
            w_files (snd ((Post_findByIdAndDelete (toString (batch_id w (length files))) ;;
                           ret "Post deleted successfully") w3)) = w_files w3).
  { intros w3 P3. rewrite (deletePost_tail _ _ V). world_simpl.
    rewrite Rt, P3, P. split_and!; try done.
    by apply (remove_first_fresh (w_posts w) post). }
  destruct (post_images post) as [|i imgs] eqn:I.
  - cbn [length Nat.ltb Nat.leb].
    rewrite (bind_Return _ _ w2 tt w2) by reflexivity.
    destruct (Tail w2 P2) as (T1 & T2 & T3).
    split_and!; try done.
    rewrite T3, F2, Fs. cbn [map] in Ids. apply Permutation_nil_r in Ids.
    destruct added; [by rewrite app_nil_r | done].
  - change (0 <? length (i :: imgs))%nat with true. cbv iota.
    destruct (delete_loop (i :: imgs) w2) as (L0 & L1 & L2 & _).
    rewrite F2, Fs in L0, L2. rewrite DF in L0. rewrite FA in L2.
    destruct (for_of (i :: imgs) PostService.delete_one w2) as [o w3] eqn:E.
    cbn [fst snd] in L0, L1, L2. subst o.
    erewrite bind_Return.
    2:{ apply try_catch_Return. unfold PostService.delete_images.
        rewrite (bind_Return _ _ _ _ _ (getGridFS_ready w2 R2)). exact E. }
    destruct (Tail w3 ltac:(by rewrite L1)) as (T1 & T2 & T3).
    split_and!; try done. by rewrite T3.
Qed.

End MoreUploads.

(** * The rate limiter *)

Section MoreSecurity.
Variable WINDOW_MS : Z.
Variable maxRequests : Z.

Lemma filter_filter_imp {A} (p q : A -> bool) l :
  (forall x, p x = true -> q x = true) ->
  List.filter p (List.filter q l) = List.filter p l.
Proof.
  intros I. induction l as [|x l IH]; [done|]. cbn [List.filter].
  destruct (q x) eqn:Q; cbn [List.filter].
  - destruct (p x); by rewrite IH.
  - destruct (p x) eqn:P; [|done]. apply I in P. congruence.
Qed.

Lemma filter_length_mono {A} (p q : A -> bool) l :
  (forall x, p x = true -> q x = true) ->
  (length (List.filter p l) <= length (List.filter q l))%nat.
Proof.
  intros I. induction l as [|x l IH]; [done|]. cbn [List.filter].
  destruct (p x) eqn:P.
  - rewrite (I x P). cbn [length]. lia.
  - destruct (q x); cbn [length]; lia.
Qed.

Lemma filter_map_comm {A B} (p : B -> bool) (f : A -> B) l :
  List.filter p (map f l) = map f (List.filter (fun x => p (f x)) l).
Proof.
  induction l as [|x l IH]; [done|]. cbn [map List.filter].
  destruct (p (f x)); cbn [map]; by rewrite IH.
Qed.

Lemma served_snoc reqs r :
  served WINDOW_MS maxRequests (reqs ++ [r])
  = let s := served WINDOW_MS maxRequests reqs in
    let out := rateLimiter WINDOW_MS maxRequests (fst r) (snd r) (fst s) in
    (snd out, match fst out with Next => snd s ++ [r] | TooManyRequests _ => snd s end).
Proof. unfold served. by rewrite fold_left_app. Qed.

(** The timestamps the limiter would keep for [ip] at a time [hi] not
    before any request served: those of the requests of [ip] it let
    through after [hi - WINDOW_MS]. *)
Lemma served_log reqs :
  0 < WINDOW_MS ->
  let s := served WINDOW_MS maxRequests reqs in
  forall hi ip, Forall (fun t => t <= hi) (map snd reqs) ->
    List.filter (fun t => hi - WINDOW_MS <? t) (default [] (fst s !! ip))
    = map snd (List.filter (since ip (hi - WINDOW_MS)) (snd s)).
Proof.
  intros W. induction reqs as [|r reqs IH] using rev_ind; cbn zeta; intros hi ip B.
  - unfold served. cbn. by rewrite lookup_empty.
  - rewrite served_snoc. cbn zeta in *.
    rewrite map_app, Forall_app in B. destruct B as [B Bn].
    apply Forall_inv in Bn. cbn [map snd] in Bn.
    destruct r as [ip0 now]. cbn [fst snd] in *.
    set (s := served WINDOW_MS maxRequests reqs) in *.
    specialize (IH hi ip B).
    unfold rateLimiter.
    set (requests1 := if bool_decide _ then _ else _).
    assert (L1 : forall k, default [] (requests1 !! k) = default [] (fst s !! k)).
    { intros k. unfold requests1. case_bool_decide as Hs; [done|].
      destruct (decide (k = ip0)) as [->|Hk].
      - rewrite lookup_insert_eq. apply eq_None_not_Some in Hs. by rewrite Hs.
      - by rewrite lookup_insert_ne. }
    set (recent := List.filter _ (default [] (requests1 !! ip0))).
    destruct (maxRequests <=? Z.of_nat (length recent)) eqn:Full; cbn [fst snd].
    + destruct (decide (ip = ip0)) as [->|Hk].
      * rewrite lookup_insert_eq. cbn [default from_option id]. unfold recent.
        rewrite filter_filter_imp by (intros x Hx; lia).
        by rewrite L1.
      * rewrite lookup_insert_ne by done. by rewrite L1.
    + rewrite List.filter_app, map_app. cbn [List.filter].
      destruct (decide (ip = ip0)) as [->|Hk].
      * rewrite lookup_insert_eq. cbn [default from_option id].
        rewrite List.filter_app. unfold recent at 1.
        rewrite filter_filter_imp by (intros x Hx; lia).
        rewrite L1, IH. f_equal. cbn [List.filter]. unfold since. cbn [fst snd].
        rewrite String.eqb_refl. cbn [andb]. by destruct (_ <? _).
      * rewrite !lookup_insert_ne by done. rewrite L1, IH.
        assert (E : since ip (hi - WINDOW_MS) (ip0, now) = false).
        { unfold since. cbn [fst snd].
          assert (E : String.eqb ip0 ip = false) by (by apply String.eqb_neq).
          by rewrite E. }
        rewrite E. cbn [map]. by rewrite app_nil_r.
Qed.

(** X14: The sliding window: a limiter serving requests whose times of arrival
    never go back lets a request through exactly when it let fewer than
    [maxRequests] requests of the same key through during the
    [WINDOW_MS] before it, and answers 429 with [retryAfter] the window in
    seconds, rounded up, otherwise; so of the requests of one key that
    arrived in any one stretch of [WINDOW_MS] it lets through at most
    [maxRequests]. Requests it rejected and requests of other keys do not
    count. *)
Theorem rate_limiter_window reqs ip now :
  0 < WINDOW_MS ->
  StronglySorted Z.le (map snd (reqs ++ [(ip, now)])) ->
  let before := served WINDOW_MS maxRequests reqs in
  let recent := List.filter (since ip (now - WINDOW_MS)) (snd before) in
  fst (rateLimiter WINDOW_MS maxRequests ip now (fst before))
    = (if Z.of_nat (length recent) <? maxRequests then Next
       else TooManyRequests (Math_ceil_div WINDOW_MS 1000)) /\
  forall ip' T,
    Z.of_nat (length (List.filter (in_window ip' (T - WINDOW_MS) T)
                        (snd (served WINDOW_MS maxRequests (reqs ++ [(ip, now)])))))
      <= Z.max 0 maxRequests.
Proof.
  intros W. revert ip now.
  assert (V : forall reqs ip now,
            Forall (fun t => t <= now) (map snd reqs) ->
            let before := served WINDOW_MS maxRequests reqs in
            let recent := List.filter (since ip (now - WINDOW_MS)) (snd before) in
            fst (rateLimiter WINDOW_MS maxRequests ip now (fst before))
              = (if Z.of_nat (length recent) <? maxRequests then Next
                 else TooManyRequests (Math_ceil_div WINDOW_MS 1000))).
  { intros rs ip now B. cbn zeta.
    pose proof (served_log rs W now ip B) as L. cbn zeta in L.
    unfold rateLimiter.
    set (requests1 := if bool_decide _ then _ else _).
    assert (L1 : default [] (requests1 !! ip)
                 = default [] (fst (served WINDOW_MS maxRequests rs) !! ip)).
    { unfold requests1. case_bool_decide as Hs; [done|].
      rewrite lookup_insert_eq. apply eq_None_not_Some in Hs. by rewrite Hs. }
    rewrite L1, L, length_map.
    destruct (Z.leb_spec maxRequests
                (Z.of_nat (length (List.filter (since ip (now - WINDOW_MS))
                                     (snd (served WINDOW_MS maxRequests rs))))));
      destruct (Z.ltb_spec
                  (Z.of_nat (length (List.filter (since ip (now - WINDOW_MS))
                                       (snd (served WINDOW_MS maxRequests rs)))))
                  maxRequests); (done || lia). }
  assert (Bd : forall reqs, StronglySorted Z.le (map snd reqs) ->
            forall ip' T,
              Z.of_nat (length (List.filter (in_window ip' (T - WINDOW_MS) T)
                                  (snd (served WINDOW_MS maxRequests reqs))))
              <= Z.max 0 maxRequests).
  { intros rs. induction rs as [|[ip now] rs IH] using rev_ind; intros S ip' T.
    - unfold served. cbn. lia.
    - rewrite map_app in S. cbn [map snd] in S.
      assert (S0 : StronglySorted Z.le (map snd rs) /\
                   Forall (fun t => t <= now) (map snd rs)).
      { clear -S. induction (map snd rs) as [|t ts IHt]; [by split; constructor|].
        cbn [app] in S. apply StronglySorted_inv in S as [S F].
        destruct (IHt S) as [S1 F1]. split.
        - constructor; [done|]. rewrite Forall_app in F. tauto.
        - constructor; [|done]. rewrite Forall_app in F.
          destruct F as [_ F]. by apply Forall_inv in F. }
      destruct S0 as [S0 B].
      rewrite served_snoc. cbn zeta. cbn [fst snd].
      rewrite (V rs ip now B). cbn zeta.
      destruct (Z.ltb_spec
                  (Z.of_nat (length (List.filter (since ip (now - WINDOW_MS))
                                       (snd (served WINDOW_MS maxRequests rs)))))
                  maxRequests) as [Lt|Ge]; [|by apply IH].
      rewrite List.filter_app, length_app. cbn [List.filter].
      destruct (in_window ip' (T - WINDOW_MS) T (ip, now)) eqn:In; cbn [length].
      + unfold in_window, since in In. cbn [fst snd] in In.
        apply andb_prop in In as [In In3]. apply andb_prop in In as [In1 In2].
        apply String.eqb_eq in In1. subst ip'.
        pose proof (filter_length_mono (in_window ip (T - WINDOW_MS) T)
                      (since ip (now - WINDOW_MS))
                      (snd (served WINDOW_MS maxRequests rs))) as M.
        assert (length (List.filter (in_window ip (T - WINDOW_MS) T)
                          (snd (served WINDOW_MS maxRequests rs)))
                <= length (List.filter (since ip (now - WINDOW_MS))
                             (snd (served WINDOW_MS maxRequests rs))))%nat.
        { apply M. intros [k t]. unfold in_window, since. cbn [fst snd]. intros Hx.
          apply andb_prop in Hx as [Hx _]. apply andb_prop in Hx as [Hx1 Hx2].
          rewrite Hx1. cbn [andb]. lia. }
        lia.
      + specialize (IH S0 ip' T). lia. }
  intros ip now S. cbn zeta. split; [|by apply Bd].
  apply V.
  clear -S. rewrite map_app in S. cbn [map snd] in S.
  induction (map snd reqs) as [|t ts IHt]; [constructor|].
  cbn [app] in S. apply StronglySorted_inv in S as [S F].
  constructor; [|by apply IHt].
  rewrite Forall_app in F. destruct F as [_ F]. by apply Forall_inv in F.
Qed.

End MoreSecurity.

(** * Pagination of the listing routes *)

Section MoreValidation.

(** The Number value of an integer: the integer itself below 2^53; from
    there on a double of the same sign and of at least 2^53, or an
    infinity of that sign. *)
Lemma to_double_cases z :
  (Z.abs z < 2 ^ 53 /\ to_double z = Finite z) \/
  (2 ^ 53 <= Z.abs z /\
   ((exists d, to_double z = Finite d /\ 2 ^ 53 <= Z.abs d /\ Z.sgn d = Z.sgn z) \/
    to_double z = Infinity (z <? 0))).
Proof.
  unfold to_double. destruct (Z.ltb_spec (Z.abs z) (2 ^ 53)) as [Lt|Ge]; [by left|].
  right. split; [done|]. cbn zeta.
  set (a := Z.abs z) in *. set (e := Z.log2 a - 52).
  set (q := Z.shiftr a e). set (r := a - Z.shiftl q e).
  set (q' := if _ || _ then q + 1 else q).
  destruct (2 ^ 1024 <=? Z.shiftl q' e); [by right|]. left.
  eexists. split; [reflexivity|].
  assert (A0 : 0 < a) by lia.
  destruct (Z.log2_spec a A0) as [Lo _].
  assert (L53 : 53 <= Z.log2 a).
  { apply Z.log2_le_pow2; [lia|]. exact Ge. }
  assert (E1 : 1 <= e) by (unfold e; lia).
  assert (Pe : 2 ^ Z.log2 a = 2 ^ 52 * 2 ^ e).
  { unfold e. rewrite <- Z.pow_add_r by lia. f_equal. lia. }
  assert (P2 : 2 <= 2 ^ e).
  { change 2 with (2 ^ 1) at 1. apply Z.pow_le_mono_r; lia. }
  assert (Q : 2 ^ 52 <= q).
  { unfold q. rewrite Z.shiftr_div_pow2 by lia.
    apply Z.div_le_lower_bound; [lia|]. rewrite Z.mul_comm. lia. }
  assert (Q' : q <= q') by (unfold q'; destruct (_ || _); lia).
  assert (M : 2 ^ 53 <= Z.shiftl q' e).
  { rewrite Z.shiftl_mul_pow2 by lia.
    change (2 ^ 53) with (2 ^ 52 * 2).
    apply Z.mul_le_mono_nonneg; lia. }
  split.
  - rewrite Z.abs_mul. destruct (Z.sgn_spec z) as [(? & ->)|[(? & ->)|(? & ->)]]; lia.
  - rewrite Z.sgn_mul, Z.sgn_sgn. rewrite (Z.sgn_pos (Z.shiftl q' e)) by lia. lia.
Qed.

Lemma to_double_exact z : Z.abs z < 2 ^ 53 -> to_double z = Finite z.
Proof. intros L. unfold to_double. by destruct (Z.ltb_spec (Z.abs z) (2 ^ 53)); [|lia]. Qed.

Lemma validatePagination_cases query_page query_limit w :
  (exists message,
     validatePagination query_page query_limit w = (Throw (ValidationError message), w)) \/
  (exists page limit,
     validatePagination query_page query_limit w = (Return (page, Finite limit), w) /\
     1 <= limit <= 100 /\
     (page = Infinity false \/ exists p, page = Finite p /\ 1 <= p)).
Proof.
  unfold validatePagination.
  assert (NN : forall n d, or_number n d <> NaN).
  { intros [|z|neg] d; cbn [or_number]; [done| |done]. by destruct (z =? 0). }
  destruct (or_number (parseInt query_page) 1) as [|p|np] eqn:EP;
    [by apply NN in EP| |]; cbn [num_lt].
  all: destruct (or_number (parseInt query_limit) 10) as [|l|nl] eqn:EL;
    [by apply NN in EL| |]; cbn [num_lt num_gt].
  - destruct (Z.ltb_spec p 1); [left; by eexists|].
    destruct (Z.ltb_spec l 1); [left; by eexists|].
    destruct (l >? 100) eqn:G; [left; by eexists|]. cbn [orb].
    right. exists (Finite p), l. split_and!; [done|lia|lia|]. right. by exists p.
  - destruct (Z.ltb_spec p 1); [left; by eexists|].
    left. destruct nl; by eexists.
  - destruct np; [left; by eexists|].
    destruct (Z.ltb_spec l 1); [left; by eexists|].
    destruct (l >? 100) eqn:G; [left; by eexists|]. cbn [orb].
    right. exists (Infinity false), l. split_and!; [done|lia|lia|]. by left.
  - destruct np; [left; by eexists|].
    left. destruct nl; by eexists.
Qed.

(** X15: Whatever the query, a listing holds at most 100 posts:
    [validatePagination] either rejects the request with a
    ValidationError, changing nothing, or passes on a limit that is an
    integer between 1 and 100 and a page that is an integer of at least 1
    or, for a numeral of more than 308 digits and the like, [Infinity];
    for an integer page whose offset [(page - 1) * limit] a double holds
    exactly, [getAllPosts] and [getPostsByUser] then return at most
    [limit] posts and report that page and limit. *)
Theorem listings_hold_at_most_100 query_page query_limit userId w :
  (exists message,
     validatePagination query_page query_limit w = (Throw (ValidationError message), w)) \/
  (exists page limit,
     validatePagination query_page query_limit w = (Return (page, Finite limit), w) /\
     1 <= limit <= 100 /\
     (page = Infinity false \/ exists p, page = Finite p /\ 1 <= p) /\
     forall p, page = Finite p -> (p - 1) * limit < 2 ^ 53 ->
       exists a m,
         fst (PostService.getAllPosts (Some p) (Some limit) w) = Return a /\
         fst (PostService.getPostsByUser userId (Some p) (Some limit) w) = Return m /\
         Z.of_nat (length (page_posts a)) <= limit /\
         Z.of_nat (length (page_posts m)) <= limit /\
         pg_page (page_pagination a) = p /\ pg_limit (page_pagination a) = limit /\
         pg_page (page_pagination m) = p /\ pg_limit (page_pagination m) = limit).
Proof.
  destruct (validatePagination_cases query_page query_limit w)
    as [(message & E) | (page & limit & E & L & P)]; [left; by exists message|].
  right. exists page, limit. split; [done|]. split; [done|]. split; [done|].
  intros p -> _. destruct P as [P|(p' & P & P1)]; [done|]. injection P as <-.
  rewrite (getAllPosts_run w p limit P1 ltac:(lia)).
  rewrite (getPostsByUser_run w userId p limit P1 ltac:(lia)).
  do 2 eexists. split; [reflexivity|]. split; [reflexivity|].
  cbn [page_posts page_pagination pg_page pg_limit].
  rewrite !page_of_length_exact by lia.
  split_and!; try done; lia.
Qed.

Lemma digit_char_facts d :
  (d < 10)%nat ->
  JsString.is_whitespace (digit_char d) = false /\
  digit_value 10 (digit_char d) = Some (Z.of_nat d) /\
  Ascii.eqb (digit_char d) "-" = false /\ Ascii.eqb (digit_char d) "+" = false /\
  Ascii.eqb (digit_char d) "x" = false /\ Ascii.eqb (digit_char d) "X" = false.
Proof.
  intros L. do 10 (destruct d as [|d]; [by vm_compute|]). lia.
Qed.

Lemma parse_digits_decimal ds :
  Forall (fun d => (d < 10)%nat) ds ->
  forall acc,
    parse_digits 10 (digits_string ds) acc
    = match ds with
      | [] => acc
      | _ => Some (fold_left (fun a d => 10 * a + Z.of_nat d) ds (default 0 acc))
      end.
Proof.
  induction 1 as [|d ds D _ IH]; intros acc; [done|].
  cbn [digits_string parse_digits].
  destruct (digit_char_facts d D) as (_ & -> & _).
  rewrite IH. cbn [fold_left default from_option id]. by destruct ds.
Qed.

Lemma parse_integer_numeral negative ds :
  Forall (fun d => (d < 10)%nat) ds -> ds <> [] ->
  parse_integer (Some (numeral negative ds)) = Some (numeral_value negative ds).
Proof.
  intros D NE.
  assert (P : parse_integer (Some (digits_string ds)) = Some (numeral_value false ds) /\
              parse_integer (Some (String "-" (digits_string ds)))
              = Some (numeral_value true ds)).
  { destruct ds as [|d ds]; [done|].
    pose proof (parse_digits_decimal (d :: ds) D None) as PD.
    cbn [default from_option id] in PD.
    apply Forall_cons in D as [D0 D].
    destruct (digit_char_facts d D0) as (W & V & M & Pl & X1 & X2).
    cbn [digits_string] in PD.
    unfold parse_integer, numeral_value. cbn [digits_string JsString.trimStart].
    rewrite W. split.
    - rewrite M, Pl. cbn [orb].
      transitivity (Z.mul 1 <$> parse_digits 10 (String (digit_char d) (digits_string ds))
                                  None).
      + destruct ds as [|d2 ds]; [done|]. cbn [digits_string].
        apply Forall_cons in D as [D2 _].
        destruct (digit_char_facts d2 D2) as (_ & _ & _ & _ & -> & ->).
        by rewrite andb_false_r.
      + rewrite PD. cbn [fmap option_fmap option_map]. f_equal. lia.
    - change (JsString.is_whitespace "-") with false.
      cbn [orb]. rewrite !Ascii.eqb_refl. cbn [orb].
      transitivity (Z.mul (-1) <$> parse_digits 10
                                     (String (digit_char d) (digits_string ds)) None).
      + destruct ds as [|d2 ds]; [done|]. cbn [digits_string].
        apply Forall_cons in D as [D2 _].
        destruct (digit_char_facts d2 D2) as (_ & _ & _ & _ & -> & ->).
        by rewrite andb_false_r.
      + rewrite PD. cbn [fmap option_fmap option_map]. f_equal; lia. }
  unfold numeral. destruct negative; tauto.
Qed.

(** X16: Query parameters written in decimal, with or without a minus sign:
    a page or limit of zero is not rejected but replaced by the default
    (page 1, limit 10); a negative page is rejected with "Page must be
    greater than 0", a negative limit or a limit above 100 with "Limit
    must be between 1 and 100"; every other limit is passed on as the
    number written, and every other page as the double nearest to the
    number written, which is that number itself below 2^53. *)
Theorem pagination_of_decimal_query np ps nl ls w :
  Forall (fun d => (d < 10)%nat) ps -> ps <> [] ->
  Forall (fun d => (d < 10)%nat) ls -> ls <> [] ->
  let page := numeral_value np ps in
  let limit := numeral_value nl ls in
  validatePagination (Some (numeral np ps)) (Some (numeral nl ls)) w
  = (if page <? 0 then Throw (ValidationError "Page must be greater than 0")
     else if (limit <? 0) || (100 <? limit)
          then Throw (ValidationError "Limit must be between 1 and 100")
          else Return (if page =? 0 then Finite 1 else to_double page,
                       Finite (if limit =? 0 then 10 else limit)),
     w) /\
  (Z.abs page < 2 ^ 53 -> to_double page = Finite page).
Proof.
  intros DP NP DL NL. cbn zeta. split; [|apply to_double_exact].
  unfold validatePagination, parseInt.
  rewrite (parse_integer_numeral np ps DP NP), (parse_integer_numeral nl ls DL NL).
  set (page := numeral_value np ps). set (limit := numeral_value nl ls).
  assert (PG : num_lt (or_number (to_double page) 1) 1 = (page <? 0) /\
               or_number (to_double page) 1
               = if page =? 0 then Finite 1 else to_double page).
  { destruct (to_double_cases page) as [(B & ->)|(B & [(d & -> & Bd & Sd)| ->])];
      cbn [or_number num_lt].
    - destruct (Z.eqb_spec page 0) as [->|P0]; [done|]. cbn [num_lt]. split; [|done].
      destruct (Z.ltb_spec page 1), (Z.ltb_spec page 0); lia || done.
    - assert (d <> 0) by lia. assert (page <> 0) by lia.
      destruct (Z.eqb_spec d 0); [done|]. destruct (Z.eqb_spec page 0); [done|].
      cbn [num_lt]. split; [|done].
      destruct (Z.ltb_spec d 1), (Z.ltb_spec page 0); try done.
      + assert (Z.sgn d = 1) by (rewrite Sd; lia).
        pose proof (Z.sgn_pos_iff d). lia.
      + assert (Z.sgn d = -1) by (rewrite Sd; lia).
        pose proof (Z.sgn_neg_iff d). lia.
    - assert (page <> 0) by lia. destruct (Z.eqb_spec page 0); done. }
  assert (LM : (num_lt (or_number (to_double limit) 10) 1
                || num_gt (or_number (to_double limit) 10) 100)
               = ((limit <? 0) || (100 <? limit)) /\
               ((limit <? 0) || (100 <? limit) = false ->
                or_number (to_double limit) 10
                = Finite (if limit =? 0 then 10 else limit))).
  { destruct (to_double_cases limit) as [(B & ->)|(B & [(d & -> & Bd & Sd)| ->])];
      cbn [or_number num_lt num_gt].
    - destruct (Z.eqb_spec limit 0) as [->|L0]; [done|]. cbn [num_lt num_gt].
      split; [|done].
      destruct (Z.ltb_spec limit 1), (Z.ltb_spec limit 0), (Z.ltb_spec 100 limit),
        (Z.gtb_spec limit 100); (done || lia).
    - assert (d <> 0) by lia. destruct (Z.eqb_spec d 0); [done|].
      cbn [num_lt num_gt].
      assert (Z.sgn limit = 1 \/ Z.sgn limit = -1).
      { destruct (Z.sgn_spec limit) as [(? & ->)|[(? & ?)|(? & ->)]]; lia. }
      pose proof (Z.sgn_pos_iff d). pose proof (Z.sgn_neg_iff d).
      pose proof (Z.sgn_pos_iff limit). pose proof (Z.sgn_neg_iff limit).
      destruct (Z.ltb_spec d 1), (Z.ltb_spec limit 0), (Z.ltb_spec 100 limit),
        (Z.gtb_spec d 100); cbn [orb]; split; (done || lia).
    - destruct (Z.ltb_spec limit 0), (Z.ltb_spec 100 limit); cbn [orb negb];
        split; (done || lia). }
  destruct PG as (-> & ->). destruct LM as (-> & LV).
  destruct (page <? 0); [done|].
  destruct ((limit <? 0) || (100 <? limit)); [done|]. by rewrite LV.
Qed.

End MoreValidation.

(** * Authentication *)

Section MoreAuth.
Variable jwt_verify : option string -> JwtVerify.
Variable User_findById : option string -> Error + option User.

Lemma startsWith_Bearer header :
  JsString.startsWith header "Bearer " = true <-> exists s, header = "Bearer " +:+ s.
Proof.
  split.
  - unfold JsString.startsWith. intros P.
    do 7 (destruct header as [|? header]; [discriminate P|];
          cbn [String.prefix] in P;
          destruct (ascii_dec _ _) as [<-|]; [|discriminate P]).
    by exists header.
  - intros (s & ->). unfold JsString.startsWith.
    change ("Bearer " +:+ s)
      with (String "B" (String "e" (String "a" (String "r" (String "e" (String "r"
              (String " " s))))))).
    cbn [String.prefix].
    repeat (destruct (ascii_dec _ _); [|done]). by destruct s.
Qed.

Lemma split_on_Bearer s :
  split_on " " ("Bearer " +:+ s) = "Bearer" :: split_on " " s.
Proof.
  change ("Bearer " +:+ s)
    with (String "B" (String "e" (String "a" (String "r" (String "e" (String "r"
            (String " " s))))))).
  cbn [split_on]. reflexivity.
Qed.

(** The first piece of a split: it has no space, and it is followed by
    nothing or by a space. *)
Lemma split_on_first s :
  exists first others rest,
    split_on " " s = first :: others /\ spaceless first = true /\
    s = first +:+ rest /\ (rest = "" \/ exists r, rest = String " " r).
Proof.
  induction s as [|c s (first & others & rest & E & Sp & -> & R)].
  - exists "", [], "". split_and!; try done. by left.
  - cbn [split_on]. destruct (Ascii.eqb c " ") eqn:C.
    + apply Ascii.eqb_eq in C. subst c.
      exists "", (split_on " " (first +:+ rest)), (String " " (first +:+ rest)).
      split_and!; try done. right. by eexists.
    + rewrite E. exists (String c first), others, rest.
      split_and!; try done. unfold spaceless in *. cbn [Node.all_chars]. by rewrite C.
Qed.

Lemma split_on_token token rest :
  spaceless token = true -> (rest = "" \/ exists r, rest = String " " r) ->
  exists others, split_on " " (token +:+ rest) = token :: others.
Proof.
  intros Sp R. induction token as [|c token IH].
  - change ("" +:+ rest) with rest. destruct R as [->|(r & ->)]; by eexists.
  - unfold spaceless in Sp. cbn [Node.all_chars] in Sp.
    apply andb_prop in Sp as [C Sp]. apply negb_true_iff in C.
    destruct (IH Sp) as (others & E).
    change (String c token +:+ rest) with (String c (token +:+ rest)).
    cbn [split_on]. rewrite C, E. by eexists.
Qed.

(** X17: [authenticate] lets a request through exactly when its Authorization
    header is [Bearer], one space, and a non-empty token without a space
    that ends the header or is followed by another space, [jwt.verify]
    accepts that token, and a user with the id of its payload exists; the
    user it attaches is that one. Whatever follows the second space is
    ignored. *)
Theorem authenticate_reads_the_bearer_token authHeader user :
  authenticate jwt_verify User_findById authHeader = inr user <->
  exists token rest _id found,
    authHeader = Some ("Bearer " +:+ token +:+ rest) /\
    token <> "" /\ spaceless token = true /\
    (rest = "" \/ exists r, rest = String " " r) /\
    jwt_verify (Some token) = Decoded _id /\
    User_findById _id = inr (Some found) /\
    user = mkUser (user_id found) (user_email found).
Proof.
  split.
  - unfold authenticate. destruct authHeader as [header|]; [|discriminate].
    destruct (String.eqb header ""); [discriminate|]. cbn [orb].
    destruct (JsString.startsWith header "Bearer ") eqn:P; [|discriminate].
    cbn [negb]. apply startsWith_Bearer in P as (s & ->).
    rewrite split_on_Bearer.
    destruct (split_on_first s) as (token & others & rest & E & Sp & -> & R).
    rewrite E. cbn [lookup list_lookup].
    destruct (String.eqb token "") eqn:T; [discriminate|].
    unfold verifyToken, getUserById.
    destruct (jwt_verify (Some token)) as [_id|name] eqn:J.
    + destruct (User_findById _id) as [e|[found|]] eqn:U; try discriminate.
      intros [= <-]. exists token, rest, _id, found.
      split_and!; try done. by apply String.eqb_neq.
    + by repeat destruct (String.eqb name _).
  - intros (token & rest & _id & found & -> & T & Sp & R & J & U & ->).
    unfold authenticate.
    assert (P : JsString.startsWith ("Bearer " +:+ token +:+ rest) "Bearer " = true)
      by (apply startsWith_Bearer; by eexists).
    rewrite P. change (String.eqb ("Bearer " +:+ token +:+ rest) "") with false.
    cbn [orb negb]. rewrite split_on_Bearer.
    destruct (split_on_token token rest Sp R) as (others & ->).
    cbn [lookup list_lookup]. apply String.eqb_neq in T. rewrite T.
    unfold verifyToken, getUserById. by rewrite J, U.
Qed.

(** X18: [optionalAuth] and [authenticate] agree, given that [jwt.verify]
    throws on the empty token: on a header starting with [Bearer] and a
    space, [optionalAuth] attaches the user [authenticate] would attach
    and sets [req.user] to [null] where [authenticate] would fail; on any
    other header, or none, it leaves [req.user] as it was. *)
Theorem optionalAuth_agrees_with_authenticate name authHeader before :
  jwt_verify (Some "") = JwtThrows name ->
  optionalAuth jwt_verify User_findById authHeader before
  = match authHeader with
    | Some header =>
        if JsString.startsWith header "Bearer "
        then match authenticate jwt_verify User_findById authHeader with
             | inr user => Defined user
             | inl _ => Null
             end
        else before
    | None => before
    end.
Proof.
  intros E. unfold optionalAuth, authenticate.
  destruct authHeader as [header|]; [|done].
  destruct (JsString.startsWith header "Bearer ") eqn:P;
    [|by rewrite andb_false_r].
  apply startsWith_Bearer in P as (s & ->).
  change (String.eqb ("Bearer " +:+ s) "") with false. cbn [negb andb orb].
  rewrite split_on_Bearer.
  destruct (split_on_first s) as (token & others & rest & -> & _).
  cbn [lookup list_lookup].
  destruct (String.eqb token "") eqn:T.
  - apply String.eqb_eq in T. subst token. unfold verifyToken. rewrite E.
    by repeat destruct (String.eqb name _).
  - destruct (verifyToken jwt_verify (Some token)) as [f|decoded]; [done|].
    by destruct (getUserById User_findById decoded).
Qed.

End MoreAuth.

(** * The properties above on the sample data *)

Section MoreConcrete.
#[local] Existing Instance hex24_driver.

Lemma unknown_post_is_not_found_witness :
  PostService.getPostById Tour.unknown Sample.world
  = (Throw (NotFoundError "Post"),
     set_trace [EvPostFindById (ObjectId_new Tour.unknown)] Sample.world) /\
  PostService.deletePost Tour.unknown Sample.alice Sample.world
  = (Throw (NotFoundError "Post"),
     set_trace [EvPostFindById (ObjectId_new Tour.unknown)] Sample.world).
Proof.
  destruct (@unknown_post_is_not_found hex24_driver Sample.world Tour.unknown ∅
              Sample.alice eq_refl eq_refl) as (A & _ & B & _).
  split; [exact A | exact B].
Defined.

Lemma created_post_is_read_back_witness :
  exists post w1,
    PostService.createPost Sample.body Sample.alice Undefined Sample.world
    = (Return post, w1) /\
    fst (PostService.getPostById (toString (post_id post)) w1) = Return post.
Proof.
  destruct (@created_post_is_read_back hex24_driver Sample.body Sample.alice Undefined
              Sample.world "Hi there" "This is long enough content" eq_refl eq_refl
              ltac:(vm_compute; lia) ltac:(vm_compute; lia) eq_refl eq_refl eq_refl)
    as (post & w1 & A & _ & _ & B).
  exists post, w1. split; [exact A | by rewrite B].
Defined.

Lemma updatePost_applies_patch_witness :
  fst (PostService.updatePost Sample.post1 Tour.retitled Sample.alice Sample.world)
  = Return (Some (mkPost (mkObjectId Sample.post1) "New title"
                    "This is long enough content" Sample.alice
                    [Sample.imageA; Sample.imageB] 10 20)).
Proof.
  destruct (@updatePost_applies_patch hex24_driver Sample.world Sample.post1
              Sample.twoImages Tour.retitled eq_refl eq_refl) as (A & _).
  - right. exists "  New title  ". split; [reflexivity | vm_compute; lia].
  - left. reflexivity.
  - exact A.
Defined.

Lemma deleted_post_is_gone_witness :
  let r := PostService.deletePost Sample.post1 Sample.alice Sample.world in
  fst r = Return "Post deleted successfully" /\
  fst (PostService.getPostById Sample.post1 (snd r)) = Throw (NotFoundError "Post").
Proof.
  destruct (@deleted_post_is_gone hex24_driver Sample.world Sample.post1 Sample.twoImages
              eq_refl eq_refl) as (A & _ & _ & B & _).
  - refine (bool_decide_unpack _ _). vm_compute. exact I.
  - cbn zeta. split; [exact A | exact B].
Defined.

Lemma deletePost_removes_all_images_witness :
  let r := PostService.deletePost Sample.post1 Sample.alice Tour.world_full in
  fst r = Return "Post deleted successfully" /\
  bucket_deletes (w_trace (snd r)) = [Sample.fileA; Sample.fileB] /\
  console_errors (w_trace (snd r)) = [].
Proof.
  destruct (@deletePost_removes_all_images hex24_driver Tour.world_full Sample.post1
              Sample.twoImages eq_refl eq_refl eq_refl) as (A & B & C & _).
  - refine (bool_decide_unpack _ _). vm_compute. exact I.
  - refine (bool_decide_unpack _ _). vm_compute. exact I.
  - intros id Hin.
    repeat (apply elem_of_cons in Hin as [-> | Hin]; [reflexivity|]).
    by apply elem_of_nil in Hin.
  - cbn zeta. split_and!; [exact A | exact B | exact C].
Defined.

Lemma paging_visits_every_post_witness :
  posts_of (fst (PostService.getPostsByUser Sample.alice (Some 2) (Some 1)
                   Tour.world_racing))
  = [] /\
  Z.of_nat (length (posts_of (fst (PostService.getAllPosts (Some 2) (Some 1)
                                     Tour.world_racing))))
  = 1.
Proof.
  pose (state := fun page : Z => if page =? 1 then Sample.world else Tour.world_racing).
  assert (S : forall page, w_posts (state page) = [Sample.older; Sample.twoImages])
    by (intros page; unfold state; by destruct (page =? 1)).
  destruct (paging_visits_every_post [Sample.older; Sample.twoImages] state
              Sample.alice 1 ltac:(lia) S)
    as (A & B & _).
  split; [apply (B 2); [by vm_compute | lia] | exact (proj2 (A 2 ltac:(lia)))].
Defined.

Lemma uploads_are_all_stored_witness :
  let r := uploadMultipleToGridFS (Defined [Sample.cat; Tour.dog]) Sample.alice
             Tour.world_racing in
  fst r = Return [mkUploadedFile (Sample.fresh_ids 0)
                    "00000000000000000000000000000000.png" "image/png" 4;
                  mkUploadedFile (Sample.fresh_ids 1)
                    "00000000000000000000000000000000.jpeg" "image/jpeg" 2] /\
  (exists added,
     w_files (snd r) = w_files Tour.world_racing ++ added /\
     added ≡ₚ imap (batch_file Tour.world_racing Sample.alice) [Sample.cat; Tour.dog]) /\
  map file_data (w_files (snd r)) = [[x01; x02]; buffer Tour.dog; buffer Sample.cat].
Proof.
  destruct (uploads_are_all_stored Tour.world_racing [Sample.cat; Tour.dog] Sample.alice
              eq_refl eq_refl) as (added & A & B & C & _).
  cbn zeta. split_and!; [exact A | exists added; by split | reflexivity].
Defined.

Lemma rejected_post_keeps_its_uploads_witness :
  let r := POST_posts Sample.body (Defined [Sample.cat; Tour.dog]) Sample.alice
             Tour.world_faulty in
  fst r = Throw (MongoError "upload stream error") /\
  w_posts (snd r) = w_posts Tour.world_faulty /\
  map file_filename (w_files (snd r)) = ["b.png"; "00000000000000000000000000000000.png"].
Proof.
  destruct (rejected_post_keeps_its_uploads Tour.world_faulty Sample.body
              [Sample.cat; Tour.dog] Sample.alice eq_refl) as (added & _ & _ & _ & B & C).
  cbn zeta. split_and!.
  - exact (B eq_refl).
  - exact (C _ (B eq_refl)).
  - reflexivity.
Defined.

Lemma POST_posts_links_images_witness :
  exists post,
    fst (POST_posts Sample.body (Defined [Sample.cat; Tour.dog]) Sample.alice
           Tour.world_racing)
    = Return post /\
    post_images post
    = [mkPostImageRef (Sample.fresh_ids 0) "00000000000000000000000000000000.png"
         "image/png" 4;
       mkPostImageRef (Sample.fresh_ids 1) "00000000000000000000000000000000.jpeg"
         "image/jpeg" 2] /\
    post_id post = Sample.fresh_ids 2.
Proof.
  destruct (POST_posts_links_images Tour.world_racing Sample.body [Sample.cat; Tour.dog]
              Sample.alice "Hi there" "This is long enough content" eq_refl eq_refl
              eq_refl eq_refl ltac:(vm_compute; lia) ltac:(vm_compute; lia))
    as (post & added & A & B & _ & _ & _ & C & _).
  exists post. split_and!; [exact A | exact C | exact B].
Defined.

Lemma uninitialised_bucket_stops_only_files_witness :
  POST_posts Sample.body (Defined [Sample.cat]) Sample.alice Sample.world_uninitialised
  = (Throw (GenericError "GridFS not initialized. Call initGridFS() first."),
     Sample.world_uninitialised).
Proof.
  destruct (uninitialised_bucket_stops_only_files Sample.world_uninitialised Sample.body
              [Sample.cat] Sample.alice eq_refl) as (A & _).
  apply A. discriminate.
Defined.


Lemma storage_names_differ_witness :
  map (w_entropy Sample.world) (seq 0 16)
  = map (w_entropy Tour.world_faulty) (seq 0 16) /\
  Node.extname "cat.png" = Node.extname "cat.png".
Proof.
  exact (storage_names_differ Sample.world Tour.world_faulty Sample.cat Sample.cat
           Sample.alice Sample.bob
           (mkUploadedFile (Sample.fresh_ids 0) "00000000000000000000000000000000.png"
              "image/png" 4)
           (mkUploadedFile (Sample.fresh_ids 0) "00000000000000000000000000000000.png"
              "image/png" 4)
           eq_refl eq_refl eq_refl).
Defined.

Lemma create_then_delete_restores_witness :
  exists post,
    fst (POST_posts Sample.body (Defined [Sample.cat]) Sample.alice Sample.world)
    = Return post /\
    let w1 := snd (POST_posts Sample.body (Defined [Sample.cat]) Sample.alice
                     Sample.world) in
    let r := PostService.deletePost (toString (post_id post)) Sample.alice w1 in
    length (w_files w1) = 2%nat /\
    w_posts (snd r) = w_posts Sample.world /\ w_files (snd r) = w_files Sample.world.
Proof.
  destruct (@create_then_delete_restores hex24_driver Sample.world Sample.body
              [Sample.cat] Sample.alice "Hi there" "This is long enough content"
              eq_refl eq_refl eq_refl eq_refl ltac:(vm_compute; lia) ltac:(vm_compute; lia)
              ltac:(repeat constructor) eq_refl eq_refl eq_refl)
    as (post & A & _ & _ & B & C).
  exists post. split; [exact A|]. cbn zeta. split_and!; [reflexivity | exact B | exact C].
Defined.

Lemma rate_limiter_window_witness :
  fst (rateLimiter 60000 2 "10.0.0.1" 40 (fst (served 60000 2 Tour.requests)))
  = TooManyRequests 60 /\
  snd (served 60000 2 (Tour.requests ++ [("10.0.0.1", 40)]))
  = [("10.0.0.1", 0); ("10.0.0.1", 10); ("10.0.0.2", 20)].
Proof.
  destruct (rate_limiter_window 60000 2 Tour.requests "10.0.0.1" 40 eq_refl) as (A & _).
  - change (StronglySorted Z.le [0; 10; 20; 30; 40]).
    repeat (apply SSorted_cons;
            [|repeat (apply List.Forall_cons; [lia|]); apply List.Forall_nil]).
    apply SSorted_nil.
  - split; [exact A | reflexivity].
Defined.

Lemma pagination_of_decimal_query_witness :
  validatePagination (Some "0") (Some "25") Sample.world
  = (Return (Finite 1, Finite 25), Sample.world) /\
  validatePagination (Some "-3") (Some "25") Sample.world
  = (Throw (ValidationError "Page must be greater than 0"), Sample.world).
Proof.
  split.
  - exact (proj1 (pagination_of_decimal_query false [0%nat] false [2%nat; 5%nat]
                    Sample.world
                    ltac:(repeat constructor) ltac:(discriminate)
                    ltac:(repeat constructor) ltac:(discriminate))).
  - exact (proj1 (pagination_of_decimal_query true [3%nat] false [2%nat; 5%nat]
                    Sample.world
                    ltac:(repeat constructor) ltac:(discriminate)
                    ltac:(repeat constructor) ltac:(discriminate))).
Defined.

(** A page written with more digits than a double holds is passed on
    rounded, and one written with 400 digits as [Infinity]. *)
Example pagination_beyond_doubles :
  validatePagination (Some "9007199254740993") (Some "5") Sample.world
  = (Return (Finite 9007199254740992, Finite 5), Sample.world) /\
  validatePagination (Some (numeral false (repeat 9%nat 400))) None Sample.world
  = (Return (Infinity false, Finite 10), Sample.world).
Proof. split; by vm_compute. Qed.

(** Above 2^53 an integer is rounded to the nearest double, to the even
    mantissa on a tie, and to an infinity from 2^1024 - 2^970 on. *)
Example to_double_rounds_to_even :
  to_double (2 ^ 53 - 1) = Finite (2 ^ 53 - 1) /\
  to_double (2 ^ 53 + 1) = Finite (2 ^ 53) /\
  to_double (2 ^ 53 + 2) = Finite (2 ^ 53 + 2) /\
  to_double (2 ^ 53 + 3) = Finite (2 ^ 53 + 4) /\
  to_double (- (2 ^ 53 + 3)) = Finite (- (2 ^ 53 + 4)) /\
  to_double (2 ^ 1024 - 2 ^ 970 - 1) = Finite (2 ^ 1024 - 2 ^ 971) /\
  to_double (2 ^ 1024 - 2 ^ 970) = Infinity false /\
  to_double (- 2 ^ 1024) = Infinity true.
Proof. split_and!; by vm_compute. Qed.

(** A text file is served with the charset [res.set] adds to its type. *)
Example text_upload_is_served_with_charset :
  header_value "Content-Type" "text/plain" = "text/plain; charset=utf-8" /\
  header_value "Content-Type" "application/json" = "application/json; charset=utf-8" /\
  header_value "Content-Type" "text/html; charset=latin1" = "text/html; charset=latin1" /\
  header_value "Content-Type" "application/pdf" = "application/pdf" /\
  header_value "Content-Type" "image/png" = "image/png".
Proof. split_and!; reflexivity. Qed.

Lemma optionalAuth_agrees_with_authenticate_witness :
  optionalAuth Tour.jwt Tour.users (Some "Bearer good extra") Undefined
  = Defined (mkUser Sample.alice "alice@example.com") /\
  optionalAuth Tour.jwt Tour.users (Some "Bearer old") Undefined = Null.
Proof.
  split.
  - exact (optionalAuth_agrees_with_authenticate Tour.jwt Tour.users "JsonWebTokenError"
             (Some "Bearer good extra") Undefined eq_refl).
  - exact (optionalAuth_agrees_with_authenticate Tour.jwt Tour.users "JsonWebTokenError"
             (Some "Bearer old") Undefined eq_refl).
Defined.

End MoreConcrete.
